(** * reddit_miner: the resumable, rate-limited analysis pipeline

    A shallow embedding of the core of the [reddit_miner] package
    ([ticker.py], [analyzer.py], [db.py], [pipeline.py]) and the proofs of
    the properties its specification states about it.

    Conventions of the embedding.
    - A Python [str] is a [string]; its characters are the ASCII range, and
      the character tests of [str.strip], [str.upper] and [str.lower] are
      the ASCII ones.
    - A table of the SQLite store is the list of its rows, in row order; the
      primary key of a table is enforced by the statements that write to it
      ([INSERT OR REPLACE], [INSERT OR IGNORE]), not by the type of the table.
    - Time ([time.monotonic], [time.sleep]) is a rational number of seconds;
      rounding of the floating-point clock is not modelled.
    - What the run receives from outside (the extraction service, the
      keyboard poll, the validity oracle) is read from an environment. *)

From Stdlib Require Import Bool Arith ZArith QArith Lia List Ascii String.
From Stdlib Require Import Qround Qminmax Sorted Lqa Permutation.
Import ListNotations.

Local Close Scope Q_scope.
Local Open Scope string_scope.

(* ================================================================= *)
(** ** Python strings *)

Module PyStr.

Definition code (c : ascii) : N := N_of_ascii c.

Definition in_range (lo hi : N) (c : ascii) : bool :=
  (N.leb lo (code c) && N.leb (code c) hi)%bool.

Definition is_upper (c : ascii) : bool := in_range 65 90 c.
Definition is_lower (c : ascii) : bool := in_range 97 122 c.
Definition is_digit (c : ascii) : bool := in_range 48 57 c.

(** [str.isspace] on the ASCII range: TAB, LF, VT, FF, CR, FS, GS, RS, US
    and the space. *)
Definition is_space (c : ascii) : bool :=
  (in_range 9 13 c || in_range 28 32 c)%bool.

Definition upper_char (c : ascii) : ascii :=
  if is_lower c then ascii_of_N (code c - 32) else c.

Definition lower_char (c : ascii) : ascii :=
  if is_upper c then ascii_of_N (code c + 32) else c.

Fixpoint map (f : ascii -> ascii) (s : string) : string :=
  match s with
  | EmptyString => EmptyString
  | String c s' => String (f c) (map f s')
  end.

Fixpoint filter (p : ascii -> bool) (s : string) : string :=
  match s with
  | EmptyString => EmptyString
  | String c s' => if p c then String c (filter p s') else filter p s'
  end.

Fixpoint forallb (p : ascii -> bool) (s : string) : bool :=
  match s with
  | EmptyString => true
  | String c s' => (p c && forallb p s')%bool
  end.

(** [s.upper()] and [s.lower()], on the characters of ASCII; the other
    characters are left as they are, where Python follows Unicode. *)
Definition upper (s : string) : string := map upper_char s.
Definition lower (s : string) : string := map lower_char s.

(** [s.isascii()]. *)
Definition is_ascii (s : string) : bool := forallb (in_range 0 127) s.

(** [s.lstrip()], [s.rstrip()] and [s.strip()]. *)
Fixpoint lstrip (s : string) : string :=
  match s with
  | EmptyString => EmptyString
  | String c s' => if is_space c then lstrip s' else s
  end.

Fixpoint rstrip (s : string) : string :=
  match s with
  | EmptyString => EmptyString
  | String c s' =>
      match rstrip s' with
      | EmptyString => if is_space c then EmptyString else String c EmptyString
      | r => String c r
      end
  end.

Definition strip (s : string) : string := rstrip (lstrip s).

(** [s.replace(a, b)] for one-character [a] and [b]. *)
Definition replace_char (a b : ascii) (s : string) : string :=
  map (fun c => if Ascii.eqb c a then b else c) s.

(** [s.startswith(p)]. *)
Definition startswith (p s : string) : bool := String.prefix p s.

(** [s[n:]] and [s[:n]] for [n >= 0]. *)
Fixpoint drop (n : nat) (s : string) : string :=
  match n, s with
  | O, _ => s
  | S n', EmptyString => EmptyString
  | S n', String _ s' => drop n' s'
  end.

Fixpoint take (n : nat) (s : string) : string :=
  match n, s with
  | O, _ => EmptyString
  | S n', EmptyString => EmptyString
  | S n', String c s' => String c (take n' s')
  end.

Arguments take : simpl never.

(** The longest prefix of [s] whose characters satisfy [p], and the rest. *)
Fixpoint span (p : ascii -> bool) (s : string) : string * string :=
  match s with
  | EmptyString => (EmptyString, EmptyString)
  | String c s' =>
      if p c then let (a, b) := span p s' in (String c a, b)
      else (EmptyString, s)
  end.

(** [p in s] for strings. *)
Fixpoint contains (p s : string) : bool :=
  (String.prefix p s ||
   match s with
   | EmptyString => false
   | String _ s' => contains p s'
   end)%bool.

(** Python's truth value of a string: [bool(s)]. *)
Definition truthy (s : string) : bool :=
  match s with EmptyString => false | _ => true end.

End PyStr.

(* ================================================================= *)
(** ** ticker.py: symbol normalization *)

Module Ticker.
Import PyStr.

(** The characters kept by [re.sub(r"[^A-Z0-9.\-/]", "", sym)]. *)
Definition kept_char (c : ascii) : bool :=
  (is_upper c || is_digit c || Ascii.eqb c "." || Ascii.eqb c "-"
   || Ascii.eqb c "/")%bool.

(** [re.sub(r"^[A-Z]+:", "", sym)]: the pattern is anchored, so at most the
    leading run of capitals and the colon after it are removed. *)
Definition strip_market_prefix (sym : string) : string :=
  match span is_upper sym with
  | (String _ _, String ":" rest) => rest
  | _ => sym
  end.

Definition is_alnum_upper (c : ascii) : bool := (is_upper c || is_digit c)%bool.

(** [re.fullmatch(r"[A-Z]{1,6}-[A-Z0-9]{1,3}", sym)]. *)
Definition is_share_class (sym : string) : bool :=
  match span is_upper sym with
  | (letters, String "-" cls) =>
      (Nat.leb 1 (String.length letters) && Nat.leb (String.length letters) 6
       && Nat.leb 1 (String.length cls) && Nat.leb (String.length cls) 3
       && forallb is_alnum_upper cls)%bool
  | _ => false
  end.

Definition normalize_ticker (sym : string) : string :=
  let sym := upper (strip sym) in
  if negb (truthy sym) then ""
  else
    let sym := if startswith "$" sym then drop 1 sym else sym in
    let sym := strip_market_prefix sym in
    let sym := filter kept_char sym in
    let sym := replace_char "/" "." sym in
    if is_share_class sym then replace_char "-" "." sym else sym.

(** The alphabet of a normalized symbol. *)
Definition symbol_char (c : ascii) : bool :=
  (is_upper c || is_digit c || Ascii.eqb c "." || Ascii.eqb c "-")%bool.

(** The characters that never occur in a normalized symbol: the slash,
    the sigil, the colon, lowercase letters and whitespace. *)
Definition excluded_char (c : ascii) : bool :=
  (Ascii.eqb c "/" || Ascii.eqb c "$" || Ascii.eqb c ":" || is_lower c
   || is_space c)%bool.

(** The string the last test of [normalize_ticker] is applied to. *)
Definition before_share_class (sym : string) : string :=
  replace_char "/" "."
    (filter kept_char
       (strip_market_prefix (if startswith "$" sym then drop 1 sym else sym))).

(** *** The keyword shortcut *)

Definition _HINT_WORDS_RAW : list string :=
  [ "buy"; "buys"; "buying"; "bought";
    "accumulate"; "accumulating"; "accumulated";
    "add"; "adds"; "adding"; "added";
    "increase"; "increases"; "increasing"; "increased";
    "entry"; "enter"; "entering"; "entered";
    "long"; "upside"; "up"; "higher"; "high";
    "rise"; "rises"; "rising"; "rose";
    "gain"; "gains"; "gaining"; "gained";
    "climb"; "climbs"; "climbing"; "climbed";
    "jump"; "jumps"; "jumping"; "jumped";
    "pop"; "pops"; "popping"; "popped";
    "rally"; "rallies"; "rallying"; "rallied";
    "surge"; "surges"; "surging"; "surged";
    "soar"; "soars"; "soaring"; "soared";
    "recover"; "recovers"; "recovering"; "recovered";
    "rebound"; "rebounds"; "rebounding"; "rebounded";
    "bounce"; "bounces"; "bouncing"; "bounced";
    "uptick"; "upticks"; "green";
    "bullish"; "bull"; "bulls";
    "outperform"; "outperforms"; "outperforming"; "outperformed";
    "beat"; "beats"; "beating"; "hold"; "holdings";
    "sell"; "sells"; "selling"; "sold";
    "dump"; "dumps"; "dumping"; "dumped";
    "exit"; "exits"; "exiting"; "exited";
    "reduce"; "reduces"; "reducing"; "reduced";
    "trim"; "trims"; "trimming"; "trimmed";
    "cut"; "cuts"; "cutting";
    "short"; "shorts"; "shorting"; "shorted";
    "downside"; "down"; "lower"; "low";
    "fall"; "falls"; "falling"; "fell";
    "drop"; "drops"; "dropping"; "dropped";
    "decline"; "declines"; "declining"; "declined";
    "lose"; "loses"; "losing"; "lost";
    "slip"; "slips"; "slipping"; "slipped";
    "slide"; "slides"; "sliding"; "slid";
    "plunge"; "plunges"; "plunging"; "plunged";
    "crash"; "crashes"; "crashing"; "crashed";
    "tank"; "tanks"; "tanking"; "tanked";
    "selloff"; "sell-off"; "red";
    "bearish"; "bear"; "bears";
    "weaken"; "weakens"; "weakening"; "weakened";
    "underperform"; "underperforms"; "underperforming"; "underperformed";
    "miss"; "misses"; "missing"; "missed";
    "lose"; "loses"; "losing"; "lost" ].

(** [w.split("-")], without the empty pieces. *)
Fixpoint split_hyphen (cur : string) (w : string) : list string :=
  match w with
  | EmptyString => if truthy cur then [cur] else []
  | String c w' =>
      if Ascii.eqb c "-"
      then (if truthy cur then [cur] else []) ++ split_hyphen "" w'
      else split_hyphen (cur ++ String c "") w'
  end.

(** One alternative of the compiled pattern: the literal pieces of a word,
    two consecutive pieces being separated by [[-\s]?]. *)
Definition compile_word (w : string) : list string :=
  if contains "-" w then
    let parts := split_hyphen "" w in
    if Nat.leb 2 (List.length parts) then parts else [w]
  else [w].

(** [_compile_hints]: the alternatives of [(?i)\b(w1|w2|...)\b]. The
    source removes duplicated words and sorts the alternatives by
    decreasing length; neither changes whether the pattern is found. *)
Definition _compile_hints (words : list string) : list (list string) :=
  List.map compile_word
    (List.filter truthy (List.map (fun w => lower (strip w)) words)).

Definition _FINANCE_HINTS : list (list string) := _compile_hints _HINT_WORDS_RAW.

(** [\w] on the ASCII range. *)
Definition is_word_char (c : ascii) : bool :=
  (is_upper c || is_lower c || is_digit c || Ascii.eqb c "_")%bool.

Definition is_word (c : option ascii) : bool :=
  match c with Some c => is_word_char c | None => false end.

Definition head (s : string) : option ascii :=
  match s with EmptyString => None | String c _ => Some c end.

(** [\b] between the character before a position and the one after. *)
Definition boundary (prev next : option ascii) : bool :=
  xorb (is_word prev) (is_word next).

(** A literal, matched without regard to case; the result is the last
    character consumed and the rest of the text. *)
Fixpoint match_literal (w : string) (prev : option ascii) (s : string)
  : option (option ascii * string) :=
  match w with
  | EmptyString => Some (prev, s)
  | String a w' =>
      match s with
      | EmptyString => None
      | String c s' =>
          if Ascii.eqb (lower_char c) (lower_char a)
          then match_literal w' (Some c) s'
          else None
      end
  end.

Definition is_separator (c : ascii) : bool :=
  (Ascii.eqb c "-" || is_space c)%bool.

(** One alternative followed by the closing [\b]. *)
Fixpoint match_alternative (parts : list string) (prev : option ascii)
         (s : string) : bool :=
  match parts with
  | [] => boundary prev (head s)
  | p :: rest =>
      match match_literal p prev s with
      | None => false
      | Some (prev', s') =>
          match rest with
          | [] => boundary prev' (head s')
          | _ =>
              (match s' with
               | String c s'' =>
                   (is_separator c && match_alternative rest (Some c) s'')%bool
               | EmptyString => false
               end
               || match_alternative rest prev' s')%bool
          end
      end
  end.

(** [pattern.search(text)], as a truth value. *)
Fixpoint search (alts : list (list string)) (prev : option ascii)
         (s : string) : bool :=
  ((boundary prev (head s)
    && existsb (fun parts => match_alternative parts prev s) alts)
   || match s with
      | EmptyString => false
      | String c s' => search alts (Some c) s'
      end)%bool.

Definition has_finance_hint (text : string) : bool :=
  (truthy text && search _FINANCE_HINTS None text)%bool.

(** *** The validity check *)

(** [find_invalid_tickers]; [enabled] is [ENABLE_YFINANCE_VALIDATION] and
    [is_real_ticker_yf] the memoized oracle. The set [invalid] is the list
    of its members in the order they were added; [seen] is the set of the
    source. *)
Fixpoint find_invalid_loop (is_real_ticker_yf : string -> bool)
         (seen : list string) (tickers : list string) : list string :=
  match tickers with
  | [] => []
  | t :: rest =>
      let tt := normalize_ticker t in
      if (negb (truthy tt) || existsb (String.eqb tt) seen)%bool
      then find_invalid_loop is_real_ticker_yf seen rest
      else
        let invalid := find_invalid_loop is_real_ticker_yf (tt :: seen) rest in
        if negb (is_real_ticker_yf tt) then tt :: invalid else invalid
  end.

Definition find_invalid_tickers (enabled : bool)
           (is_real_ticker_yf : string -> bool) (tickers : list string)
  : list string :=
  if negb enabled then [] else find_invalid_loop is_real_ticker_yf [] tickers.

End Ticker.

(* ================================================================= *)
(** ** analyzer.py: the merge of one record's mentions *)

Module Analyzer.

(** [Sentiment = Literal["bullish", "bearish", "neutral"]]. *)
Inductive Sentiment : Type := bullish | bearish | neutral.

Definition sentiment_eqb (a b : Sentiment) : bool :=
  match a, b with
  | bullish, bullish | bearish, bearish | neutral, neutral => true
  | _, _ => false
  end.

(** [class Mention(BaseModel)]. *)
Record Mention : Type := { ticker : string; sentiment : Sentiment }.

(** [out: dict[str, str]]: a Python dict keeps its keys in insertion order,
    and an assignment to a key already present keeps the key's place. *)
Definition dict : Type := list (string * Sentiment).

Fixpoint dict_get (k : string) (d : dict) : option Sentiment :=
  match d with
  | [] => None
  | (k', v) :: d' => if String.eqb k' k then Some v else dict_get k d'
  end.

Fixpoint dict_set (k : string) (v : Sentiment) (d : dict) : dict :=
  match d with
  | [] => [(k, v)]
  | (k', v') :: d' =>
      if String.eqb k' k then (k', v) :: d' else (k', v') :: dict_set k v d'
  end.

(** The body of the loop [for m in parsed.mentions]. *)
Definition merge_step (out : dict) (m : Mention) : dict :=
  let t := Ticker.normalize_ticker (ticker m) in
  if negb (PyStr.truthy t) then out
  else
    let s := sentiment m in
    match dict_get t out with
    | Some s0 =>
        if negb (sentiment_eqb s0 s) then dict_set t neutral out
        else dict_set t s out
    | None => dict_set t s out
    end.

(** What [analyze_comment] returns when the service answers with
    [parsed.mentions = ms]: [list(out.items())]. *)
Definition merge_mentions (ms : list Mention) : list (string * Sentiment) :=
  fold_left merge_step ms [].

(** The text [analyze_comment] submits: [text[:2000]]. *)
Definition submitted_text (text : string) : string :=
  if Nat.ltb 2000 (String.length text) then PyStr.take 2000 text else text.

(** *** The merge, symbol by symbol *)

(** The sentiment a symbol is left with after one more occurrence. *)
Definition combine (cur : option Sentiment) (s : Sentiment) : Sentiment :=
  match cur with
  | Some s0 => if sentiment_eqb s0 s then s else neutral
  | None => s
  end.

Definition norm (m : Mention) : string := Ticker.normalize_ticker (ticker m).

(** The entry of a symbol [t], followed through the loop. *)
Definition resolve_step (t : string) (cur : option Sentiment) (m : Mention)
  : option Sentiment :=
  if (String.eqb (norm m) t && PyStr.truthy t)%bool
  then Some (combine cur (sentiment m)) else cur.

Definition resolve (t : string) (cur : option Sentiment) (ms : list Mention)
  : option Sentiment :=
  fold_left (resolve_step t) ms cur.

End Analyzer.

(* ================================================================= *)
(** ** Sorting, as [sorted] and [ORDER BY] do it *)

Module Sort.
Section Insertion.
Context {A : Type} (leb : A -> A -> bool).

Fixpoint insert (x : A) (l : list A) : list A :=
  match l with
  | [] => [x]
  | y :: l' => if leb x y then x :: l else y :: insert x l'
  end.

(** A stable sort: rows that compare equal keep their order. *)
Definition sort (l : list A) : list A := fold_right insert [] l.
End Insertion.
End Sort.

(* ================================================================= *)
(** ** db.py: the persisted state *)

Module Db.
Import Analyzer.

(** A row of [comments]. *)
Record Comment : Type := {
  comment_id : string;
  subreddit : string;
  submission_id : string;
  submission_title : string;
  author : option string;
  created_utc : Z;
  score : Z;
  body : string;
  scraped_at : Z
}.

(** The values the code writes to [comment_analysis.status]. *)
Inductive Status : Type := ok | skipped | error.

Definition status_eqb (a b : Status) : bool :=
  match a, b with
  | ok, ok | skipped, skipped | error, error => true
  | _, _ => false
  end.

(** A row of [comment_analysis]; primary key [(analysis_tag, comment_id)]. *)
Record AnalysisRow : Type := {
  a_tag : string;
  a_comment_id : string;
  a_model : string;
  a_analyzed_at : Z;
  a_status : Status;
  a_error : option string
}.

(** A row of [mentions]; primary key [(analysis_tag, comment_id, ticker)]. *)
Record MentionRow : Type := {
  m_tag : string;
  m_comment_id : string;
  m_ticker : string;
  m_sentiment : Sentiment;
  m_model : string;
  m_analyzed_at : Z
}.

Record Tables : Type := {
  comments : list Comment;
  comment_analysis : list AnalysisRow;
  mentions : list MentionRow
}.

Definition init_db : Tables :=
  {| comments := []; comment_analysis := []; mentions := [] |}.

Definition set_comments (cs : list Comment) (tb : Tables) : Tables :=
  {| comments := cs; comment_analysis := comment_analysis tb;
     mentions := mentions tb |}.

Definition set_analysis (rows : list AnalysisRow) (tb : Tables) : Tables :=
  {| comments := comments tb; comment_analysis := rows;
     mentions := mentions tb |}.

Definition set_mentions (rows : list MentionRow) (tb : Tables) : Tables :=
  {| comments := comments tb; comment_analysis := comment_analysis tb;
     mentions := rows |}.

(** *** Keys *)

Definition analysis_key (tag cid : string) (r : AnalysisRow) : bool :=
  (String.eqb (a_tag r) tag && String.eqb (a_comment_id r) cid)%bool.

Definition mention_key (tag cid sym : string) (r : MentionRow) : bool :=
  (String.eqb (m_tag r) tag && String.eqb (m_comment_id r) cid
   && String.eqb (m_ticker r) sym)%bool.

(** *** Statements *)

(** [INSERT OR IGNORE INTO comments]: a row whose key is present is
    dropped. *)
Definition insert_or_ignore_comment (c : Comment) (t : list Comment)
  : list Comment :=
  if existsb (fun x => String.eqb (comment_id x) (comment_id c)) t
  then t else t ++ [c].

(** [INSERT OR REPLACE INTO comment_analysis]: the rows in conflict with
    the new one on the primary key are deleted, then the row is inserted. *)
Definition insert_or_replace_analysis (r : AnalysisRow)
           (t : list AnalysisRow) : list AnalysisRow :=
  filter (fun x => negb (analysis_key (a_tag r) (a_comment_id r) x)) t ++ [r].

(** [INSERT OR REPLACE INTO mentions]. *)
Definition insert_or_replace_mention (r : MentionRow)
           (t : list MentionRow) : list MentionRow :=
  filter (fun x => negb (mention_key (m_tag r) (m_comment_id r) (m_ticker r) x)) t
  ++ [r].

(** *** Writers; [now] is [int(time.time())] *)

Definition save_comment (c : Comment) (tb : Tables) : Tables :=
  set_comments (insert_or_ignore_comment c (comments tb)) tb.

Definition save_comments_bulk (rows : list Comment) (tb : Tables) : Tables :=
  fold_left (fun tb c => save_comment c tb) rows tb.

Definition mark_analyzed_ok (analysis_tag comment_id model : string)
           (now : Z) (tb : Tables) : Tables :=
  set_analysis
    (insert_or_replace_analysis
       {| a_tag := analysis_tag; a_comment_id := comment_id;
          a_model := model; a_analyzed_at := now; a_status := ok;
          a_error := None |}
       (comment_analysis tb)) tb.

Definition mark_analyzed_skipped (analysis_tag comment_id model : string)
           (now : Z) (tb : Tables) : Tables :=
  set_analysis
    (insert_or_replace_analysis
       {| a_tag := analysis_tag; a_comment_id := comment_id;
          a_model := model; a_analyzed_at := now; a_status := skipped;
          a_error := None |}
       (comment_analysis tb)) tb.

Definition mark_analyzed_error (analysis_tag comment_id model : string)
           (err : string) (now : Z) (tb : Tables) : Tables :=
  set_analysis
    (insert_or_replace_analysis
       {| a_tag := analysis_tag; a_comment_id := comment_id;
          a_model := model; a_analyzed_at := now; a_status := error;
          a_error := Some (PyStr.take 2000 err) |}
       (comment_analysis tb)) tb.

(** The tuple [(analysis_tag, comment_id, t, s, model, now)]. *)
Definition mention_row (analysis_tag comment_id model : string) (now : Z)
           (ts : string * Sentiment) : MentionRow :=
  {| m_tag := analysis_tag; m_comment_id := comment_id;
     m_ticker := fst ts; m_sentiment := snd ts;
     m_model := model; m_analyzed_at := now |}.

(** One execution of the statement of [save_mentions]. *)
Definition write_mention (analysis_tag comment_id model : string) (now : Z)
           (t : list MentionRow) (ts : string * Sentiment) : list MentionRow :=
  insert_or_replace_mention (mention_row analysis_tag comment_id model now ts) t.

(** [executemany] runs the statement once per row, in order. *)
Definition save_mentions (analysis_tag comment_id model : string)
           (sentiment_rows : list (string * Sentiment)) (now : Z)
           (tb : Tables) : Tables :=
  set_mentions
    (fold_left (write_mention analysis_tag comment_id model now)
               sentiment_rows (mentions tb)) tb.

(** *** The candidate selector *)

(** [comments c LEFT JOIN comment_analysis a ON a.comment_id = c.comment_id
    AND a.analysis_tag = ?]: a comment with no matching row appears once,
    with [a] null. *)
Definition left_join (analysis_tag : string) (tb : Tables)
  : list (Comment * option AnalysisRow) :=
  flat_map
    (fun c =>
       match filter (analysis_key analysis_tag (comment_id c))
                    (comment_analysis tb) with
       | [] => [(c, None)]
       | rows => map (fun a => (c, Some a)) rows
       end)
    (comments tb).

Definition has_status (st : Status) (a : option AnalysisRow) : bool :=
  match a with
  | Some r => status_eqb (a_status r) st
  | None => false
  end.

Definition is_null (a : option AnalysisRow) : bool :=
  match a with Some _ => false | None => true end.

(** [AND c.subreddit IN (...)], present when [subreddits] is not empty. *)
Definition subreddit_filter (subreddits : option (list string)) (c : Comment)
  : bool :=
  match subreddits with
  | None | Some [] => true
  | Some subs => existsb (String.eqb (subreddit c)) subs
  end.

(** The [WHERE] clause of both queries. *)
Definition where_clause (retry_errors include_skipped : bool)
           (subreddits : option (list string))
           (row : Comment * option AnalysisRow) : bool :=
  let (c, a) := row in
  let skipped_clause := (include_skipped && has_status skipped a)%bool in
  let status_clause :=
    if retry_errors
    then (is_null a || has_status error a || skipped_clause)%bool
    else (is_null a || skipped_clause)%bool in
  (status_clause && subreddit_filter subreddits c)%bool.

(** [ORDER BY c.created_utc DESC]. *)
Definition created_desc (x y : Comment * option AnalysisRow) : bool :=
  Z.leb (created_utc (fst y)) (created_utc (fst x)).

(** [LIMIT ?]: SQLite reads a negative limit as no limit. *)
Definition sql_limit {A : Type} (limit : Z) (rows : list A) : list A :=
  if Z.ltb limit 0 then rows else firstn (Z.to_nat limit) rows.

(** The rows selected, before the projection on [(comment_id, body)]. *)
Definition candidate_rows (tb : Tables) (analysis_tag : string) (limit : Z)
           (retry_errors : bool) (subreddits : option (list string))
           (include_skipped : bool) : list Comment :=
  map fst
    (sql_limit limit
       (Sort.sort created_desc
          (filter (where_clause retry_errors include_skipped subreddits)
                  (left_join analysis_tag tb)))).

Definition fetch_candidates (tb : Tables) (analysis_tag : string)
           (limit : Z) (retry_errors : bool)
           (subreddits : option (list string)) (include_skipped : bool)
  : list (string * string) :=
  map (fun c => (comment_id c, body c))
      (candidate_rows tb analysis_tag limit retry_errors subreddits
                      include_skipped).

(** *** The validator's statements *)

Fixpoint dedup (seen : list string) (l : list string) : list string :=
  match l with
  | [] => []
  | x :: l' =>
      if existsb (String.eqb x) seen then dedup seen l'
      else x :: dedup (x :: seen) l'
  end.

(** [SELECT DISTINCT ticker FROM mentions WHERE analysis_tag = ?], and the
    comprehension that drops the empty values. *)
Definition fetch_distinct_mentioned_tickers (tb : Tables)
           (analysis_tag : string) : list string :=
  filter PyStr.truthy
    (dedup []
       (map m_ticker
          (filter (fun r => String.eqb (m_tag r) analysis_tag) (mentions tb)))).

Definition chunk_size : nat := 900.

(** [range(0, n, step)]. *)
Definition range_step (n step : nat) : list nat :=
  map (fun k => k * step) (seq 0 ((n + step - 1) / step)).

(** The chunks [ticker_list[i:i + chunk_size]] the loop goes through. *)
Definition chunks (ticker_list : list string) : list (list string) :=
  map (fun i => firstn chunk_size (skipn i ticker_list))
      (range_step (List.length ticker_list) chunk_size).

(** [DELETE FROM mentions WHERE analysis_tag = ? AND ticker IN (chunk)]:
    the rows that remain, and [cur.rowcount]. *)
Definition delete_matches (analysis_tag : string) (chunk : list string)
           (r : MentionRow) : bool :=
  (String.eqb (m_tag r) analysis_tag
   && existsb (String.eqb (m_ticker r)) chunk)%bool.

Definition delete_statement (analysis_tag : string) (chunk : list string)
           (t : list MentionRow) : list MentionRow * nat :=
  (filter (fun r => negb (delete_matches analysis_tag chunk r)) t,
   List.length (filter (delete_matches analysis_tag chunk) t)).

(** One turn of the loop: the statement, and [deleted += cur.rowcount]. *)
Definition delete_step (analysis_tag : string) (acc : list MentionRow * nat)
           (chunk : list string) : list MentionRow * nat :=
  let '(rows, rowcount) := delete_statement analysis_tag chunk (fst acc) in
  (rows, snd acc + rowcount).

(** [delete_mentions_for_tickers]; the second component is [deleted]. *)
Definition delete_mentions_for_tickers (analysis_tag : string)
           (tickers : list string) (tb : Tables) : Tables * nat :=
  let ticker_list := filter PyStr.truthy (dedup [] tickers) in
  match ticker_list with
  | [] => (tb, 0)
  | _ =>
      let '(rows, deleted) :=
        fold_left (delete_step analysis_tag) (chunks ticker_list)
                  (mentions tb, 0) in
      (set_mentions rows tb, deleted)
  end.

(** *** Reading the tables by key *)

(** The primary keys, as constraints on the rows. *)
Definition pk_comments (t : list Comment) : Prop :=
  NoDup (map comment_id t).

Definition pk_analysis (t : list AnalysisRow) : Prop :=
  NoDup (map (fun r => (a_tag r, a_comment_id r)) t).

Definition pk_mentions (t : list MentionRow) : Prop :=
  NoDup (map (fun r => (m_tag r, m_comment_id r, m_ticker r)) t).

(** The status recorded for a record under a tag, if any. *)
Definition status_row (tb : Tables) (tag cid : string) : option AnalysisRow :=
  find (analysis_key tag cid) (comment_analysis tb).

Definition status_of (tb : Tables) (tag cid : string) : option Status :=
  option_map a_status (status_row tb tag cid).

Definition analysis_rows_of (tag cid : string) (t : list AnalysisRow)
  : list AnalysisRow :=
  filter (analysis_key tag cid) t.

Definition mention_rows_of (tag cid sym : string) (t : list MentionRow)
  : list MentionRow :=
  filter (mention_key tag cid sym) t.

(** The rows of one record under a tag whose symbol is among [syms]. *)
Definition mention_among (tag cid : string) (syms : list string)
           (r : MentionRow) : bool :=
  (String.eqb (m_tag r) tag && String.eqb (m_comment_id r) cid
   && existsb (String.eqb (m_ticker r)) syms)%bool.

(** The three status writers, as one operation. *)
Inductive StatusWrite : Type :=
| MarkOk | MarkSkipped | MarkError (err : string).

Definition mark (w : StatusWrite) (analysis_tag comment_id model : string)
           (now : Z) (tb : Tables) : Tables :=
  match w with
  | MarkOk => mark_analyzed_ok analysis_tag comment_id model now tb
  | MarkSkipped => mark_analyzed_skipped analysis_tag comment_id model now tb
  | MarkError err =>
      mark_analyzed_error analysis_tag comment_id model err now tb
  end.

Definition written_status (w : StatusWrite) : Status :=
  match w with
  | MarkOk => ok
  | MarkSkipped => skipped
  | MarkError _ => error
  end.

(** What the scheduler writes for a record it analyzed: its mentions, then
    its status. *)
Definition persist_analysis (analysis_tag comment_id model : string)
           (rows : list (string * Sentiment)) (now : Z) (tb : Tables) : Tables :=
  mark_analyzed_ok analysis_tag comment_id model now
    (save_mentions analysis_tag comment_id model rows now tb).

End Db.

(* ================================================================= *)
(** ** pipeline.py: the scheduler *)

Module Pipeline.
Import Analyzer Db.

(** *** Failures of the extraction call *)

(** The classes of [openai] the handlers test for; [APITimeoutError] is a
    subclass of [APIConnectionError]. Any other [Exception] is
    [OtherException]. *)
Inductive ExnClass : Type :=
| AuthenticationError | PermissionDeniedError | RateLimitError
| APITimeoutError | APIConnectionError | InternalServerError
| OtherException.

Record Exn : Type := {
  exn_class : ExnClass;
  exn_name : string;   (* type(e).__name__ *)
  exn_str : string     (* str(e) *)
}.

Definition _is_quota_exhausted (err : Exn) : bool :=
  let msg := PyStr.lower (exn_str err) in
  (PyStr.contains "insufficient_quota" msg
   || (PyStr.contains "quota" msg
       && (PyStr.contains "exceed" msg || PyStr.contains "exceeded" msg)))%bool.

Definition _is_retryable (err : Exn) : bool :=
  match exn_class err with
  | RateLimitError | APITimeoutError | APIConnectionError
  | InternalServerError => true
  | _ => false
  end.

Definition _is_fatal_auth (err : Exn) : bool :=
  match exn_class err with
  | AuthenticationError | PermissionDeniedError => true
  | _ => false
  end.

(** [isinstance(e, openai.RateLimitError)]. *)
Definition is_rate_limit_error (err : Exn) : bool :=
  match exn_class err with RateLimitError => true | _ => false end.

(** The four outcomes of the handler [except Exception as e], in the order
    of its tests. *)
Inductive ErrorClass : Type :=
| FatalAuth | QuotaExhausted | Transient | PermanentItemError.

Definition classify (e : Exn) : ErrorClass :=
  if _is_fatal_auth e then FatalAuth
  else if (is_rate_limit_error e && _is_quota_exhausted e)%bool
       then QuotaExhausted
  else if _is_retryable e then Transient
  else PermanentItemError.

(** [f"{type(e).__name__}: {e}"]. *)
Definition error_detail (e : Exn) : string :=
  exn_name e ++ ": " ++ exn_str e.

(** The conversion of an integer to a float, [float(n)] or the one inside
    [x + n] and [x * n] for a float [x], raises [OverflowError] when [n]
    rounds to no finite double: from [2^1024 - 2^970] on in absolute
    value. *)
Definition float_overflows (n : Z) : bool :=
  Z.leb (2 ^ 1024 - 2 ^ 970) (Z.abs n).

(** [min(1.0 * (2 ** attempt), 20.0)]: the power is an integer, and the
    product converts it; from [attempt = 1024] on the conversion raises,
    and [None] stands for that. *)
Definition _backoff_seconds (attempt : nat) : option Q :=
  if float_overflows (2 ^ Z.of_nat attempt) then None
  else Some (Qmin (1 * inject_Z (2 ^ Z.of_nat attempt)) 20).

(** The exception of such a conversion. *)
Definition overflow_error : Exn :=
  {| exn_class := OtherException; exn_name := "OverflowError";
     exn_str := "int too large to convert to float" |}.

(** *** The run *)

Record AnalyzeOutcome : Type := {
  analyzed : nat;
  errors : nat;
  analyzed_model_calls : nat;
  stopped_reason : option string
}.

Record Config : Type := {
  analysis_tag : string;
  model : string;
  limit : Z;
  retry_errors : bool;
  max_requests_per_minute : Z;
  subreddits : option (list string);
  timeout_seconds : option Z
}.

(** What one call of [analyze_comment] meets at the service. *)
Inductive Response : Type :=
| Parsed (ms : list Mention)   (* resp.output_parsed.mentions *)
| Raises (e : Exn)             (* an Exception *)
| Interrupted.                 (* KeyboardInterrupt *)

(** What a look-up of a secret gives. *)
Inductive Secret : Type :=
| Secret_value (v : option string)
| Secret_raises (e : Exn).

(** The surroundings of a run. *)
Record Env : Type := {
  (** the n-th poll of [_should_abort] *)
  should_abort : nat -> bool;
  (** the n-th call of the service on a text: its answer and how long it
      takes *)
  service : nat -> string -> Response * Q;
  is_real_ticker_yf : string -> bool;
  ENABLE_KEYWORD_SHORTCUT : bool;
  ENABLE_YFINANCE_VALIDATION : bool;
  (** [os.getenv("OPENAI_API_KEY")] *)
  getenv_api_key : option string;
  (** [keyring.get_password(SERVICE, "OPENAI_API_KEY")]: the entry, or the
      exception the backend raises *)
  keyring_api_key : Secret;
  (** [time.time() - time.monotonic()] *)
  epoch : Z
}.

(** What the run does to the store and to the clock, most recent first. *)
Inductive Event : Type :=
| EvSleep (seconds : Q)
| EvCall (comment_id : string)
| EvOk (comment_id : string)
| EvError (comment_id : string)
| EvDelete (chunks : list (list string))
| EvCommit.

(** The state of a run: the connection (the tables as the run sees them
    and as last committed), the outcome so far, the clock, the pacer, and
    how much of the environment was consumed. *)
Record Run : Type := {
  work : Tables;
  durable : Tables;
  outcome : AnalyzeOutcome;
  clock : Q;
  next_call_at : Q;
  polls : nat;
  calls : nat;
  trace : list Event
}.

Definition with_work (tb : Tables) (ev : Event) (st : Run) : Run :=
  {| work := tb; durable := durable st; outcome := outcome st;
     clock := clock st; next_call_at := next_call_at st;
     polls := polls st; calls := calls st; trace := ev :: trace st |}.

Definition with_outcome (o : AnalyzeOutcome) (st : Run) : Run :=
  {| work := work st; durable := durable st; outcome := o;
     clock := clock st; next_call_at := next_call_at st;
     polls := polls st; calls := calls st; trace := trace st |}.

Definition with_next_call_at (t : Q) (st : Run) : Run :=
  {| work := work st; durable := durable st; outcome := outcome st;
     clock := clock st; next_call_at := t;
     polls := polls st; calls := calls st; trace := trace st |}.

(** [conn.commit()]. *)
Definition commit (st : Run) : Run :=
  {| work := work st; durable := work st; outcome := outcome st;
     clock := clock st; next_call_at := next_call_at st;
     polls := polls st; calls := calls st; trace := EvCommit :: trace st |}.

(** [time.sleep(seconds)]. *)
Definition sleep (seconds : Q) (st : Run) : Run :=
  {| work := work st; durable := durable st; outcome := outcome st;
     clock := (clock st + seconds)%Q; next_call_at := next_call_at st;
     polls := polls st; calls := calls st;
     trace := EvSleep seconds :: trace st |}.

(** [_should_abort()]. *)
Definition poll (env : Env) (st : Run) : bool * Run :=
  (should_abort env (polls st),
   {| work := work st; durable := durable st; outcome := outcome st;
      clock := clock st; next_call_at := next_call_at st;
      polls := S (polls st); calls := calls st; trace := trace st |}).

(** [analyze_comment(client, model=model, text=text)]: the answer of the
    service, after the time the call takes. *)
Definition call_service (env : Env) (comment_id text : string) (st : Run)
  : Response * Run :=
  let '(r, seconds) := service env (calls st) (submitted_text text) in
  (r,
   {| work := work st; durable := durable st; outcome := outcome st;
      clock := (clock st + seconds)%Q; next_call_at := next_call_at st;
      polls := polls st; calls := S (calls st);
      trace := EvCall comment_id :: trace st |}).

(** [int(time.time())]. *)
Definition wall_clock (env : Env) (st : Run) : Z :=
  (epoch env + Qfloor (clock st))%Z.

Definition set_reason (r : string) (st : Run) : Run :=
  with_outcome
    {| analyzed := analyzed (outcome st); errors := errors (outcome st);
       analyzed_model_calls := analyzed_model_calls (outcome st);
       stopped_reason := Some r |} st.

Definition count_analyzed (st : Run) : Run :=
  with_outcome
    {| analyzed := S (analyzed (outcome st)); errors := errors (outcome st);
       analyzed_model_calls := analyzed_model_calls (outcome st);
       stopped_reason := stopped_reason (outcome st) |} st.

Definition count_error (st : Run) : Run :=
  with_outcome
    {| analyzed := analyzed (outcome st); errors := S (errors (outcome st));
       analyzed_model_calls := analyzed_model_calls (outcome st);
       stopped_reason := stopped_reason (outcome st) |} st.

Definition count_model_call (st : Run) : Run :=
  with_outcome
    {| analyzed := analyzed (outcome st); errors := errors (outcome st);
       analyzed_model_calls := S (analyzed_model_calls (outcome st));
       stopped_reason := stopped_reason (outcome st) |} st.

Definition Qltb (a b : Q) : bool := negb (Qle_bool b a).

Definition _sleep_with_deadline (seconds : Q) (deadline : option Q)
           (st : Run) : Run :=
  if Qle_bool seconds 0 then st
  else
    match deadline with
    | None => sleep seconds st
    | Some d =>
        let remaining := (d - clock st)%Q in
        if Qle_bool remaining 0 then st
        else sleep (Qmin seconds remaining) st
    end.

(** [interval], computed once per run. The source computes it, and the
    instants below, in floats; here they are exact rationals, and what is
    stated of them below does not depend on the rounding. *)
Definition pace_interval (max_requests_per_minute : Z) : Q :=
  if Z.ltb 0 max_requests_per_minute
  then (60 / inject_Z max_requests_per_minute)%Q else 0%Q.

(** The closure [_pace]. *)
Definition _pace (interval : Q) (deadline : option Q) (st : Run) : Run :=
  if Qle_bool interval 0 then st
  else
    let now := clock st in
    let st :=
      if Qltb now (next_call_at st)
      then _sleep_with_deadline (next_call_at st - now)%Q deadline st
      else st in
    with_next_call_at (clock st + interval)%Q st.

Definition mark_ok (env : Env) (cfg : Config) (comment_id : string)
           (st : Run) : Run :=
  with_work
    (mark_analyzed_ok (analysis_tag cfg) comment_id (model cfg)
                      (wall_clock env st) (work st))
    (EvOk comment_id) st.

Definition mark_error (env : Env) (cfg : Config) (comment_id : string)
           (e : Exn) (st : Run) : Run :=
  with_work
    (mark_analyzed_error (analysis_tag cfg) comment_id (model cfg)
                         (error_detail e) (wall_clock env st) (work st))
    (EvError comment_id) st.

Definition store_mentions (env : Env) (cfg : Config) (comment_id : string)
           (rows : list (string * Sentiment)) (st : Run) : Run :=
  {| work := save_mentions (analysis_tag cfg) comment_id (model cfg) rows
                           (wall_clock env st) (work st);
     durable := durable st; outcome := outcome st; clock := clock st;
     next_call_at := next_call_at st; polls := polls st; calls := calls st;
     trace := trace st |}.

Definition _cleanup_invalid_tickers (env : Env) (analysis_tag : string)
           (st : Run) : Run :=
  if negb (ENABLE_YFINANCE_VALIDATION env) then st
  else
    match fetch_distinct_mentioned_tickers (work st) analysis_tag with
    | [] => st
    | tickers =>
        match Ticker.find_invalid_tickers (ENABLE_YFINANCE_VALIDATION env)
                                          (is_real_ticker_yf env) tickers with
        | [] => st
        | invalid =>
            let sorted := Sort.sort String.leb invalid in
            let '(tb, _) :=
              delete_mentions_for_tickers analysis_tag sorted (work st) in
            commit
              (with_work tb
                 (EvDelete (chunks (filter PyStr.truthy (dedup [] sorted))))
                 st)
        end
    end.

(** How a call of [analyze] ends: it returns the outcome, or an exception
    leaves it; [OutOfFuel] stands for a retry loop longer than the fuel. *)
Inductive Result : Type :=
| Returned (st : Run)
| Propagated (e : Exn) (st : Run)
| OutOfFuel.

Inductive ItemResult : Type :=
| Next (st : Run)
| Stop (r : Result).

(** The three ways the run stops early and returns. *)
Definition stop_timeout (env : Env) (cfg : Config) (st : Run) : Result :=
  Returned
    (_cleanup_invalid_tickers env (analysis_tag cfg)
       (commit (set_reason "timeout" st))).

Definition stop_ctrl_c (env : Env) (cfg : Config) (st : Run) : Result :=
  Returned
    (_cleanup_invalid_tickers env (analysis_tag cfg)
       (set_reason "ctrl_c" (commit st))).

Definition stop_quota (env : Env) (cfg : Config) (comment_id : string)
           (e : Exn) (st : Run) : Result :=
  Returned
    (_cleanup_invalid_tickers env (analysis_tag cfg)
       (set_reason "quota" (commit (mark_error env cfg comment_id e st)))).

Definition deadline_passed (deadline : option Q) (st : Run) : bool :=
  match deadline with
  | Some d => Qle_bool d (clock st)
  | None => false
  end.

Section Loop.
Variables (env : Env) (cfg : Config) (deadline : option Q) (interval : Q).

(** The loop [while True] for one candidate with text [text]. *)
Fixpoint attempts (fuel : nat) (comment_id text : string) (attempt : nat)
         (st : Run) : ItemResult :=
  match fuel with
  | O => Stop OutOfFuel
  | S fuel' =>
      let '(abort, st) := poll env st in
      if abort then Stop (stop_ctrl_c env cfg st)
      else if deadline_passed deadline st then Stop (stop_timeout env cfg st)
      else
        let st := _pace interval deadline st in
        let '(r, st) := call_service env comment_id text st in
        match r with
        | Parsed ms =>
            let rows := merge_mentions ms in
            let st := count_model_call st in
            let st := store_mentions env cfg comment_id rows st in
            let st := mark_ok env cfg comment_id st in
            let st := count_analyzed st in
            let st :=
              if Nat.eqb (analyzed (outcome st) mod 10) 0
              then commit st else st in
            Next st
        | Interrupted => Stop (stop_ctrl_c env cfg st)
        | Raises e =>
            match classify e with
            | FatalAuth => Stop (Propagated e (commit st))
            | QuotaExhausted => Stop (stop_quota env cfg comment_id e st)
            | Transient =>
                match _backoff_seconds attempt with
                | Some wait_s =>
                    let st := _sleep_with_deadline wait_s deadline st in
                    attempts fuel' comment_id text (S attempt) st
                | None =>
                    (* raised inside the handler: it leaves [analyze], and
                       nothing is committed on its way *)
                    Stop (Propagated overflow_error st)
                end
            | PermanentItemError =>
                let st := mark_error env cfg comment_id e st in
                let st := count_error st in
                Next (commit st)
            end
        end
  end.

(** The body of [for idx, (comment_id, body) in enumerate(candidates)]. *)
Definition item (fuel : nat) (candidate : string * string) (st : Run)
  : ItemResult :=
  let '(comment_id, body) := candidate in
  let '(abort, st) := poll env st in
  if abort then Stop (stop_ctrl_c env cfg st)
  else if deadline_passed deadline st then Stop (stop_timeout env cfg st)
  else
    let text := PyStr.strip body in
    if negb (PyStr.truthy text) then Next st
    else if (ENABLE_KEYWORD_SHORTCUT env
             && negb (Ticker.has_finance_hint text))%bool
    then
      let st := mark_ok env cfg comment_id st in
      let st := count_analyzed st in
      let st :=
        if Nat.eqb (analyzed (outcome st) mod 50) 0
        then commit st else st in
      Next st
    else attempts fuel comment_id text 0 st.

(** The loop over the candidates and what follows it. *)
Fixpoint items (fuel : nat) (candidates : list (string * string))
         (st : Run) : Result :=
  match candidates with
  | [] =>
      Returned (_cleanup_invalid_tickers env (analysis_tag cfg) (commit st))
  | c :: rest =>
      match item fuel c st with
      | Next st' => items fuel rest st'
      | Stop r => r
      end
  end.
End Loop.

Definition runtime_error (msg : string) : Exn :=
  {| exn_class := OtherException; exn_name := "RuntimeError";
     exn_str := msg |}.

(** The state at the entry of [analyze]: the connection as it is handed
    over, the clock at [now]. *)
Definition start (tb committed : Tables) (now : Q) : Run :=
  {| work := tb; durable := committed;
     outcome := {| analyzed := 0; errors := 0; analyzed_model_calls := 0;
                   stopped_reason := None |};
     clock := now; next_call_at := now; polls := 0; calls := 0;
     trace := [] |}.

(** [credentials.get_secret("OPENAI_API_KEY")]. *)
Definition get_secret (env : Env) : Secret :=
  match getenv_api_key env with
  | Some v =>
      if PyStr.truthy v then Secret_value (Some v) else keyring_api_key env
  | None => keyring_api_key env
  end.

(** [deadline = _now() + timeout_seconds if timeout_seconds else None]: the
    sum converts the integer to a float. *)
Definition run_deadline (cfg : Config) (now : Q) : option Q :=
  match timeout_seconds cfg with
  | Some t => if Z.eqb t 0 then None else Some (now + inject_Z t)%Q
  | None => None
  end.

Definition deadline_overflows (cfg : Config) : bool :=
  match timeout_seconds cfg with
  | Some t => negb (Z.eqb t 0) && float_overflows t
  | None => false
  end.

(** [float(max_requests_per_minute)], evaluated when the rate is positive. *)
Definition interval_overflows (cfg : Config) : bool :=
  Z.ltb 0 (max_requests_per_minute cfg)
  && float_overflows (max_requests_per_minute cfg).

(** [analyze]; [fuel] bounds the attempts spent on one candidate: 1025 are
    enough, since the 1025th failure in a row ends the run. *)
Definition analyze (env : Env) (cfg : Config) (fuel : nat)
           (tb committed : Tables) (now : Q) : Result :=
  let st := start tb committed now in
  if deadline_overflows cfg then Propagated overflow_error st
  else
    let deadline := run_deadline cfg now in
    match get_secret env with
    | Secret_raises e => Propagated e st
    | Secret_value None | Secret_value (Some EmptyString) =>
        Propagated
          (runtime_error "Missing OpenAI API key. Use Setup to enter it.") st
    | Secret_value (Some _) =>
        let candidates :=
          fetch_candidates (work st) (analysis_tag cfg) (limit cfg)
                           (retry_errors cfg) (subreddits cfg) false in
        if interval_overflows cfg then Propagated overflow_error st
        else
          let interval := pace_interval (max_requests_per_minute cfg) in
          items env cfg deadline interval fuel candidates st
    end.

(** *** Readings of a run *)

(** The records marked "ok" since the last commit. *)
Fixpoint pending_ok (tr : list Event) : nat :=
  match tr with
  | [] => 0
  | EvCommit :: _ => 0
  | EvOk _ :: tr' => S (pending_ok tr')
  | _ :: tr' => pending_ok tr'
  end.

(** The most records that were ever marked "ok" and not yet committed. *)
Fixpoint max_pending_ok (tr : list Event) : nat :=
  match tr with
  | [] => 0
  | _ :: tr' => Nat.max (pending_ok tr) (max_pending_ok tr')
  end.

(** The state of the commits in the course of a run, for a bound [K]: the
    records pending are fewer than the analyzed count modulo [K], and were
    never more than [K]. *)
Definition ledger (K : nat) (st : Run) : Prop :=
  pending_ok (trace st) <= analyzed (outcome st) mod K /\
  max_pending_ok (trace st) <= K.

(** The state of the commits when a run ends. *)
Definition settled (K : nat) (r : Result) : Prop :=
  match r with
  | Returned st => durable st = work st /\ max_pending_ok (trace st) <= K
  | Propagated e st =>
      (_is_fatal_auth e = true -> durable st = work st) /\
      max_pending_ok (trace st) <= K
  | OutOfFuel => True
  end.

Definition item_invariant (K : nat) (r : ItemResult) : Prop :=
  match r with
  | Next st => ledger K st
  | Stop r => settled K r
  end.



End Pipeline.

(* ================================================================= *)
(** ** Sample stores and surroundings *)

Module Demo.
Import Analyzer Db Pipeline.

Definition comment (id text : string) (created : Z) : Comment :=
  {| comment_id := id; subreddit := "stocks"; submission_id := "s1";
     submission_title := "Daily thread"; author := None;
     created_utc := created; score := 1; body := text; scraped_at := 0 |}.

Definition status (id : string) (st : Status) : AnalysisRow :=
  {| a_tag := "default"; a_comment_id := id; a_model := "gpt-5-nano";
     a_analyzed_at := 0; a_status := st; a_error := None |}.

(** A service that finds nothing, a keyboard that is not touched. *)
Definition quiet_env : Env :=
  {| should_abort := fun _ => false;
     service := fun _ _ => (Parsed [], 0%Q);
     is_real_ticker_yf := fun _ => true;
     ENABLE_KEYWORD_SHORTCUT := false;
     ENABLE_YFINANCE_VALIDATION := false;
     getenv_api_key := Some "sk-test";
     keyring_api_key := Secret_value None;
     epoch := 0 |}.

(** The same, with the keyword shortcut on. *)
Definition shortcut_env : Env :=
  {| should_abort := fun _ => false;
     service := fun _ _ => (Parsed [], 0%Q);
     is_real_ticker_yf := fun _ => true;
     ENABLE_KEYWORD_SHORTCUT := true;
     ENABLE_YFINANCE_VALIDATION := false;
     getenv_api_key := Some "sk-test";
     keyring_api_key := Secret_value None;
     epoch := 0 |}.

Definition quota_error : Exn :=
  {| exn_class := RateLimitError; exn_name := "RateLimitError";
     exn_str := "You exceeded your current quota, please check your plan" |}.

(** A service whose quota is exhausted. *)
Definition quota_env : Env :=
  {| should_abort := fun _ => false;
     service := fun _ _ => (Raises quota_error, 0%Q);
     is_real_ticker_yf := fun _ => true;
     ENABLE_KEYWORD_SHORTCUT := false;
     ENABLE_YFINANCE_VALIDATION := false;
     getenv_api_key := Some "sk-test";
     keyring_api_key := Secret_value None;
     epoch := 0 |}.

Definition cfg : Config :=
  {| analysis_tag := "default"; model := "gpt-5-nano"; limit := 5000;
     retry_errors := false; max_requests_per_minute := 0;
     subreddits := None; timeout_seconds := None |}.

(** One record, whose body is blank. *)
Definition blank_store : Tables :=
  {| comments := [comment "c1" "   " 100];
     comment_analysis := []; mentions := [] |}.

(** Eleven records with no finance term in them. *)
Definition chatter_store : Tables :=
  {| comments :=
       map (fun id => comment id "hello there" 100)
           ["c01"; "c02"; "c03"; "c04"; "c05"; "c06"; "c07"; "c08"; "c09";
            "c10"; "c11"];
     comment_analysis := []; mentions := [] |}.

(** Three records: one analyzed, one in error, one never attempted. *)
Definition mixed_store : Tables :=
  {| comments := [comment "c1" "buy TSLA" 100; comment "c2" "sell AAPL" 200;
                  comment "c3" "GME up" 300];
     comment_analysis := [status "c1" ok; status "c2" error];
     mentions := [] |}.

End Demo.

(* ================================================================= *)
(** ** ticker.py: the pattern as [_compile_hints] orders it *)

Module Hints.
Import PyStr Ticker.

(** A letter of either case. *)
Definition is_letter (c : ascii) : bool := (is_upper c || is_lower c)%bool.

(** [cleaned]: the words stripped and lowercased, without the empty ones and
    without the repetitions, in the order of their first occurrence. *)
Definition cleaned (words : list string) : list string :=
  Db.dedup [] (List.filter truthy (List.map (fun w => lower (strip w)) words)).

(** [key=len, reverse=True]. *)
Definition longer_first (a b : string) : bool :=
  Nat.leb (String.length b) (String.length a).

(** [_compile_hints], with [seen] and with [cleaned.sort]: the alternatives
    in the order in which the compiled pattern tries them. *)
Definition compile_hints_ordered (words : list string) : list (list string) :=
  List.map compile_word (Sort.sort longer_first (cleaned words)).

End Hints.

(* ================================================================= *)
(** ** analyzer.py: a merged result as an answer of the service *)

Module Remerge.
Import Analyzer.

(** The pair [(t, s)] of a merged result, as a [Mention]. *)
Definition as_mention (ts : string * Sentiment) : Mention :=
  {| ticker := fst ts; sentiment := snd ts |}.

End Remerge.

(* ================================================================= *)
(** ** db.py: the run-state table and the queries of the report *)

Module DbMore.
Import Analyzer Db.
Local Open Scope list_scope.

(** *** [app_state] *)

(** A row of [app_state]: [(key, value)]; primary key [key]. *)
Definition AppState : Type := list (string * string).

Definition CURRENT_ANALYSIS_TAG_KEY : string := "current_analysis_tag".

(** [INSERT OR REPLACE INTO app_state(key, value)]. *)
Definition set_app_state (key value : string) (t : AppState) : AppState :=
  filter (fun r => negb (String.eqb (fst r) key)) t ++ [(key, value)].

(** [SELECT value FROM app_state WHERE key = ? LIMIT 1], and the test
    [if row and row[0]]. *)
Definition get_app_state (key : string) (t : AppState) : option string :=
  match find (fun r => String.eqb (fst r) key) t with
  | Some (_, v) => if PyStr.truthy v then Some v else None
  | None => None
  end.

Definition set_current_analysis_tag (analysis_tag : string) (t : AppState)
  : AppState :=
  set_app_state CURRENT_ANALYSIS_TAG_KEY analysis_tag t.

Definition get_current_analysis_tag (t : AppState) : option string :=
  get_app_state CURRENT_ANALYSIS_TAG_KEY t.

(** *** The rows the report reads *)

(** [FROM mentions WHERE analysis_tag = ?], or, with source groups,
    [FROM mentions m JOIN comments c ON c.comment_id = m.comment_id
     WHERE m.analysis_tag = ? AND c.subreddit IN (...)]. *)
Definition report_rows (tb : Tables) (analysis_tag : string)
           (subreddits : option (list string)) : list MentionRow :=
  let tagged :=
    filter (fun m => String.eqb (m_tag m) analysis_tag) (mentions tb) in
  match subreddits with
  | None | Some [] => tagged
  | Some subs =>
      flat_map
        (fun m =>
           map (fun _ => m)
               (filter
                  (fun c =>
                     (String.eqb (comment_id c) (m_comment_id m)
                      && existsb (String.eqb (subreddit c)) subs)%bool)
                  (comments tb)))
        tagged
  end.

Definition count_where (p : MentionRow -> bool) (rows : list MentionRow) : nat :=
  List.length (filter p rows).

Definition has_sentiment (s : Sentiment) (m : MentionRow) : bool :=
  sentiment_eqb (m_sentiment m) s.

Definition has_ticker (t : string) (m : MentionRow) : bool :=
  String.eqb (m_ticker m) t.

(** *** [fetch_sentiment_counts] *)

(** The groups of [GROUP BY ticker, sentiment] with their [COUNT]; a group
    exists when it has a row. *)
Definition fetch_sentiment_counts (tb : Tables) (analysis_tag : string)
           (subreddits : option (list string))
  : list (string * Sentiment * nat) :=
  let rows := report_rows tb analysis_tag subreddits in
  flat_map
    (fun t =>
       flat_map
         (fun s =>
            match count_where (fun m => has_ticker t m && has_sentiment s m)%bool
                              rows with
            | O => []
            | n => [(t, s, n)]
            end)
         [bullish; bearish; neutral])
    (dedup [] (map m_ticker rows)).

(** *** [fetch_ticker_summary] *)

(** [(ticker, bullish, bearish, neutral, mentions, score)]. *)
Record Summary : Type := {
  s_ticker : string;
  s_bullish : nat;
  s_bearish : nat;
  s_neutral : nat;
  s_mentions : nat;
  s_score : Z
}.

(** The aggregates of one group of [GROUP BY ticker]. *)
Definition summarize (rows : list MentionRow) (t : string) : Summary :=
  let mine := filter (has_ticker t) rows in
  {| s_ticker := t;
     s_bullish := count_where (has_sentiment bullish) mine;
     s_bearish := count_where (has_sentiment bearish) mine;
     s_neutral := count_where (has_sentiment neutral) mine;
     s_mentions := List.length mine;
     s_score := (Z.of_nat (count_where (has_sentiment bullish) mine)
                 - Z.of_nat (count_where (has_sentiment bearish) mine))%Z |}.

(** [ORDER BY score DESC, mentions DESC]. *)
Definition score_then_mentions (a b : Summary) : bool :=
  (Z.ltb (s_score b) (s_score a)
   || (Z.eqb (s_score b) (s_score a)
       && Nat.leb (s_mentions b) (s_mentions a)))%bool.

Definition fetch_ticker_summary (tb : Tables) (analysis_tag : string)
           (subreddits : option (list string)) (limit : Z) : list Summary :=
  let rows := report_rows tb analysis_tag subreddits in
  sql_limit limit
    (Sort.sort score_then_mentions
       (map (summarize rows) (dedup [] (map m_ticker rows)))).

(** *** [list_analysis_tags], [get_latest_analysis_tag] *)

(** [MAX(analyzed_at)] over the rows of a tag. *)
Definition last_seen (t : list AnalysisRow) (tag : string) : Z :=
  match map a_analyzed_at (filter (fun r => String.eqb (a_tag r) tag) t) with
  | [] => 0%Z
  | x :: rest => fold_left Z.max rest x
  end.

Definition later_first (t : list AnalysisRow) (a b : string) : bool :=
  Z.leb (last_seen t b) (last_seen t a).

(** The tags of the status table, most recently seen first, then the tags
    that only the mention table has. The source goes through these last in
    the order of a Python set, which is not specified; they are taken here
    in the order of their first row. *)
Definition list_analysis_tags (tb : Tables) : list string :=
  let tags :=
    filter PyStr.truthy
      (Sort.sort (later_first (comment_analysis tb))
                 (dedup [] (map a_tag (comment_analysis tb)))) in
  let mention_tags :=
    filter PyStr.truthy (dedup [] (map m_tag (mentions tb))) in
  tags ++ dedup tags mention_tags.

(** [ORDER BY analyzed_at DESC LIMIT 1], then [row[0]]. *)
Definition latest_status_tag (t : list AnalysisRow) : option string :=
  match Sort.sort (fun a b => Z.leb (a_analyzed_at b) (a_analyzed_at a)) t with
  | [] => None
  | r :: _ => Some (a_tag r)
  end.

Definition latest_mention_tag (t : list MentionRow) : option string :=
  match Sort.sort (fun a b => Z.leb (m_analyzed_at b) (m_analyzed_at a)) t with
  | [] => None
  | r :: _ => Some (m_tag r)
  end.

Definition nonempty (v : option string) : option string :=
  match v with
  | Some s => if PyStr.truthy s then Some s else None
  | None => None
  end.

(** *** The selection predicate *)

(** Whether a record with the given status, if any, is selected. *)
Definition eligible (retry_errors include_skipped : bool)
           (st : option Status) : bool :=
  match st with
  | None => true
  | Some error => retry_errors
  | Some skipped => include_skipped
  | Some ok => false
  end.

Definition get_latest_analysis_tag (tb : Tables) : option string :=
  match nonempty (latest_status_tag (comment_analysis tb)) with
  | Some t => Some t
  | None => nonempty (latest_mention_tag (mentions tb))
  end.

End DbMore.

(* ================================================================= *)
(** ** pipeline.py: the scraper *)

Module Scraper.
Import Db.
Local Open Scope list_scope.

(** A comment as the Reddit client hands it over. *)
Record RawComment : Type := {
  rc_id : string;
  (** [str(author) if author else None] *)
  rc_author : option string;
  (** [getattr(c, "body", "") or ""] *)
  rc_body : string;
  rc_created_utc : Z;
  rc_score : Z;
  (** reading the comment raises an [Exception] inside the [try] *)
  rc_raises : bool
}.

(** A submission of a feed; [p_comments] is [None] when [replace_more] or
    [list] raises. *)
Record Submission : Type := {
  p_id : string;
  p_title : string;
  p_comments : option (list RawComment)
}.

Inductive Listing : Type := ListNew | ListRising | ListTop | ListHot.

(** How the iteration of a feed ends: it is exhausted, or it raises one of
    the [prawcore] exceptions the scraper names, or another exception. *)
Inductive FeedEnd : Type := Exhausted | RaisesPraw | RaisesOther.

Record Env : Type := {
  (** [_build_reddit] finds the client id and the client secret *)
  credentials : bool;
  (** the feed of a subreddit under a listing and a limit *)
  feed : string -> Listing -> Z -> list Submission * FeedEnd;
  (** the n-th poll of [_should_abort] *)
  should_abort : nat -> bool;
  (** [int(time.time())] when the n-th row is built *)
  time_at : nat -> Z
}.

(** The connection, the locals [batch] and [saved] of [scrape], the polls
    consumed, and the rows appended to a batch so far, the first one
    first. *)
Record State : Type := {
  work : Tables;
  durable : Tables;
  batch : list Comment;
  saved : nat;
  polls : nat;
  appended : list Comment
}.

Definition batch_size : nat := 200.

Definition choose_listing (listing : string) : Listing :=
  if String.eqb listing "new" then ListNew
  else if String.eqb listing "rising" then ListRising
  else if String.eqb listing "top" then ListTop
  else ListHot.

(** [comments[:max_comments_per_post] if max_comments_per_post else
    comments]. *)
Definition take_comments (max_comments_per_post : Z)
           (comments : list RawComment) : list RawComment :=
  if Z.eqb max_comments_per_post 0 then comments
  else if Z.ltb 0 max_comments_per_post
       then firstn (Z.to_nat max_comments_per_post) comments
       else firstn (List.length comments - Z.to_nat (- max_comments_per_post))
                   comments.

(** [author_name in bots]. *)
Definition in_bots (bots : list string) (a : option string) : bool :=
  match a with
  | Some name => existsb (String.eqb name) bots
  | None => false
  end.

(** The tuple appended to the batch. *)
Definition row_of (sub : string) (p : Submission) (c : RawComment) (now : Z)
  : Comment :=
  {| comment_id := rc_id c; subreddit := sub; submission_id := p_id p;
     submission_title := p_title p; author := rc_author c;
     created_utc := rc_created_utc c; score := rc_score c;
     body := PyStr.strip (rc_body c); scraped_at := now |}.

(** [conn.commit()]. *)
Definition commit (st : State) : State :=
  {| work := work st; durable := work st; batch := batch st;
     saved := saved st; polls := polls st; appended := appended st |}.

(** [dbmod.save_comments_bulk(conn, batch); batch.clear()]. *)
Definition save_batch (st : State) : State :=
  {| work := save_comments_bulk (batch st) (work st); durable := durable st;
     batch := []; saved := saved st; polls := polls st;
     appended := appended st |}.

(** [if batch: ...; conn.commit()], as the scraper ends. *)
Definition flush (st : State) : State :=
  commit (match batch st with [] => st | _ => save_batch st end).

Definition append (row : Comment) (st : State) : State :=
  {| work := work st; durable := durable st; batch := batch st ++ [row];
     saved := S (saved st); polls := polls st;
     appended := appended st ++ [row] |}.

(** [_should_abort()]. *)
Definition poll (env : Env) (st : State) : bool * State :=
  (should_abort env (polls st),
   {| work := work st; durable := durable st; batch := batch st;
      saved := saved st; polls := S (polls st); appended := appended st |}).

(** The body of the [try] for one comment. *)
Definition one_comment (env : Env) (bots : list string) (sub : string)
           (p : Submission) (c : RawComment) (st : State) : State :=
  if rc_raises c then st
  else if in_bots bots (rc_author c) then st
  else if negb (PyStr.truthy (PyStr.strip (rc_body c))) then st
  else
    let now := time_at env (saved st) in
    let st := append (row_of sub p c now) st in
    if Nat.leb batch_size (List.length (batch st)) then
      let st := save_batch st in
      if Nat.eqb (saved st mod 200) 0 then commit st else st
    else st.

(** How a loop is left. *)
Inductive Flow : Type :=
| Goes (st : State)
| KeyboardInterrupt (st : State)
| PrawException (st : State)
| OtherException (st : State).

Fixpoint comments_loop (env : Env) (bots : list string) (sub : string)
         (p : Submission) (take : list RawComment) (st : State) : Flow :=
  match take with
  | [] => Goes st
  | c :: rest =>
      let '(abort, st) := poll env st in
      if abort then KeyboardInterrupt st
      else comments_loop env bots sub p rest (one_comment env bots sub p c st)
  end.

Fixpoint feed_loop (env : Env) (bots : list string) (sub : string)
         (max_comments_per_post : Z) (posts : list Submission)
         (ending : FeedEnd) (st : State) : Flow :=
  match posts with
  | [] =>
      match ending with
      | Exhausted => Goes st
      | RaisesPraw => PrawException st
      | RaisesOther => OtherException st
      end
  | p :: rest =>
      let '(abort, st) := poll env st in
      if abort then KeyboardInterrupt st
      else
        let comments :=
          match p_comments p with Some cs => cs | None => [] end in
        let take := take_comments max_comments_per_post comments in
        match comments_loop env bots sub p take st with
        | Goes st =>
            feed_loop env bots sub max_comments_per_post rest ending st
        | stop => stop
        end
  end.

Fixpoint subreddits_loop (env : Env) (bots : list string) (listing : string)
         (post_limit max_comments_per_post : Z) (subreddits : list string)
         (st : State) : Flow :=
  match subreddits with
  | [] => Goes st
  | sub :: rest =>
      let '(abort, st) := poll env st in
      if abort then KeyboardInterrupt st
      else
        let '(posts, ending) :=
          feed env sub (choose_listing listing) post_limit in
        match feed_loop env bots sub max_comments_per_post posts ending st with
        | Goes st =>
            subreddits_loop env bots listing post_limit
                            max_comments_per_post rest st
        | stop => stop
        end
  end.

(** How a call of [scrape] ends: it returns [saved], or an exception
    leaves it. *)
Inductive Raised : Type := MissingCredentials | FromPraw | FromElsewhere.

Inductive Result : Type :=
| Returns (saved : nat) (st : State)
| Raises (e : Raised) (st : State).

Definition start (tb committed : Tables) : State :=
  {| work := tb; durable := committed; batch := []; saved := 0; polls := 0;
     appended := [] |}.

Definition scrape (env : Env) (subreddits : list string) (listing : string)
           (post_limit max_comments_per_post : Z) (bot_usernames : list string)
           (tb committed : Tables) : Result :=
  if negb (credentials env) then Raises MissingCredentials (start tb committed)
  else
    match subreddits_loop env bot_usernames listing post_limit
                          max_comments_per_post subreddits
                          (start tb committed) with
    | Goes st | KeyboardInterrupt st => Returns (saved st) (flush st)
    | PrawException st => Raises FromPraw (flush st)
    | OtherException st => Raises FromElsewhere st
    end.

(** The state a call ends in. *)
Definition final (r : Result) : State :=
  match r with Returns _ st | Raises _ st => st end.

Definition state_of (f : Flow) : State :=
  match f with
  | Goes st | KeyboardInterrupt st | PrawException st | OtherException st =>
      st
  end.

(** A row the scraper accepts. *)
Definition accepted (bots : list string) (c : Comment) : Prop :=
  PyStr.strip (body c) = body c /\ body c <> "" /\
  in_bots bots (author c) = false.

End Scraper.

(* ================================================================= *)
(** ** openai_client.py *)

Module OpenaiClient.
Local Open Scope list_scope.

(** The class [RateLimiter]: the bound and the deque of the times of the
    calls let through, the oldest first. *)
Record RateLimiter : Type := {
  max_per_minute : Z;
  times : list Q
}.

(** [RateLimiter(max_per_minute)]. *)
Definition init (n : Z) : RateLimiter :=
  {| max_per_minute := Z.max 1 n; times := [] |}.

(** [while self.times and (now - self.times[0]) > 60:
    self.times.popleft()]. *)
Fixpoint evict (now : Q) (ts : list Q) : list Q :=
  match ts with
  | [] => []
  | t :: rest =>
      if negb (Qle_bool (now - t) 60) then evict now rest else ts
  end.

(** [wait], entered when the clock reads [clock]: the limiter and the clock
    when it returns. Time passes in [time.sleep] only. [None] stands for
    the [IndexError] of [self.times[0]] on an empty deque. *)
Definition wait (rl : RateLimiter) (clock : Q) : option (RateLimiter * Q) :=
  let now := clock in
  let ts := evict now (times rl) in
  if Z.leb (max_per_minute rl) (Z.of_nat (List.length ts)) then
    match ts with
    | [] => None
    | t0 :: _ =>
        let sleep_for := (60 - (now - t0) + (1 # 4))%Q in
        let now := (clock + Qmax 0 sleep_for)%Q in
        let ts := evict now ts in
        Some ({| max_per_minute := max_per_minute rl; times := ts ++ [now] |},
              now)
    end
  else
    Some ({| max_per_minute := max_per_minute rl; times := ts ++ [now] |},
          now).

(** Calls of [wait] one after the other, the caller letting [gaps] pass
    before each: the times at which the calls return, and the limiter
    after the last. *)
Fixpoint waits (gaps : list Q) (rl : RateLimiter) (clock : Q)
  : option (list Q * RateLimiter) :=
  match gaps with
  | [] => Some ([], rl)
  | g :: rest =>
      match wait rl (clock + g)%Q with
      | None => None
      | Some (rl', clock') =>
          match waits rest rl' clock' with
          | None => None
          | Some (log, rl'') => Some (clock' :: log, rl'')
          end
      end
  end.

(** The times at which the caller enters [wait] when no call is held. *)
Fixpoint call_times (gaps : list Q) (clock : Q) : list Q :=
  match gaps with
  | [] => []
  | g :: rest => (clock + g)%Q :: call_times rest (clock + g)%Q
  end.

(** The calls let through in the 60 seconds that end at [g]. *)
Definition in_window (g : Q) (log : list Q) : list Q :=
  filter (fun x => Qle_bool (g - x) 60) log.

End OpenaiClient.

(* ================================================================= *)
(** ** Readings of the end of a run *)

Module Runs.
Import Analyzer Db Pipeline.
Local Open Scope list_scope.

(** What holds of the state a call of [analyze] ends in, by return or by
    an exception that leaves it. *)
Definition at_end (P : Run -> Prop) (r : Result) : Prop :=
  match r with
  | Returned st | Propagated _ st => P st
  | OutOfFuel => True
  end.

Definition after_item (P : Run -> Prop) (r : ItemResult) : Prop :=
  match r with
  | Next st => P st
  | Stop r => at_end P r
  end.

(** The rows of the other tags. *)
Definition other_status (tag : string) (t : list AnalysisRow)
  : list AnalysisRow :=
  filter (fun r => negb (String.eqb (a_tag r) tag)) t.

Definition other_mentions (tag : string) (t : list MentionRow)
  : list MentionRow :=
  filter (fun r => negb (String.eqb (m_tag r) tag)) t.

(** The candidates of a run, and those it does not pass over. *)
Definition candidates_of (cfg : Config) (tb : Tables)
  : list (string * string) :=
  fetch_candidates tb (analysis_tag cfg) (limit cfg) (retry_errors cfg)
                   (subreddits cfg) false.

Definition nonblank (c : string * string) : bool :=
  PyStr.truthy (PyStr.strip (snd c)).

(** A record the run is done with under a tag. *)
Definition done_with (tb : Tables) (tag cid : string) : Prop :=
  status_of tb tag cid = Some ok \/ status_of tb tag cid = Some error.

(** What the surroundings did for the run to stop with a reason. *)
Definition stop_cause (env : Env) (deadline : option Q) (st : Run) : Prop :=
  match stopped_reason (outcome st) with
  | None => True
  | Some r =>
      (r = "timeout" /\
       exists d, deadline = Some d /\ (d <= clock st)%Q) \/
      (r = "ctrl_c" /\
       ((exists n, should_abort env n = true) \/
        exists n t s, service env n t = (Interrupted, s))) \/
      (r = "quota" /\
       exists n t e s,
         service env n t = (Raises e, s) /\
         is_rate_limit_error e = true /\ _is_quota_exhausted e = true)
  end.

Definition same_counts (a b : AnalyzeOutcome) : Prop :=
  analyzed a = analyzed b /\ errors a = errors b /\
  analyzed_model_calls a = analyzed_model_calls b.

(** The service failed with an error that is retried on each of the [n]
    calls from the [first]-th on, made for [text]. *)
Definition retried (env : Env) (text : string) (first n : nat) : Prop :=
  forall k, k < n ->
    exists e s,
      service env (first + k) (submitted_text text) = (Raises e, s) /\
      classify e = Transient.

(** Why an exception leaves the loop over the candidates: it is a failure
    of authentication that the service raised, or the overflow of the
    back-off after 1025 failures in a row for one candidate. *)
Definition raise_cause (env : Env) (e : Exn) : Prop :=
  (_is_fatal_auth e = true /\
   exists n t s, service env n t = (Raises e, s)) \/
  (e = overflow_error /\
   exists first text, retried env text first 1025).

(** A run that stops after the state [st]: it returns with a reason that
    has its cause and with the counts of [st], or an exception leaves it
    for its cause. *)
Definition stops_from (env : Env) (deadline : option Q) (st : Run)
           (r : Result) : Prop :=
  match r with
  | Returned st' =>
      stopped_reason (outcome st') <> None /\
      stop_cause env deadline st' /\
      same_counts (outcome st') (outcome st)
  | Propagated e st' => raise_cause env e /\ outcome st' = outcome st
  | OutOfFuel => True
  end.

End Runs.

(* ================================================================= *)
(** ** cli.py: clearing *)

Module Cli.
Import Db Runs.
Local Open Scope list_scope.

(** [_clear_analysis]: [DELETE FROM mentions WHERE analysis_tag = ?],
    [DELETE FROM comment_analysis WHERE analysis_tag = ?], the commit, and
    the two row counts. *)
Definition _clear_analysis (analysis_tag : string) (tb : Tables)
  : Tables * (nat * nat) :=
  let cur1 :=
    List.length
      (filter (fun r => String.eqb (m_tag r) analysis_tag) (mentions tb)) in
  let tb := set_mentions (other_mentions analysis_tag (mentions tb)) tb in
  let cur2 :=
    List.length
      (filter (fun r => String.eqb (a_tag r) analysis_tag)
              (comment_analysis tb)) in
  let tb := set_analysis (other_status analysis_tag (comment_analysis tb)) tb in
  (tb, (cur1, cur2)).

(** [_clear_dataset]: the three tables are emptied. *)
Definition _clear_dataset (tb : Tables) : Tables * (nat * nat * nat) :=
  let cur1 := List.length (mentions tb) in
  let tb := set_mentions [] tb in
  let cur2 := List.length (comment_analysis tb) in
  let tb := set_analysis [] tb in
  let cur3 := List.length (comments tb) in
  let tb := set_comments [] tb in
  (tb, (cur1, cur2, cur3)).

End Cli.

(* ================================================================= *)
(** ** More sample surroundings *)

Module Samples.
Import Analyzer Db Pipeline.

(** A service that finds one symbol twice, with two sentiments. *)
Definition answering_env : Env :=
  {| should_abort := fun _ => false;
     service := fun _ _ =>
       (Parsed [ {| ticker := "$tsla"; sentiment := bullish |};
                 {| ticker := "TSLA"; sentiment := bearish |} ], 2%Q);
     is_real_ticker_yf := fun _ => true;
     ENABLE_KEYWORD_SHORTCUT := true;
     ENABLE_YFINANCE_VALIDATION := false;
     getenv_api_key := Some "sk-test";
     keyring_api_key := Secret_value None;
     epoch := 1700000000 |}.

Definition fresh_comments : list Comment :=
  [Demo.comment "c3" "GME up, again" 350; Demo.comment "c9" "new one" 400].

End Samples.

(* ================================================================= *)
(** * Properties *)

(** ** Strings *)

Module PyStrFacts.
Import PyStr.

Ltac by_cases_on_char c :=
  destruct c as [[] [] [] [] [] [] [] []]; vm_compute; intros;
  try reflexivity; try discriminate; try congruence.

Lemma forallb_filter p s : forallb p (filter p s) = true.
Proof.
  induction s as [|c s IH]; simpl; [reflexivity|].
  destruct (p c) eqn:E; simpl; [rewrite E|]; auto.
Qed.

Lemma forallb_impl (p q : ascii -> bool) s :
  (forall c, p c = true -> q c = true) ->
  forallb p s = true -> forallb q s = true.
Proof.
  intros H. induction s as [|c s IH]; simpl; [reflexivity|].
  intros E. apply andb_true_iff in E as [E1 E2].
  rewrite (H _ E1), (IH E2). reflexivity.
Qed.

Lemma forallb_map (p : ascii -> bool) f s :
  forallb p (map f s) = forallb (fun c => p (f c)) s.
Proof. induction s as [|c s IH]; simpl; [|rewrite IH]; reflexivity. Qed.

Lemma map_fixed (p : ascii -> bool) f s :
  (forall c, p c = true -> f c = c) ->
  forallb p s = true -> map f s = s.
Proof.
  intros H. induction s as [|c s IH]; simpl; [reflexivity|].
  intros E. apply andb_true_iff in E as [E1 E2].
  rewrite (H _ E1), (IH E2). reflexivity.
Qed.

Lemma filter_fixed (p : ascii -> bool) s :
  forallb p s = true -> filter p s = s.
Proof.
  induction s as [|c s IH]; simpl; [reflexivity|].
  intros E. apply andb_true_iff in E as [E1 E2].
  rewrite E1, (IH E2). reflexivity.
Qed.

Lemma lstrip_fixed s :
  forallb (fun c => negb (is_space c)) s = true -> lstrip s = s.
Proof.
  destruct s as [|c s]; simpl; [reflexivity|].
  intros E. apply andb_true_iff in E as [E1 _].
  apply negb_true_iff in E1. rewrite E1. reflexivity.
Qed.

Lemma rstrip_fixed s :
  forallb (fun c => negb (is_space c)) s = true -> rstrip s = s.
Proof.
  induction s as [|c s IH]; simpl; [reflexivity|].
  intros E. apply andb_true_iff in E as [E1 E2].
  apply negb_true_iff in E1. rewrite (IH E2), E1.
  destruct s; reflexivity.
Qed.

Lemma strip_fixed s :
  forallb (fun c => negb (is_space c)) s = true -> strip s = s.
Proof.
  intros E. unfold strip. rewrite (lstrip_fixed _ E). apply rstrip_fixed, E.
Qed.

(** A string of whitespace only is stripped to the empty string. *)
Lemma strip_blank s : forallb is_space s = true -> strip s = "".
Proof.
  intros H. unfold strip.
  replace (lstrip s) with "";[reflexivity|].
  induction s as [|c s IH]; simpl in *; [reflexivity|].
  apply andb_true_iff in H as [H1 H2]. rewrite H1. auto.
Qed.

(** What is left by [span] keeps every property of the characters. *)
Lemma span_rest (p q : ascii -> bool) s :
  forallb q s = true -> forallb q (snd (span p s)) = true.
Proof.
  induction s as [|c s IH]; simpl; [reflexivity|].
  intros E. destruct (p c).
  - apply andb_true_iff in E as [_ E2]. specialize (IH E2).
    destruct (span p s); exact IH.
  - exact E.
Qed.

End PyStrFacts.

(** ** Symbol normalization *)

Module TickerFacts.
Import PyStr PyStrFacts Ticker.

Lemma symbol_char_not_excluded c :
  symbol_char c = true -> excluded_char c = false.
Proof. by_cases_on_char c. Qed.

Lemma symbol_char_not_space c :
  symbol_char c = true -> negb (is_space c) = true.
Proof. by_cases_on_char c. Qed.

Lemma symbol_char_upper c : symbol_char c = true -> upper_char c = c.
Proof. by_cases_on_char c. Qed.

Lemma symbol_char_kept c : symbol_char c = true -> kept_char c = true.
Proof. by_cases_on_char c. Qed.

Lemma symbol_char_slash c :
  symbol_char c = true -> (if Ascii.eqb c "/" then "."%char else c) = c.
Proof. by_cases_on_char c. Qed.

Lemma kept_char_slash c :
  kept_char c = true ->
  symbol_char (if Ascii.eqb c "/" then "."%char else c) = true.
Proof. by_cases_on_char c. Qed.

Lemma symbol_char_hyphen c :
  symbol_char c = true ->
  symbol_char (if Ascii.eqb c "-" then "."%char else c) = true.
Proof. by_cases_on_char c. Qed.

Lemma hyphen_replaced c :
  negb (Ascii.eqb (if Ascii.eqb c "-" then "."%char else c) "-") = true.
Proof. by_cases_on_char c. Qed.

Lemma before_share_class_alphabet sym :
  forallb symbol_char (before_share_class sym) = true.
Proof.
  unfold before_share_class, replace_char. rewrite forallb_map.
  apply forallb_impl with (p := kept_char); [apply kept_char_slash|].
  apply forallb_filter.
Qed.

Lemma normalize_ticker_unfold sym :
  normalize_ticker sym =
  if negb (truthy (upper (strip sym))) then ""
  else if is_share_class (before_share_class (upper (strip sym)))
       then replace_char "-" "." (before_share_class (upper (strip sym)))
       else before_share_class (upper (strip sym)).
Proof. reflexivity. Qed.

Lemma normalize_ticker_alphabet sym :
  forallb symbol_char (normalize_ticker sym) = true.
Proof.
  rewrite normalize_ticker_unfold.
  destruct (negb _); [reflexivity|].
  destruct (is_share_class _).
  - unfold replace_char. rewrite forallb_map.
    apply forallb_impl with (p := symbol_char); [apply symbol_char_hyphen|].
    apply before_share_class_alphabet.
  - apply before_share_class_alphabet.
Qed.

Lemma no_hyphen_no_share_class s :
  forallb (fun c => negb (Ascii.eqb c "-")) s = true ->
  is_share_class s = false.
Proof.
  intros E. unfold is_share_class.
  pose proof (span_rest is_upper _ s E) as R.
  destruct (span is_upper s) as [a b]; simpl in R.
  destruct b as [|c b]; [reflexivity|].
  simpl in R. apply andb_true_iff in R as [R _].
  destruct c as [[] [] [] [] [] [] [] []]; try reflexivity; discriminate R.
Qed.

Lemma normalize_ticker_not_share_class sym :
  is_share_class (normalize_ticker sym) = false.
Proof.
  rewrite normalize_ticker_unfold.
  destruct (negb _); [reflexivity|].
  destruct (is_share_class (before_share_class _)) eqn:E; [|exact E].
  apply no_hyphen_no_share_class.
  unfold replace_char. rewrite forallb_map.
  apply forallb_impl with (p := fun _ => true); [|clear; induction (before_share_class _); auto].
  intros c _. apply hyphen_replaced.
Qed.

(** A string over the alphabet of symbols that is not a share class
    written with a hyphen is left as it is. *)
Lemma normalize_ticker_fixed t :
  forallb symbol_char t = true -> is_share_class t = false ->
  normalize_ticker t = t.
Proof.
  intros A SC.
  assert (St : strip t = t).
  { apply strip_fixed. revert A. apply forallb_impl, symbol_char_not_space. }
  assert (Up : upper t = t).
  { unfold upper. revert A. apply map_fixed, symbol_char_upper. }
  rewrite normalize_ticker_unfold, St, Up.
  destruct t as [|c t]; [reflexivity|].
  assert (B : before_share_class (String c t) = String c t).
  { unfold before_share_class.
    assert (D : startswith "$" (String c t) = false).
    { simpl in A. apply andb_true_iff in A as [A _].
      clear - A. destruct c as [[] [] [] [] [] [] [] []];
        try reflexivity; discriminate A. }
    rewrite D.
    assert (P : strip_market_prefix (String c t) = String c t).
    { unfold strip_market_prefix.
      pose proof (span_rest is_upper _ _ A) as R.
      destruct (span is_upper (String c t)) as [a b]; simpl in R.
      destruct a; [reflexivity|]. destruct b as [|d b]; [reflexivity|].
      simpl in R. apply andb_true_iff in R as [R _].
      clear - R. destruct d as [[] [] [] [] [] [] [] []];
        try reflexivity; discriminate R. }
    rewrite P, filter_fixed.
    - unfold replace_char. revert A. apply map_fixed, symbol_char_slash.
    - revert A. apply forallb_impl, symbol_char_kept. }
  rewrite B, SC. reflexivity.
Qed.

(** C9. Symbol normalization is idempotent: normalizing a normalized
    symbol gives the same symbol, for every input string. *)
Theorem normalize_ticker_idempotent (s : string) :
  normalize_ticker (normalize_ticker s) = normalize_ticker s.
Proof.
  apply normalize_ticker_fixed.
  - apply normalize_ticker_alphabet.
  - apply normalize_ticker_not_share_class.
Qed.

(** C10. For every input string, every character of the normalized symbol
    is a capital letter, a digit, a dot or a hyphen; none is a slash, a
    dollar sign, a colon, a lowercase letter or a whitespace character. *)
Theorem normalize_ticker_charset (s : string) :
  forallb symbol_char (normalize_ticker s) = true /\
  forallb (fun c => negb (excluded_char c)) (normalize_ticker s) = true.
Proof.
  split; [apply normalize_ticker_alphabet|].
  apply forallb_impl with (p := symbol_char); [|apply normalize_ticker_alphabet].
  intros c H. rewrite (symbol_char_not_excluded _ H). reflexivity.
Qed.

End TickerFacts.

(** ** The sentiment merge *)

Module AnalyzerFacts.
Import Analyzer.

Lemma sentiment_eqb_eq a b : sentiment_eqb a b = true <-> a = b.
Proof. destruct a, b; simpl; split; congruence. Qed.

Lemma truthy_nonempty s : PyStr.truthy s = true <-> s <> "".
Proof. destruct s; simpl; split; congruence. Qed.

Lemma dict_get_set k k' v d :
  dict_get k' (dict_set k v d) = if String.eqb k k' then Some v else dict_get k' d.
Proof.
  induction d as [|[k0 v0] d IH]; simpl.
  - reflexivity.
  - destruct (String.eqb k0 k) eqn:E0; simpl.
    + apply String.eqb_eq in E0. subst k0.
      destruct (String.eqb k k'); reflexivity.
    + rewrite IH. destruct (String.eqb k0 k') eqn:E1; [|reflexivity].
      apply String.eqb_eq in E1. subst k0.
      rewrite String.eqb_sym, E0. reflexivity.
Qed.

Lemma dict_set_keys k v d k' :
  In k' (map fst (dict_set k v d)) <-> k' = k \/ In k' (map fst d).
Proof.
  induction d as [|[k0 v0] d IH]; simpl.
  - intuition.
  - destruct (String.eqb k0 k) eqn:E0; simpl.
    + apply String.eqb_eq in E0. subst k0. intuition.
    + rewrite IH. intuition.
Qed.

Lemma dict_set_nodup k v d :
  NoDup (map fst d) -> NoDup (map fst (dict_set k v d)).
Proof.
  induction d as [|[k0 v0] d IH]; simpl; intros N.
  - constructor; [intros []|constructor].
  - inversion N as [|? ? N1 N2]; subst.
    destruct (String.eqb k0 k) eqn:E0; simpl.
    + constructor; assumption.
    + constructor; [|auto].
      rewrite dict_set_keys. intros [->|H]; [|contradiction].
      rewrite String.eqb_refl in E0. discriminate.
Qed.

Lemma dict_get_in k v d : dict_get k d = Some v -> In (k, v) d.
Proof.
  induction d as [|[k0 v0] d IH]; simpl; [discriminate|].
  destruct (String.eqb k0 k) eqn:E.
  - apply String.eqb_eq in E. intros [= ->]. left. congruence.
  - auto.
Qed.

Lemma dict_in_get k v d :
  NoDup (map fst d) -> In (k, v) d -> dict_get k d = Some v.
Proof.
  induction d as [|[k0 v0] d IH]; simpl; [intros _ []|].
  intros N [E|I]; inversion N as [|? ? N1 N2]; subst.
  - injection E as -> ->. rewrite String.eqb_refl. reflexivity.
  - destruct (String.eqb k0 k) eqn:E; [|auto].
    apply String.eqb_eq in E. subst k0. exfalso. apply N1.
    apply in_map_iff. exists (k, v). auto.
Qed.

Lemma dict_get_keys k d :
  In k (map fst d) <-> exists v, dict_get k d = Some v.
Proof.
  induction d as [|[k0 v0] d IH]; simpl.
  - split; [intros []|intros [v H]; discriminate].
  - destruct (String.eqb k0 k) eqn:E.
    + apply String.eqb_eq in E. split; eauto.
    + rewrite <- IH. apply String.eqb_neq in E. intuition.
Qed.

Lemma merge_step_get out m t :
  dict_get t (merge_step out m) = resolve_step t (dict_get t out) m.
Proof.
  unfold merge_step, resolve_step. fold (norm m).
  destruct (PyStr.truthy (norm m)) eqn:T; simpl.
  - destruct (String.eqb (norm m) t) eqn:E; simpl.
    + apply String.eqb_eq in E. subst t. rewrite T.
      destruct (dict_get (norm m) out) as [s0|] eqn:G; simpl.
      * destruct (sentiment_eqb s0 (sentiment m)); simpl;
          rewrite dict_get_set, String.eqb_refl; reflexivity.
      * rewrite dict_get_set, String.eqb_refl. reflexivity.
    + destruct (dict_get (norm m) out) as [s0|];
        [destruct (negb (sentiment_eqb s0 (sentiment m)))|];
        rewrite dict_get_set, E; reflexivity.
  - destruct (String.eqb (norm m) t) eqn:E; simpl; [|reflexivity].
    apply String.eqb_eq in E. subst t. rewrite T. reflexivity.
Qed.

Lemma merge_get ms : forall out t,
  dict_get t (fold_left merge_step ms out) = resolve t (dict_get t out) ms.
Proof.
  induction ms as [|m ms IH]; intros out t; simpl; [reflexivity|].
  rewrite IH, merge_step_get. reflexivity.
Qed.

Lemma merge_step_nodup out m :
  NoDup (map fst out) -> NoDup (map fst (merge_step out m)).
Proof.
  intros N. unfold merge_step.
  destruct (negb _); [exact N|].
  destruct (dict_get _ out) as [s0|]; [destruct (negb _)|];
    apply dict_set_nodup, N.
Qed.

Lemma merge_nodup ms : forall out,
  NoDup (map fst out) -> NoDup (map fst (fold_left merge_step ms out)).
Proof.
  induction ms as [|m ms IH]; intros out N; simpl; [exact N|].
  apply IH, merge_step_nodup, N.
Qed.

(** *** What [resolve] computes *)

Lemma resolve_neutral t ms : resolve t (Some neutral) ms = Some neutral.
Proof.
  induction ms as [|m ms IH]; simpl; [reflexivity|].
  unfold resolve in *. simpl. unfold resolve_step at 2.
  destruct (_ && _)%bool; [|exact IH].
  simpl. destruct (sentiment m); simpl; exact IH.
Qed.

Lemma resolve_none t ms :
  (forall m, In m ms -> norm m <> t) -> resolve t None ms = None.
Proof.
  induction ms as [|m ms IH]; intros H; [reflexivity|].
  unfold resolve in *. simpl. unfold resolve_step at 2.
  destruct (String.eqb (norm m) t) eqn:E; simpl.
  - apply String.eqb_eq in E. exfalso. apply (H m); simpl; auto.
  - apply IH. intros m' I. apply H. simpl; auto.
Qed.

Lemma resolve_empty_key cur ms : resolve "" cur ms = cur.
Proof.
  revert cur. induction ms as [|m ms IH]; intros cur; [reflexivity|].
  unfold resolve in *. simpl. unfold resolve_step at 2.
  rewrite andb_false_r. apply IH.
Qed.

Lemma resolve_agree t s ms :
  (forall m, In m ms -> norm m = t -> sentiment m = s) ->
  resolve t (Some s) ms = Some s.
Proof.
  induction ms as [|m ms IH]; intros H; [reflexivity|].
  unfold resolve in *. simpl. unfold resolve_step at 2.
  destruct (String.eqb (norm m) t) eqn:E; simpl.
  - apply String.eqb_eq in E.
    destruct (PyStr.truthy t); simpl.
    + rewrite (H m (or_introl eq_refl) E).
      replace (sentiment_eqb s s) with true by (destruct s; reflexivity).
      apply IH. intros m' I. apply H. simpl; auto.
    + apply IH. intros m' I. apply H. simpl; auto.
  - apply IH. intros m' I. apply H. simpl; auto.
Qed.

Lemma resolve_some t cur ms :
  cur <> None -> resolve t cur ms <> None.
Proof.
  revert cur. induction ms as [|m ms IH]; intros cur H; [exact H|].
  unfold resolve in *. simpl. apply IH. unfold resolve_step.
  destruct (_ && _)%bool; [discriminate|exact H].
Qed.

Lemma resolve_differ t s ms m :
  t <> "" -> In m ms -> norm m = t -> sentiment m <> s ->
  resolve t (Some s) ms = Some neutral.
Proof.
  intros Ht. induction ms as [|m0 ms IH]; intros I N D; [destruct I|].
  unfold resolve in *. simpl. unfold resolve_step at 2.
  apply truthy_nonempty in Ht as T. rewrite T, andb_true_r.
  destruct (String.eqb (norm m0) t) eqn:E; simpl.
  - destruct (sentiment_eqb s (sentiment m0)) eqn:S0.
    + apply sentiment_eqb_eq in S0. destruct I as [->|I]; [congruence|].
      rewrite <- S0. apply IH; assumption.
    + apply (resolve_neutral t ms).
  - destruct I as [->|I]; [|auto].
    rewrite N, String.eqb_refl in E. discriminate.
Qed.

Lemma resolve_first t ms :
  t <> "" ->
  (exists m, In m ms /\ norm m = t) ->
  exists m0 rest,
    In m0 ms /\ norm m0 = t /\ incl rest ms /\
    (forall m, In m ms -> norm m = t -> m = m0 \/ In m rest) /\
    resolve t None ms = resolve t (Some (sentiment m0)) rest.
Proof.
  intros Ht. induction ms as [|m0 ms IH]; intros [m [I N]]; [destruct I|].
  destruct (String.eqb (norm m0) t) eqn:E.
  - exists m0, ms. apply String.eqb_eq in E.
    repeat split; simpl; auto.
    + intros x; simpl; auto.
    + intros x [->|Ix] _; auto.
    + unfold resolve. simpl. unfold resolve_step at 2.
      apply String.eqb_eq in E. apply truthy_nonempty in Ht as T.
      rewrite E, T. reflexivity.
  - destruct I as [->|I]; [rewrite N, String.eqb_refl in E; discriminate|].
    destruct (IH (ex_intro _ m (conj I N))) as (m1 & rest & I1 & N1 & Inc & Cov & R).
    exists m1, rest. repeat split; simpl; auto.
    + intros x Ix. right. apply Inc, Ix.
    + intros x [->|Ix] Nx; [rewrite Nx, String.eqb_refl in E; discriminate|].
      apply Cov; assumption.
    + unfold resolve in *. simpl. unfold resolve_step at 2.
      rewrite E. exact R.
Qed.

Lemma in_merge_resolve ms t s :
  In (t, s) (merge_mentions ms) <-> resolve t None ms = Some s.
Proof.
  unfold merge_mentions. pose proof (merge_get ms [] t) as G.
  simpl in G. rewrite <- G. split.
  - apply dict_in_get, merge_nodup. constructor.
  - apply dict_get_in.
Qed.

(** C7. For every list of extracted mentions of one record, with or without
    repeated symbols, the merge yields at most one entry per normalized
    symbol; its keys are exactly the non-empty normalized symbols of the
    input; a symbol whose occurrences all carry one sentiment keeps it, and
    a symbol with two occurrences of different sentiments is neutral. *)
Theorem merge_mentions_correct (ms : list Mention) :
  NoDup (map fst (merge_mentions ms)) /\
  (forall t s, In (t, s) (merge_mentions ms) ->
     t <> "" /\
     exists m, In m ms /\ Ticker.normalize_ticker (ticker m) = t) /\
  (forall m, In m ms -> Ticker.normalize_ticker (ticker m) <> "" ->
     exists s, In (Ticker.normalize_ticker (ticker m), s) (merge_mentions ms)) /\
  (forall t s s0, In (t, s) (merge_mentions ms) ->
     (forall m, In m ms -> Ticker.normalize_ticker (ticker m) = t ->
                sentiment m = s0) ->
     s = s0) /\
  (forall t s m1 m2, In (t, s) (merge_mentions ms) ->
     In m1 ms -> In m2 ms ->
     Ticker.normalize_ticker (ticker m1) = t ->
     Ticker.normalize_ticker (ticker m2) = t ->
     sentiment m1 <> sentiment m2 ->
     s = neutral).
Proof.
  assert (Key : forall t s, In (t, s) (merge_mentions ms) ->
            t <> "" /\ exists m, In m ms /\ norm m = t).
  { intros t s I. apply in_merge_resolve in I. split.
    - intros ->. rewrite resolve_empty_key in I. discriminate.
    - destruct (existsb (fun m => String.eqb (norm m) t) ms) eqn:X.
      + apply existsb_exists in X as [m [I1 E]].
        apply String.eqb_eq in E. eauto.
      + rewrite resolve_none in I; [discriminate|].
        intros m Im E. apply String.eqb_eq in E.
        assert (existsb (fun m => String.eqb (norm m) t) ms = true)
          by (apply existsb_exists; eauto).
        congruence. }
  split; [|split; [|split; [|split]]].
  - unfold merge_mentions. apply merge_nodup. constructor.
  - exact Key.
  - intros m I N. fold (norm m) in *.
    destruct (resolve_first (norm m) ms N (ex_intro _ m (conj I eq_refl)))
      as (m0 & rest & _ & _ & _ & _ & R).
    destruct (resolve (norm m) None ms) as [s|] eqn:G.
    + exists s. apply in_merge_resolve, G.
    + symmetry in R. apply resolve_some in R; [destruct R|discriminate].
  - intros t s s0 I A. destruct (Key t s I) as [Ht Ex].
    apply in_merge_resolve in I.
    destruct (resolve_first t ms Ht Ex) as (m0 & rest & I0 & N0 & Inc & _ & R).
    rewrite R, (A m0 I0 N0), resolve_agree in I; [congruence|].
    intros m Im. apply A, Inc, Im.
  - intros t s m1 m2 I I1 I2 N1 N2 D. destruct (Key t s I) as [Ht Ex].
    apply in_merge_resolve in I.
    destruct (resolve_first t ms Ht Ex) as (m0 & rest & I0 & N0 & _ & Cov & R).
    rewrite R in I.
    destruct (sentiment_eqb (sentiment m1) (sentiment m0)) eqn:E1.
    + apply sentiment_eqb_eq in E1.
      destruct (Cov m2 I2 N2) as [->|Ir]; [congruence|].
      rewrite (resolve_differ t _ rest m2 Ht Ir N2) in I; congruence.
    + assert (D1 : sentiment m1 <> sentiment m0).
      { intros H. apply sentiment_eqb_eq in H. congruence. }
      destruct (Cov m1 I1 N1) as [->|Ir]; [congruence|].
      rewrite (resolve_differ t _ rest m1 Ht Ir N1 D1) in I. congruence.
Qed.

End AnalyzerFacts.

(** ** The store *)

Module DbFacts.
Import Analyzer Db.
Local Open Scope list_scope.

Lemma filter_filter {A} (p q : A -> bool) l :
  filter p (filter q l) = filter (fun x => (q x && p x)%bool) l.
Proof.
  induction l as [|x l IH]; simpl; [reflexivity|].
  destruct (q x); simpl; [destruct (p x)|]; rewrite IH; reflexivity.
Qed.

Lemma filter_nil {A} (p : A -> bool) l :
  (forall x, In x l -> p x = false) -> filter p l = [].
Proof.
  induction l as [|x l IH]; simpl; intros H; [reflexivity|].
  rewrite (H x (or_introl eq_refl)). apply IH. auto.
Qed.

Lemma filter_all {A} (p : A -> bool) l :
  (forall x, In x l -> p x = true) -> filter p l = l.
Proof.
  induction l as [|x l IH]; simpl; intros H; [reflexivity|].
  rewrite (H x (or_introl eq_refl)), IH; auto.
Qed.

Lemma filter_split_length {A} (p : A -> bool) l :
  List.length (filter p l) + List.length (filter (fun x => negb (p x)) l)
  = List.length l.
Proof.
  induction l as [|x l IH]; simpl; [reflexivity|].
  destruct (p x); simpl; lia.
Qed.

(** *** [INSERT OR REPLACE] on the status table *)

Lemma analysis_key_self r : analysis_key (a_tag r) (a_comment_id r) r = true.
Proof. unfold analysis_key. rewrite !String.eqb_refl. reflexivity. Qed.

Lemma replace_analysis_rows r t :
  analysis_rows_of (a_tag r) (a_comment_id r) (insert_or_replace_analysis r t)
  = [r].
Proof.
  unfold analysis_rows_of, insert_or_replace_analysis.
  rewrite filter_app, filter_filter. simpl. rewrite analysis_key_self.
  rewrite filter_nil; [reflexivity|].
  intros x _. destruct (analysis_key _ _ x); reflexivity.
Qed.

Lemma replace_analysis_absorb r1 r2 t :
  a_tag r1 = a_tag r2 -> a_comment_id r1 = a_comment_id r2 ->
  insert_or_replace_analysis r2 (insert_or_replace_analysis r1 t)
  = insert_or_replace_analysis r2 t.
Proof.
  intros Et Ec. unfold insert_or_replace_analysis.
  rewrite <- Et, <- Ec, filter_app, filter_filter. simpl.
  rewrite analysis_key_self. simpl.
  rewrite app_nil_r. f_equal. apply filter_ext. intros x.
  destruct (analysis_key _ _ x); reflexivity.
Qed.

Lemma replace_analysis_length r t :
  List.length (insert_or_replace_analysis r (insert_or_replace_analysis r t))
  = List.length (insert_or_replace_analysis r t).
Proof. rewrite replace_analysis_absorb; reflexivity. Qed.

Lemma find_of_rows tag cid t r :
  analysis_rows_of tag cid t = [r] -> find (analysis_key tag cid) t = Some r.
Proof.
  unfold analysis_rows_of. induction t as [|x t IH]; simpl; [discriminate|].
  destruct (analysis_key tag cid x); [congruence|exact IH].
Qed.

Lemma replace_analysis_pk r t :
  pk_analysis t -> pk_analysis (insert_or_replace_analysis r t).
Proof.
  unfold pk_analysis, insert_or_replace_analysis. intros N.
  rewrite map_app. simpl.
  apply NoDup_app; [| constructor; [intros []|constructor] |].
  - induction t as [|x t IH]; simpl; [constructor|].
    inversion N as [|? ? N1 N2]; subst.
    destruct (negb _); simpl; [|auto].
    constructor; [|auto]. intros I. apply N1.
    apply in_map_iff in I as (y & E & I). apply filter_In in I as [I _].
    apply in_map_iff. eauto.
  - intros k I [<-|[]].
    apply in_map_iff in I as (y & E & I). apply filter_In in I as [_ I].
    injection E as E1 E2. unfold analysis_key in I.
    rewrite E1, E2, !String.eqb_refl in I. discriminate.
Qed.

(** *** [INSERT OR REPLACE] on the mention table *)

Section SaveMentions.
Variables (tag cid : string).

Local Abbreviation ins := (write_mention tag cid).

Lemma mention_key_among sym x :
  mention_key tag cid sym x = mention_among tag cid [sym] x.
Proof.
  unfold mention_key, mention_among. simpl. rewrite orb_false_r. reflexivity.
Qed.

Lemma mention_among_cons s syms x :
  mention_among tag cid (s :: syms) x
  = (mention_among tag cid [s] x || mention_among tag cid syms x)%bool.
Proof.
  unfold mention_among. simpl. rewrite orb_false_r.
  destruct (String.eqb (m_tag x) tag), (String.eqb (m_comment_id x) cid);
    reflexivity.
Qed.

(** Writing the rows [rows] removes the rows of their keys, whatever the
    table held, and appends what the same writes leave in an empty table. *)
Lemma ins_filter model now t r :
  ins model now t r
  = filter (fun x => negb (mention_among tag cid [fst r] x)) t
    ++ [mention_row tag cid model now r].
Proof.
  unfold write_mention, insert_or_replace_mention. f_equal. apply filter_ext.
  intros x. simpl. rewrite mention_key_among. reflexivity.
Qed.

Lemma save_fold model now rows : forall t,
  fold_left (ins model now) rows t
  = filter (fun x => negb (mention_among tag cid (map fst rows) x)) t
    ++ fold_left (ins model now) rows [].
Proof.
  induction rows as [|r rows IH]; intros t; simpl.
  - rewrite app_nil_r. symmetry. apply filter_all. intros x _.
    unfold mention_among. simpl. rewrite andb_false_r. reflexivity.
  - rewrite IH. rewrite (IH (ins model now [] r)).
    rewrite !ins_filter. simpl filter at 3.
    rewrite filter_app, <- app_assoc. f_equal.
    rewrite filter_filter. apply filter_ext. intros x.
    rewrite (mention_among_cons (fst r) (map fst rows)).
    destruct (mention_among tag cid [fst r] x); reflexivity.
Qed.

Lemma save_fold_keys model now rows syms : forall t,
  (forall x, In x t -> mention_among tag cid syms x = true) ->
  incl (map fst rows) syms ->
  forall x, In x (fold_left (ins model now) rows t) ->
            mention_among tag cid syms x = true.
Proof.
  induction rows as [|r rows IH]; intros t Ht Inc x; simpl; [apply Ht|].
  apply IH.
  - intros y I. unfold write_mention, insert_or_replace_mention in I.
    apply in_app_or in I as [I|[<-|[]]].
    + apply filter_In in I as [I _]. apply Ht, I.
    + unfold mention_among. simpl. rewrite !String.eqb_refl. simpl.
      apply existsb_exists. exists (fst r). split.
      * apply Inc. simpl; auto.
      * apply String.eqb_refl.
  - intros y I. apply Inc. simpl; auto.
Qed.

Lemma save_fold_absorb model1 now1 model2 now2 rows t :
  fold_left (ins model2 now2) rows (fold_left (ins model1 now1) rows t)
  = fold_left (ins model2 now2) rows t.
Proof.
  rewrite save_fold. rewrite (save_fold model1). rewrite (save_fold model2 now2 rows t).
  f_equal. rewrite filter_app, filter_filter.
  rewrite (filter_nil _ (fold_left (ins model1 now1) rows [])).
  - rewrite app_nil_r. apply filter_ext. intros x.
    destruct (mention_among _ _ _ x); reflexivity.
  - intros x I.
    assert (K : mention_among tag cid (map fst rows) x = true).
    { apply (save_fold_keys model1 now1 rows (map fst rows) []);
        [intros y []|apply incl_refl|exact I]. }
    rewrite K. reflexivity.
Qed.

End SaveMentions.

Lemma save_mentions_absorb tag cid model1 model2 rows t1 t2 tb :
  save_mentions tag cid model2 rows t2 (save_mentions tag cid model1 rows t1 tb)
  = save_mentions tag cid model2 rows t2 tb.
Proof.
  unfold save_mentions, set_mentions. simpl. f_equal.
  apply (save_fold_absorb tag cid model1 t1 model2 t2).
Qed.

Lemma save_mentions_single tag cid model sym sent now tb :
  mention_rows_of tag cid sym
    (mentions (save_mentions tag cid model [(sym, sent)] now tb))
  = [mention_row tag cid model now (sym, sent)].
Proof.
  unfold save_mentions, mention_rows_of, write_mention,
    insert_or_replace_mention. simpl.
  rewrite filter_app, filter_filter. simpl.
  replace (mention_key tag cid sym (mention_row tag cid model now (sym, sent)))
    with true
    by (unfold mention_key; simpl; rewrite !String.eqb_refl; reflexivity).
  rewrite filter_nil; [reflexivity|].
  intros x _. destruct (mention_key tag cid sym x); reflexivity.
Qed.

Lemma mark_absorb w1 w2 tag cid model1 model2 t1 t2 tb :
  mark w2 tag cid model2 t2 (mark w1 tag cid model1 t1 tb)
  = mark w2 tag cid model2 t2 tb.
Proof.
  destruct w1, w2; unfold mark, mark_analyzed_ok, mark_analyzed_skipped,
    mark_analyzed_error, set_analysis; simpl; f_equal;
    apply replace_analysis_absorb; reflexivity.
Qed.

Lemma mark_rows w tag cid model now tb :
  exists row,
    analysis_rows_of tag cid (comment_analysis (mark w tag cid model now tb))
    = [row] /\
    a_status row = written_status w /\ a_model row = model /\
    a_analyzed_at row = now.
Proof.
  destruct w; unfold mark, mark_analyzed_ok, mark_analyzed_skipped,
    mark_analyzed_error, set_analysis; simpl;
    match goal with
    | |- exists row,
          analysis_rows_of _ _ (insert_or_replace_analysis ?r _) = _ /\ _ =>
        exists r; split; [apply (replace_analysis_rows r)|simpl; auto]
    end.
Qed.

Lemma persist_absorb tag cid model rows t1 t2 tb :
  persist_analysis tag cid model rows t2 (persist_analysis tag cid model rows t1 tb)
  = persist_analysis tag cid model rows t2 tb.
Proof.
  unfold persist_analysis, mark_analyzed_ok, save_mentions, set_analysis,
    set_mentions. simpl. f_equal.
  - apply replace_analysis_absorb; reflexivity.
  - apply (save_fold_absorb tag cid model t1 model t2).
Qed.

Lemma mention_key_self tag cid model now sym sent :
  mention_key tag cid sym (mention_row tag cid model now (sym, sent)) = true.
Proof. unfold mention_key. simpl. rewrite !String.eqb_refl. reflexivity. Qed.

(** One mention written: the rows of the other keys stay, in their order,
    and the row written comes last. *)
Lemma write_mention_rows tag cid model now sym sent t :
  write_mention tag cid model now t (sym, sent)
  = filter (fun r => negb (mention_key tag cid sym r)) t
    ++ [mention_row tag cid model now (sym, sent)].
Proof. reflexivity. Qed.

Lemma others_after_write_mention tag cid model now sym sent t :
  filter (fun r => negb (mention_key tag cid sym r))
         (write_mention tag cid model now t (sym, sent))
  = filter (fun r => negb (mention_key tag cid sym r)) t.
Proof.
  rewrite write_mention_rows, filter_app, filter_filter. simpl.
  rewrite mention_key_self. simpl. rewrite app_nil_r.
  apply filter_ext. intros x. destruct (mention_key tag cid sym x); reflexivity.
Qed.

Lemma others_after_replace_analysis r t :
  filter (fun x => negb (analysis_key (a_tag r) (a_comment_id r) x))
         (insert_or_replace_analysis r t)
  = filter (fun x => negb (analysis_key (a_tag r) (a_comment_id r) x)) t.
Proof.
  unfold insert_or_replace_analysis.
  rewrite filter_app, filter_filter. simpl. rewrite analysis_key_self. simpl.
  rewrite app_nil_r. apply filter_ext. intros x.
  destruct (analysis_key _ _ x); reflexivity.
Qed.

Lemma others_after_mark w tag cid model now tb :
  filter (fun x => negb (analysis_key tag cid x))
         (comment_analysis (mark w tag cid model now tb))
  = filter (fun x => negb (analysis_key tag cid x)) (comment_analysis tb) /\
  comments (mark w tag cid model now tb) = comments tb /\
  mentions (mark w tag cid model now tb) = mentions tb.
Proof.
  destruct w; unfold mark, mark_analyzed_ok, mark_analyzed_skipped,
    mark_analyzed_error, set_analysis; simpl;
    (split; [|split; reflexivity]);
    match goal with
    | |- context [insert_or_replace_analysis ?r _] =>
        apply (others_after_replace_analysis r)
    end.
Qed.

(** C6. Status and mention writes are upserts on the primary key, which is
    (tag, record) for a status and (tag, record, symbol) for a mention. A
    mention write leaves the comments, the status rows and the mention rows
    of every other key as they were, in their order; after a second write
    of the same mention, or of the same key with another sentiment, there is
    exactly one row of the key, the one written last, and the table has not
    grown. A status write leaves the comments, the mentions and the status
    rows of every other key as they were; a second status write for a record
    under a tag leaves exactly one row, which is the one written last, and
    the table is what the last write alone would have made of it. Writing
    the results of the same candidate any number of times leaves the store
    as the last of these writes alone leaves it. *)
Theorem upserts_are_idempotent :
  (forall tb tag cid model1 model2 sym sent1 sent2 t1 t2,
     let once := save_mentions tag cid model1 [(sym, sent1)] t1 tb in
     let twice := save_mentions tag cid model2 [(sym, sent2)] t2 once in
     mention_rows_of tag cid sym (mentions once)
     = [mention_row tag cid model1 t1 (sym, sent1)] /\
     filter (fun r => negb (mention_key tag cid sym r)) (mentions once)
     = filter (fun r => negb (mention_key tag cid sym r)) (mentions tb) /\
     comments once = comments tb /\
     comment_analysis once = comment_analysis tb /\
     mention_rows_of tag cid sym (mentions twice)
     = [mention_row tag cid model2 t2 (sym, sent2)] /\
     List.length (mentions twice) = List.length (mentions once) /\
     twice = save_mentions tag cid model2 [(sym, sent2)] t2 tb) /\
  (forall tb tag cid w1 w2 model1 model2 t1 t2,
     let once := mark w1 tag cid model1 t1 tb in
     let twice := mark w2 tag cid model2 t2 once in
     filter (fun r => negb (analysis_key tag cid r)) (comment_analysis once)
     = filter (fun r => negb (analysis_key tag cid r)) (comment_analysis tb) /\
     comments once = comments tb /\
     mentions once = mentions tb /\
     (exists row,
        analysis_rows_of tag cid (comment_analysis twice) = [row] /\
        a_status row = written_status w2 /\ a_model row = model2 /\
        a_analyzed_at row = t2) /\
     status_of twice tag cid = Some (written_status w2) /\
     List.length (comment_analysis twice) = List.length (comment_analysis once) /\
     twice = mark w2 tag cid model2 t2 tb) /\
  (forall tb tag cid model rows times now,
     fold_left (fun tb t => persist_analysis tag cid model rows t tb)
               (times ++ [now]) tb
     = persist_analysis tag cid model rows now tb).
Proof.
  split; [|split].
  - intros tb tag cid model1 model2 sym sent1 sent2 t1 t2 once twice.
    assert (Tw : mentions twice
                 = filter (fun r => negb (mention_key tag cid sym r))
                          (mentions tb)
                   ++ [mention_row tag cid model2 t2 (sym, sent2)]).
    { subst once twice. unfold save_mentions. simpl.
      rewrite (write_mention_rows tag cid model2 t2 sym sent2).
      rewrite others_after_write_mention. reflexivity. }
    split; [apply save_mentions_single|].
    split; [apply others_after_write_mention|].
    split; [reflexivity|]. split; [reflexivity|].
    split; [apply save_mentions_single|]. split.
    + rewrite Tw. subst once. unfold save_mentions. simpl.
      rewrite (write_mention_rows tag cid model1 t1 sym sent1).
      rewrite !length_app. reflexivity.
    + subst once twice. unfold save_mentions, set_mentions. simpl. f_equal.
      rewrite (write_mention_rows tag cid model2 t2 sym sent2).
      rewrite others_after_write_mention. reflexivity.
  - intros tb tag cid w1 w2 model1 model2 t1 t2 once twice.
    destruct (others_after_mark w1 tag cid model1 t1 tb) as (F1 & F2 & F3).
    split; [exact F1|]. split; [exact F2|]. split; [exact F3|].
    destruct (mark_rows w2 tag cid model2 t2 once) as (row & R & S1 & S2 & S3).
    split; [exists row; auto|]. split; [|split].
    + unfold status_of, status_row. fold twice in R.
      rewrite (find_of_rows _ _ _ _ R). simpl. congruence.
    + subst once twice. rewrite mark_absorb.
      destruct w1, w2; unfold mark, mark_analyzed_ok, mark_analyzed_skipped,
        mark_analyzed_error, set_analysis, insert_or_replace_analysis; simpl;
        rewrite !length_app; reflexivity.
    + apply mark_absorb.
  - intros tb tag cid model rows times now. revert tb.
    induction times as [|t times IH]; intros tb; simpl; [reflexivity|].
    rewrite IH. destruct times; simpl.
    + apply persist_absorb.
    + symmetry. rewrite <- (persist_absorb tag cid model rows t now tb) at 1.
      reflexivity.
Qed.

End DbFacts.

(** ** Sorting *)

Module SortFacts.
Local Open Scope list_scope.

Section Insertion.
Context {A : Type} (leb : A -> A -> bool).
Hypothesis leb_total : forall x y, leb x y = true \/ leb y x = true.
Hypothesis leb_trans :
  forall x y z, leb x y = true -> leb y z = true -> leb x z = true.

Lemma insert_in x l y : In y (Sort.insert leb x l) <-> y = x \/ In y l.
Proof.
  induction l as [|z l IH]; simpl.
  - intuition.
  - destruct (leb x z); simpl; [|rewrite IH]; intuition.
Qed.

Lemma sort_in l y : In y (Sort.sort leb l) <-> In y l.
Proof.
  induction l as [|x l IH]; simpl; [reflexivity|].
  rewrite insert_in, IH. intuition.
Qed.

Lemma insert_length x l :
  List.length (Sort.insert leb x l) = S (List.length l).
Proof.
  induction l as [|z l IH]; simpl; [reflexivity|].
  destruct (leb x z); simpl; [|rewrite IH]; reflexivity.
Qed.

Lemma sort_length l : List.length (Sort.sort leb l) = List.length l.
Proof.
  induction l as [|x l IH]; simpl; [reflexivity|].
  rewrite insert_length, IH. reflexivity.
Qed.

Lemma insert_sorted x l :
  StronglySorted (fun a b => leb a b = true) l ->
  StronglySorted (fun a b => leb a b = true) (Sort.insert leb x l).
Proof.
  induction l as [|z l IH]; simpl; intros S.
  - constructor; constructor.
  - inversion S as [|? ? S1 S2]; subst.
    destruct (leb x z) eqn:E.
    + constructor; [exact S|]. constructor; [exact E|].
      apply Forall_forall. intros y I.
      rewrite Forall_forall in S2. eapply leb_trans; eauto.
    + constructor; [auto|].
      apply Forall_forall. intros y I. apply insert_in in I as [->|I].
      * destruct (leb_total x z); congruence.
      * rewrite Forall_forall in S2. auto.
Qed.

Lemma sort_sorted l :
  StronglySorted (fun a b => leb a b = true) (Sort.sort leb l).
Proof.
  induction l as [|x l IH]; simpl; [constructor|].
  apply insert_sorted, IH.
Qed.

End Insertion.

Lemma firstn_in {A} n (l : list A) x : In x (firstn n l) -> In x l.
Proof.
  revert l. induction n as [|n IH]; intros [|y l]; simpl; try tauto.
  intros [->|I]; auto.
Qed.

Lemma firstn_sorted {A} (R : A -> A -> Prop) n l :
  StronglySorted R l -> StronglySorted R (firstn n l).
Proof.
  revert l. induction n as [|n IH]; intros [|y l] S; simpl; try constructor.
  - inversion S; subst. auto.
  - inversion S as [|? ? _ F]; subst. rewrite Forall_forall in *.
    intros x I. apply F. eapply firstn_in, I.
Qed.

Lemma sorted_impl {A} (R R' : A -> A -> Prop) l :
  (forall x y, R x y -> R' x y) -> StronglySorted R l -> StronglySorted R' l.
Proof.
  intros H. induction 1 as [|x l S IH F]; constructor; auto.
  rewrite Forall_forall in *. auto.
Qed.

Lemma map_sorted {A B} (f : A -> B) (R : B -> B -> Prop) l :
  StronglySorted (fun a b => R (f a) (f b)) l -> StronglySorted R (map f l).
Proof.
  induction 1 as [|x l S IH F]; simpl; constructor; auto.
  rewrite Forall_forall in *. intros y I.
  apply in_map_iff in I as (z & <- & I). auto.
Qed.

End SortFacts.

(** ** The candidate selector *)

Module SelectorFacts.
Import Analyzer Db DbFacts SortFacts.
Local Open Scope list_scope.

Lemma analysis_key_pair tag cid r :
  analysis_key tag cid r = true <-> (a_tag r, a_comment_id r) = (tag, cid).
Proof.
  unfold analysis_key. rewrite andb_true_iff, !String.eqb_eq.
  split; [intros [-> ->]; reflexivity|intros [= -> ->]; auto].
Qed.

(** Under the primary key, the rows of a key are the one row [find] meets. *)
Lemma pk_rows tag cid t r :
  pk_analysis t -> find (analysis_key tag cid) t = Some r ->
  analysis_rows_of tag cid t = [r].
Proof.
  unfold pk_analysis, analysis_rows_of.
  induction t as [|x t IH]; simpl; [discriminate|].
  intros N F. inversion N as [|? ? N1 N2]; subst.
  destruct (analysis_key tag cid x) eqn:K.
  - injection F as ->. f_equal. apply filter_nil. intros y I.
    destruct (analysis_key tag cid y) eqn:Ky; [|reflexivity].
    exfalso. apply N1. apply analysis_key_pair in K, Ky.
    rewrite K, <- Ky. apply in_map_iff. eauto.
  - auto.
Qed.

Lemma pk_rows_none tag cid (t : list AnalysisRow) :
  find (analysis_key tag cid) t = None -> analysis_rows_of tag cid t = [].
Proof.
  unfold analysis_rows_of. induction t as [|x t IH]; simpl; [reflexivity|].
  destruct (analysis_key tag cid x); [discriminate|exact IH].
Qed.

Lemma flat_map_singletons {A B} (f : A -> list B) l :
  (forall x, List.length (f x) = 1) ->
  List.length (flat_map f l) = List.length l.
Proof.
  intros H. induction l as [|x l IH]; [reflexivity|].
  change (flat_map f (x :: l)) with (f x ++ flat_map f l).
  rewrite length_app, H, IH. reflexivity.
Qed.

(** Under the primary key the join has one row per comment. *)
Lemma left_join_length tag tb :
  pk_analysis (comment_analysis tb) ->
  List.length (left_join tag tb) = List.length (comments tb).
Proof.
  intros N. unfold left_join. apply flat_map_singletons. intros c.
  destruct (find (analysis_key tag (comment_id c)) (comment_analysis tb))
    as [r|] eqn:F.
  - pose proof (pk_rows _ _ _ _ N F) as R. unfold analysis_rows_of in R.
    rewrite R. reflexivity.
  - pose proof (pk_rows_none _ _ _ F) as R. unfold analysis_rows_of in R.
    rewrite R. reflexivity.
Qed.

Lemma left_join_in tag tb c a :
  In (c, a) (left_join tag tb) <->
  In c (comments tb) /\
  match a with
  | Some r => In r (analysis_rows_of tag (comment_id c) (comment_analysis tb))
  | None => analysis_rows_of tag (comment_id c) (comment_analysis tb) = []
  end.
Proof.
  unfold left_join, analysis_rows_of. rewrite in_flat_map. split.
  - intros (c' & I & H).
    destruct (filter _ _) as [|r rows] eqn:F.
    + destruct H as [[= <- <-]|[]]. auto.
    + rewrite <- F in H. apply in_map_iff in H as (r' & [= <- <-] & H).
      rewrite F in H. rewrite F. auto.
  - intros [I H]. exists c. split; [exact I|].
    destruct a as [r|].
    + destruct (filter _ _) as [|r0 rows] eqn:F; [destruct H|].
      apply (in_map (fun a => (c, Some a))) in H. exact H.
    + rewrite H. simpl. auto.
Qed.

Lemma sql_limit_in {A} limit (l : list A) x : In x (sql_limit limit l) -> In x l.
Proof.
  unfold sql_limit. destruct (Z.ltb limit 0); [auto|apply firstn_in].
Qed.

(** A row the selector returns passed the [WHERE] clause. *)
Lemma candidate_rows_in tb tag limit retry subs incl c :
  In c (candidate_rows tb tag limit retry subs incl) ->
  exists a, In (c, a) (left_join tag tb) /\
            where_clause retry incl subs (c, a) = true.
Proof.
  unfold candidate_rows. intros I.
  apply in_map_iff in I as ([c' a] & <- & I).
  apply sql_limit_in, sort_in, filter_In in I. eauto.
Qed.

Lemma fetch_candidates_in tb tag limit retry subs incl cid :
  In cid (map fst (fetch_candidates tb tag limit retry subs incl)) ->
  exists c, comment_id c = cid /\
            In c (candidate_rows tb tag limit retry subs incl).
Proof.
  unfold fetch_candidates. rewrite map_map. simpl.
  intros I. apply in_map_iff in I as (c & E & I). eauto.
Qed.

(** The status the selector sees for a record is the recorded one. *)
Lemma joined_status tb tag c a s :
  pk_analysis (comment_analysis tb) ->
  status_of tb tag (comment_id c) = Some s ->
  In (c, a) (left_join tag tb) ->
  exists r, a = Some r /\ a_status r = s.
Proof.
  intros N S I. unfold status_of, status_row in S.
  destruct (find _ _) as [r|] eqn:F; [|discriminate].
  injection S as S. apply left_join_in in I as [_ I].
  rewrite (pk_rows _ _ _ _ N F) in I.
  destruct a as [r'|]; [|discriminate].
  destruct I as [->|[]]. eauto.
Qed.

Lemma created_desc_total x y :
  created_desc x y = true \/ created_desc y x = true.
Proof. unfold created_desc. rewrite !Z.leb_le. lia. Qed.

Lemma created_desc_trans x y z :
  created_desc x y = true -> created_desc y z = true -> created_desc x z = true.
Proof. unfold created_desc. rewrite !Z.leb_le. lia. Qed.

(** C2. In a store that respects the primary key of the status table: a
    record whose status for the tag is "ok" is not returned, whatever the
    mode, the limit and the filters; a record whose status is "error" is not
    returned in default mode, and is returned in retry mode when it passes
    the source-group filter and the limit does not cut the selection; the
    rows returned are in decreasing order of creation time, at most as many
    as the requested count, and are the first rows of the unlimited
    selection. *)
Theorem fetch_candidates_selection
        (tb : Tables) (tag cid : string) (limit : Z) (retry incl : bool)
        (subs : option (list string)) :
  pk_analysis (comment_analysis tb) ->
  (status_of tb tag cid = Some ok ->
   ~ In cid (map fst (fetch_candidates tb tag limit retry subs incl))) /\
  (status_of tb tag cid = Some error ->
   ~ In cid (map fst (fetch_candidates tb tag limit false subs incl))) /\
  (status_of tb tag cid = Some error ->
   forall c, In c (comments tb) -> comment_id c = cid ->
             subreddit_filter subs c = true ->
             (limit < 0 \/ Z.of_nat (List.length (comments tb)) <= limit)%Z ->
             In (cid, body c) (fetch_candidates tb tag limit true subs incl)) /\
  StronglySorted (fun a b => (created_utc b <= created_utc a)%Z)
                 (candidate_rows tb tag limit retry subs incl) /\
  ((0 <= limit)%Z ->
   (Z.of_nat (List.length (fetch_candidates tb tag limit retry subs incl))
    <= limit)%Z) /\
  ((0 <= limit)%Z ->
   fetch_candidates tb tag limit retry subs incl
   = firstn (Z.to_nat limit) (fetch_candidates tb tag (-1) retry subs incl)).
Proof.
  intros N. repeat split.
  - intros S I. apply fetch_candidates_in in I as (c & <- & I).
    apply candidate_rows_in in I as (a & J & W).
    destruct (joined_status _ _ _ _ _ N S J) as (r & -> & R).
    unfold where_clause in W. simpl in W. rewrite R in W.
    destruct retry; simpl in W; rewrite ?andb_false_r in W; discriminate.
  - intros S I. apply fetch_candidates_in in I as (c & <- & I).
    apply candidate_rows_in in I as (a & J & W).
    destruct (joined_status _ _ _ _ _ N S J) as (r & -> & R).
    unfold where_clause in W. simpl in W. rewrite R in W.
    simpl in W. rewrite ?andb_false_r in W. discriminate.
  - intros S c I <- F L. unfold status_of, status_row in S.
    destruct (find _ _) as [r|] eqn:Fd; [|discriminate]. injection S as S.
    assert (J : In (c, Some r) (left_join tag tb)).
    { apply left_join_in. split; [exact I|].
      rewrite (pk_rows _ _ _ _ N Fd). simpl; auto. }
    unfold fetch_candidates, candidate_rows.
    apply (in_map (fun c => (comment_id c, body c))).
    apply (in_map fst (sql_limit _ _) (c, Some r)).
    assert (K : In (c, Some r)
                   (Sort.sort created_desc
                      (filter (where_clause true incl subs) (left_join tag tb)))).
    { apply sort_in, filter_In. split; [exact J|].
      unfold where_clause. simpl. rewrite S, F. reflexivity. }
    unfold sql_limit. destruct (Z.ltb limit 0) eqn:Lt; [exact K|].
    rewrite firstn_all2; [exact K|].
    rewrite sort_length.
    pose proof (filter_split_length (where_clause true incl subs)
                                    (left_join tag tb)) as Len.
    rewrite (left_join_length _ _ N) in Len.
    apply Z.ltb_ge in Lt. lia.
  - unfold candidate_rows. apply map_sorted.
    assert (S : StronglySorted
                  (fun a b : Comment * option AnalysisRow =>
                     (created_utc (fst b) <= created_utc (fst a))%Z)
                  (Sort.sort created_desc
                     (filter (where_clause retry incl subs) (left_join tag tb)))).
    { apply sorted_impl with (R := fun a b => created_desc a b = true).
      - intros x y H. apply Z.leb_le, H.
      - apply sort_sorted; [apply created_desc_total|apply created_desc_trans]. }
    unfold sql_limit. destruct (Z.ltb limit 0); [exact S|].
    apply firstn_sorted, S.
  - intros L. unfold fetch_candidates, candidate_rows, sql_limit.
    apply Z.ltb_ge in L as Lt. rewrite Lt, !length_map.
    pose proof (firstn_le_length (Z.to_nat limit)
      (Sort.sort created_desc
         (filter (where_clause retry incl subs) (left_join tag tb)))). lia.
  - intros L. unfold fetch_candidates, candidate_rows, sql_limit.
    apply Z.ltb_ge in L as Lt. rewrite Lt. simpl.
    rewrite !firstn_map. reflexivity.
Qed.

End SelectorFacts.

(** ** The validator's deletion *)

Module ValidatorFacts.
Import Analyzer Db DbFacts.
Local Open Scope list_scope.

Lemma existsb_eqb_in x l : existsb (String.eqb x) l = true <-> In x l.
Proof.
  rewrite existsb_exists. split.
  - intros (y & I & E). apply String.eqb_eq in E. congruence.
  - intros I. exists x. split; [exact I|apply String.eqb_refl].
Qed.

Lemma dedup_in l : forall seen x,
  In x (dedup seen l) <-> In x l /\ ~ In x seen.
Proof.
  induction l as [|y l IH]; intros seen x; simpl; [tauto|].
  destruct (existsb (String.eqb y) seen) eqn:E.
  - apply existsb_eqb_in in E. rewrite IH. split; [tauto|].
    intros [[->|I] H]; tauto.
  - assert (~ In y seen) by (rewrite <- existsb_eqb_in; congruence).
    simpl. rewrite IH. simpl.
    destruct (String.eqb y x) eqn:Exy.
    + apply String.eqb_eq in Exy. subst. tauto.
    + apply String.eqb_neq in Exy. tauto.
Qed.

(** *** The chunks *)

Section Pieces.
Context {A : Type} (k : nat).

Lemma pieces_concat n : forall l : list A,
  List.length l <= n * k ->
  List.concat (map (fun i => firstn k (skipn (i * k) l)) (seq 0 n)) = l.
Proof.
  induction n as [|n IH]; intros l H.
  - destruct l; [reflexivity|simpl in H; lia].
  - change (seq 0 (S n)) with (0 :: seq 1 n).
    rewrite <- seq_shift, map_cons, map_map, concat_cons. simpl skipn at 1.
    transitivity (firstn k l ++ skipn k l); [|apply firstn_skipn].
    f_equal. rewrite <- (IH (skipn k l)).
    + f_equal. apply map_ext. intros i. rewrite skipn_skipn.
      f_equal. f_equal. lia.
    + rewrite length_skipn. lia.
Qed.

Lemma pieces_bounded n (l : list A) :
  Forall (fun c => List.length c <= k)
         (map (fun i => firstn k (skipn (i * k) l)) (seq 0 n)).
Proof.
  apply Forall_forall. intros c I. apply in_map_iff in I as (i & <- & _).
  apply firstn_le_length.
Qed.

End Pieces.

Lemma chunks_pieces l :
  chunks l
  = map (fun i => firstn chunk_size (skipn (i * chunk_size) l))
        (seq 0 ((List.length l + chunk_size - 1) / chunk_size)).
Proof. unfold chunks, range_step. rewrite map_map. reflexivity. Qed.

Lemma chunks_bounded l :
  Forall (fun c => List.length c <= chunk_size) (chunks l).
Proof. rewrite chunks_pieces. apply pieces_bounded. Qed.

Lemma chunks_concat l : List.concat (chunks l) = l.
Proof.
  rewrite chunks_pieces. apply pieces_concat.
  unfold chunk_size.
  pose proof (Nat.div_mod_eq (List.length l + 900 - 1) 900) as D.
  pose proof (Nat.mod_upper_bound (List.length l + 900 - 1) 900) as M.
  lia.
Qed.

(** *** The statements *)

Lemma delete_matches_app tag c d r :
  delete_matches tag (c ++ d) r
  = (delete_matches tag c r || delete_matches tag d r)%bool.
Proof.
  unfold delete_matches. rewrite existsb_app.
  destruct (String.eqb (m_tag r) tag); reflexivity.
Qed.

Lemma count_app tag c d (t : list MentionRow) :
  List.length (filter (delete_matches tag (c ++ d)) t)
  = List.length (filter (delete_matches tag c) t)
    + List.length
        (filter (delete_matches tag d)
                (filter (fun r => negb (delete_matches tag c r)) t)).
Proof.
  induction t as [|r t IH]; simpl; [reflexivity|].
  rewrite delete_matches_app.
  destruct (delete_matches tag c r); simpl; [lia|].
  destruct (delete_matches tag d r); simpl; lia.
Qed.

(** The statements of the loop, run one after the other, delete what one
    statement over all the chunks would delete. *)
Lemma delete_fold tag cs : forall t n,
  fold_left (delete_step tag) cs (t, n)
  = (filter (fun r => negb (delete_matches tag (List.concat cs) r)) t,
     n + List.length (filter (delete_matches tag (List.concat cs)) t)).
Proof.
  induction cs as [|c cs IH]; intros t n; simpl.
  - f_equal; [|rewrite filter_nil; simpl; auto].
    + symmetry. apply filter_all. intros r _. unfold delete_matches.
      simpl. rewrite andb_false_r. reflexivity.
    + intros r _. unfold delete_matches. simpl. apply andb_false_r.
  - unfold delete_step at 2. simpl. rewrite IH. f_equal.
    + rewrite filter_filter. apply filter_ext. intros r.
      rewrite delete_matches_app. destruct (delete_matches tag c r); reflexivity.
    + rewrite count_app. lia.
Qed.

Lemma delete_mentions_unfold tag tickers tb :
  delete_mentions_for_tickers tag tickers tb
  = let ticker_list := filter PyStr.truthy (dedup [] tickers) in
    (set_mentions
       (filter (fun r => negb (delete_matches tag ticker_list r)) (mentions tb))
       tb,
     List.length (filter (delete_matches tag ticker_list) (mentions tb))).
Proof.
  unfold delete_mentions_for_tickers. simpl.
  destruct (filter PyStr.truthy (dedup [] tickers)) as [|x l] eqn:E.
  - f_equal.
    + unfold set_mentions. destruct tb; simpl. f_equal.
      symmetry. apply filter_all. intros r _. unfold delete_matches.
      simpl. rewrite andb_false_r. reflexivity.
    + symmetry. rewrite filter_nil; [reflexivity|].
      intros r _. unfold delete_matches. simpl. apply andb_false_r.
  - rewrite delete_fold, chunks_concat. reflexivity.
Qed.

Lemma ticker_list_in tickers x :
  In x (filter PyStr.truthy (dedup [] tickers)) <-> In x tickers /\ x <> "".
Proof.
  rewrite filter_In, dedup_in, AnalyzerFacts.truthy_nonempty. simpl. tauto.
Qed.

Lemma delete_matches_spec tag tickers r :
  delete_matches tag (filter PyStr.truthy (dedup [] tickers)) r = true <->
  m_tag r = tag /\ In (m_ticker r) tickers /\ m_ticker r <> "".
Proof.
  unfold delete_matches.
  rewrite andb_true_iff, String.eqb_eq, existsb_eqb_in, ticker_list_in.
  tauto.
Qed.

(** What [delete_mentions_for_tickers] does to the store. *)
Lemma delete_mentions_frame tag tickers tb :
  let tb' := fst (delete_mentions_for_tickers tag tickers tb) in
  let deleted := snd (delete_mentions_for_tickers tag tickers tb) in
  comments tb' = comments tb /\
  comment_analysis tb' = comment_analysis tb /\
  (forall r, In r (mentions tb') <->
             In r (mentions tb) /\
             ~ (m_tag r = tag /\ In (m_ticker r) tickers /\ m_ticker r <> "")) /\
  deleted + List.length (mentions tb') = List.length (mentions tb).
Proof.
  rewrite delete_mentions_unfold. simpl. repeat split.
  - apply filter_In in H. tauto.
  - apply filter_In in H as [_ H]. intros D.
    apply delete_matches_spec in D. rewrite D in H. discriminate.
  - intros [I D]. apply filter_In. split; [exact I|].
    destruct (delete_matches _ _ r) eqn:E; [|reflexivity].
    apply delete_matches_spec in E. contradiction.
  - rewrite filter_split_length. reflexivity.
Qed.

End ValidatorFacts.

(** ** The scheduler *)

Module PipelineFacts.
Import Analyzer Db DbFacts Pipeline.
Local Open Scope list_scope.

(** *** What the validator leaves untouched *)

Lemma cleanup_cases env tag st :
  _cleanup_invalid_tickers env tag st = st \/
  exists invalid,
    invalid = Ticker.find_invalid_tickers
                (ENABLE_YFINANCE_VALIDATION env) (is_real_ticker_yf env)
                (fetch_distinct_mentioned_tickers (work st) tag) /\
    _cleanup_invalid_tickers env tag st
    = commit
        (with_work
           (fst (delete_mentions_for_tickers
                   tag (Sort.sort String.leb invalid) (work st)))
           (EvDelete
              (chunks
                 (filter PyStr.truthy
                         (dedup [] (Sort.sort String.leb invalid)))))
           st).
Proof.
  unfold _cleanup_invalid_tickers.
  destruct (negb _); [auto|].
  destruct (fetch_distinct_mentioned_tickers _ _) as [|t ts]; [auto|].
  destruct (Ticker.find_invalid_tickers _ _ _) as [|i rest] eqn:E; [auto|].
  right. exists (i :: rest). split; [reflexivity|].
  destruct (delete_mentions_for_tickers _ _ _). reflexivity.
Qed.

Lemma cleanup_readings env tag st :
  let st' := _cleanup_invalid_tickers env tag st in
  outcome st' = outcome st /\ clock st' = clock st /\ calls st' = calls st /\
  polls st' = polls st /\
  comments (work st') = comments (work st) /\
  comment_analysis (work st') = comment_analysis (work st).
Proof.
  destruct (cleanup_cases env tag st) as [E|(invalid & _ & E)]; simpl;
    rewrite E; simpl; [tauto|].
  repeat split; apply ValidatorFacts.delete_mentions_frame.
Qed.

Lemma cleanup_committed env tag st :
  durable st = work st ->
  durable (_cleanup_invalid_tickers env tag st)
  = work (_cleanup_invalid_tickers env tag st).
Proof.
  intros H. destruct (cleanup_cases env tag st) as [E|(invalid & _ & E)];
    rewrite E; [exact H|reflexivity].
Qed.

Lemma cleanup_status env tag st t cid :
  status_of (work (_cleanup_invalid_tickers env tag st)) t cid
  = status_of (work st) t cid.
Proof.
  unfold status_of, status_row.
  destruct (cleanup_readings env tag st) as (_ & _ & _ & _ & _ & ->).
  reflexivity.
Qed.

(** *** What waiting leaves untouched *)

Lemma sleep_readings seconds deadline st :
  let st' := _sleep_with_deadline seconds deadline st in
  work st' = work st /\ durable st' = durable st /\
  outcome st' = outcome st /\ calls st' = calls st /\ polls st' = polls st /\
  next_call_at st' = next_call_at st.
Proof.
  unfold _sleep_with_deadline.
  destruct (Qle_bool seconds 0); [cbn; tauto|].
  destruct deadline as [d|]; [|cbn; tauto].
  destruct (Qle_bool _ 0); cbn; tauto.
Qed.

Lemma pace_readings interval deadline st :
  let st' := _pace interval deadline st in
  work st' = work st /\ durable st' = durable st /\
  outcome st' = outcome st /\ calls st' = calls st /\ polls st' = polls st.
Proof.
  unfold _pace. destruct (Qle_bool interval 0); [cbn; tauto|].
  destruct (Qltb _ _); cbn; [|tauto].
  destruct (sleep_readings (next_call_at st - clock st)%Q deadline st)
    as (? & ? & ? & ? & ? & _). tauto.
Qed.

(** *** The classifier *)

Lemma status_after_mark_error env cfg cid e st :
  status_row (work (mark_error env cfg cid e st)) (analysis_tag cfg) cid
  = Some {| a_tag := analysis_tag cfg; a_comment_id := cid;
            a_model := model cfg; a_analyzed_at := wall_clock env st;
            a_status := error;
            a_error := Some (PyStr.take 2000 (error_detail e)) |}.
Proof.
  unfold status_row, mark_error, mark_analyzed_error. simpl.
  apply find_of_rows.
  apply (replace_analysis_rows
           {| a_tag := analysis_tag cfg; a_comment_id := cid;
              a_model := model cfg; a_analyzed_at := wall_clock env st;
              a_status := error;
              a_error := Some (PyStr.take 2000 (error_detail e)) |}).
Qed.

(** The state in which the handler finds the run: after the poll, the pacing
    and the call. *)
Lemma failed_call env cfg deadline interval fuel cid text attempt st e
      seconds :
  should_abort env (polls st) = false ->
  deadline_passed deadline st = false ->
  service env (calls st) (submitted_text text) = (Raises e, seconds) ->
  let st2 :=
    snd (call_service env cid text
           (_pace interval deadline (snd (poll env st)))) in
  work st2 = work st /\ durable st2 = durable st /\
  outcome st2 = outcome st /\ calls st2 = S (calls st) /\
  attempts env cfg deadline interval (S fuel) cid text attempt st
  = match classify e with
    | FatalAuth => Stop (Propagated e (commit st2))
    | QuotaExhausted => Stop (stop_quota env cfg cid e st2)
    | Transient =>
        match _backoff_seconds attempt with
        | Some wait_s =>
            attempts env cfg deadline interval fuel cid text (S attempt)
                     (_sleep_with_deadline wait_s deadline st2)
        | None => Stop (Propagated overflow_error st2)
        end
    | PermanentItemError =>
        Next (commit (count_error (mark_error env cfg cid e st2)))
    end.
Proof.
  intros A D Sv.
  destruct (pace_readings interval deadline (snd (poll env st)))
    as (Pw & Pd & Po & Pc & _).
  unfold poll in Pw, Pd, Po, Pc.
  cbn [snd calls outcome work durable] in Pw, Pd, Po, Pc.
  unfold call_service, poll. cbn [snd]. rewrite Pc, Sv. cbn [snd].
  split; [exact Pw|]. split; [exact Pd|]. split; [exact Po|].
  split; [reflexivity|].
  cbn [attempts]. unfold poll. rewrite A.
  replace (deadline_passed deadline _) with false by (symmetry; exact D).
  unfold call_service. rewrite Pc, Sv. reflexivity.
Qed.

(** The powers of two a float holds are those below [2^1024]. *)
Lemma overflow_of_power attempt :
  float_overflows (2 ^ Z.of_nat attempt) = negb (Nat.ltb attempt 1024).
Proof.
  unfold float_overflows.
  assert (P0 : (0 < 2 ^ Z.of_nat attempt)%Z) by (apply Z.pow_pos_nonneg; lia).
  rewrite Z.abs_eq by lia.
  assert (E : (2 ^ 1024 = 2 * 2 ^ 1023)%Z).
  { change 1024%Z with (Z.succ 1023). apply Z.pow_succ_r. lia. }
  assert (L : (2 ^ 970 < 2 ^ 1023)%Z) by (apply Z.pow_lt_mono_r; lia).
  assert (P : (0 < 2 ^ 970)%Z) by (apply Z.pow_pos_nonneg; lia).
  destruct (Nat.ltb_spec attempt 1024) as [S|G]; cbn [negb].
  - apply Z.leb_gt.
    assert (H : (2 ^ Z.of_nat attempt <= 2 ^ 1023)%Z)
      by (apply Z.pow_le_mono_r; lia).
    revert E L P H.
    generalize (2 ^ Z.of_nat attempt)%Z (2 ^ 1024)%Z (2 ^ 1023)%Z
               (2 ^ 970)%Z.
    intros; lia.
  - apply Z.leb_le.
    assert (H : (2 ^ 1024 <= 2 ^ Z.of_nat attempt)%Z)
      by (apply Z.pow_le_mono_r; lia).
    revert E L P H.
    generalize (2 ^ Z.of_nat attempt)%Z (2 ^ 1024)%Z (2 ^ 1023)%Z
               (2 ^ 970)%Z.
    intros; lia.
Qed.

Lemma backoff_some attempt :
  attempt < 1024 ->
  _backoff_seconds attempt
  = Some (Qmin (1 * inject_Z (2 ^ Z.of_nat attempt)) 20).
Proof.
  intros H. unfold _backoff_seconds. rewrite overflow_of_power.
  destruct (Nat.ltb_spec attempt 1024); [reflexivity|lia].
Qed.

Lemma backoff_none attempt :
  1024 <= attempt -> _backoff_seconds attempt = None.
Proof.
  intros H. unfold _backoff_seconds. rewrite overflow_of_power.
  destruct (Nat.ltb_spec attempt 1024); [lia|reflexivity].
Qed.

(** C3. When the extraction call for a candidate raises an exception, the
    handler tests it for FatalAuth, then QuotaExhausted, then Transient, and
    otherwise takes it as a PermanentItemError; the first test that holds
    decides. An authentication or permission error leaves the run after a
    commit, whatever its message says. A rate-limit error whose message
    tells of an exhausted quota is QuotaExhausted although it is retryable
    as well: the record is marked "error" with the detail
    [<class name>: <message>] of the failure, the writes are committed, no
    further attempt is made and the run returns with the reason "quota". Any
    other rate-limit, timeout, connection or server error is retried for the
    same candidate after the back-off of [min(2^attempt, 20)] seconds, as
    long as the conversion of [2^attempt] does not fail. Every other
    exception marks the record "error" with its detail, counts one error,
    commits and lets the run go on. *)
Theorem classifier_order
        (env : Env) (cfg : Config) (deadline : option Q) (interval : Q)
        (fuel : nat) (cid text : string) (attempt : nat) (st : Run)
        (e : Exn) (seconds : Q) :
  should_abort env (polls st) = false ->
  deadline_passed deadline st = false ->
  service env (calls st) (submitted_text text) = (Raises e, seconds) ->
  let r := attempts env cfg deadline interval (S fuel) cid text attempt st in
  let st2 :=
    snd (call_service env cid text
           (_pace interval deadline (snd (poll env st)))) in
  let msg := PyStr.lower (exn_str e) in
  let tells_of_quota :=
    (PyStr.contains "insufficient_quota" msg
     || (PyStr.contains "quota" msg
         && (PyStr.contains "exceed" msg || PyStr.contains "exceeded" msg)))%bool
  in
  let marked_error (st' : Run) :=
    exists row,
      status_row (work st') (analysis_tag cfg) cid = Some row /\
      a_model row = model cfg /\
      a_status row = error /\
      a_error row = Some (PyStr.take 2000 (exn_name e ++ ": " ++ exn_str e))
  in
  let retried :=
    (attempt < 1024 ->
     r = attempts env cfg deadline interval fuel cid text (S attempt)
                  (_sleep_with_deadline
                     (Qmin (1 * inject_Z (2 ^ Z.of_nat attempt)) 20)
                     deadline st2)) /\
    (1024 <= attempt ->
     r = Stop (Propagated
                 {| exn_class := OtherException; exn_name := "OverflowError";
                    exn_str := "int too large to convert to float" |}
                 st2))
  in
  (work st2 = work st /\ durable st2 = durable st /\
   outcome st2 = outcome st /\ calls st2 = S (calls st)) /\
  match exn_class e with
  | AuthenticationError | PermissionDeniedError =>
      exists st',
        r = Stop (Propagated e st') /\
        durable st' = work st' /\ work st' = work st /\
        outcome st' = outcome st /\ calls st' = S (calls st)
  | RateLimitError =>
      if tells_of_quota
      then
        _is_retryable e = true /\
        exists st',
          r = Stop (Returned st') /\
          stopped_reason (outcome st') = Some "quota" /\
          marked_error st' /\
          durable st' = work st' /\
          calls st' = S (calls st) /\
          analyzed (outcome st') = analyzed (outcome st) /\
          errors (outcome st') = errors (outcome st) /\
          analyzed_model_calls (outcome st')
          = analyzed_model_calls (outcome st)
      else retried
  | APITimeoutError | APIConnectionError | InternalServerError => retried
  | OtherException =>
      exists st',
        r = Next st' /\
        marked_error st' /\
        durable st' = work st' /\
        calls st' = S (calls st) /\
        errors (outcome st') = S (errors (outcome st)) /\
        analyzed (outcome st') = analyzed (outcome st) /\
        analyzed_model_calls (outcome st')
        = analyzed_model_calls (outcome st) /\
        stopped_reason (outcome st') = stopped_reason (outcome st)
  end.
Proof.
  intros A D Sv r st2 msg tells_of_quota marked_error retried.
  destruct (failed_call env cfg deadline interval fuel cid text attempt st e
                        seconds A D Sv) as (W & Du & O & Ca & E).
  fold st2 in W, Du, O, Ca, E. fold r in E.
  split; [tauto|].
  assert (Q0 : _is_quota_exhausted e = tells_of_quota) by reflexivity.
  assert (Retry : classify e = Transient -> retried).
  { intros Cl. rewrite Cl in E. split; intros L.
    - rewrite (backoff_some attempt L) in E. exact E.
    - rewrite (backoff_none attempt L) in E. exact E. }
  assert (Mk : marked_error (mark_error env cfg cid e st2)).
  { eexists. split; [exact (status_after_mark_error env cfg cid e st2)|].
    repeat split. }
  unfold classify, _is_fatal_auth, is_rate_limit_error, _is_retryable in *.
  destruct (exn_class e) eqn:C; cbn [andb] in *.
  - eexists. split; [exact E|]. cbn. rewrite W, O, Ca. tauto.
  - eexists. split; [exact E|]. cbn. rewrite W, O, Ca. tauto.
  - rewrite Q0 in *. destruct tells_of_quota.
    + split; [reflexivity|]. eexists. split; [exact E|].
      set (st1 := mark_error env cfg cid e st2) in *.
      destruct (cleanup_readings env (analysis_tag cfg)
                  (set_reason "quota" (commit st1)))
        as (O' & _ & Ca' & _ & _ & An).
      split; [rewrite O'; reflexivity|].
      split; [unfold marked_error, status_row in *; rewrite An; exact Mk|].
      split; [apply cleanup_committed; reflexivity|].
      split; [rewrite Ca'; exact Ca|].
      rewrite O'. cbn. rewrite O. tauto.
    + apply Retry. reflexivity.
  - apply Retry. reflexivity.
  - apply Retry. reflexivity.
  - apply Retry. reflexivity.
  - eexists. split; [exact E|].
    split; [exact Mk|]. cbn. rewrite O, Ca. tauto.
Qed.

(** *** Blank bodies *)

(** C1, as the code has it. For a candidate whose body is empty or only
    whitespace, reached without cancellation or timeout, the scheduler goes
    on to the next candidate: it makes no extraction call, leaves the
    counters as they are and writes nothing, so that no status is recorded
    for the record and the candidate selection is what it was. *)
Theorem blank_body_is_skipped
        (env : Env) (cfg : Config) (deadline : option Q) (interval : Q)
        (fuel : nat) (cid body : string) (st : Run) :
  PyStr.forallb PyStr.is_space body = true ->
  should_abort env (polls st) = false ->
  deadline_passed deadline st = false ->
  exists st',
    item env cfg deadline interval fuel (cid, body) st = Next st' /\
    calls st' = calls st /\
    outcome st' = outcome st /\
    work st' = work st /\ durable st' = durable st /\
    trace st' = trace st /\
    status_of (work st') (analysis_tag cfg) cid
    = status_of (work st) (analysis_tag cfg) cid /\
    (forall limit retry subs incl,
       fetch_candidates (work st') (analysis_tag cfg) limit retry subs incl
       = fetch_candidates (work st) (analysis_tag cfg) limit retry subs incl).
Proof.
  intros B A D. exists (snd (poll env st)). split.
  - unfold item, poll. rewrite A. cbn [snd].
    replace (deadline_passed deadline _) with false by (symmetry; exact D).
    rewrite (PyStrFacts.strip_blank _ B). reflexivity.
  - unfold poll. cbn. repeat split; reflexivity.
Qed.

(** *** The pacer *)

Lemma Qle_bool_false x y : Qle_bool x y = false <-> (y < x)%Q.
Proof.
  split.
  - intros H. apply Qnot_le_lt. intros L. apply Qle_bool_iff in L. congruence.
  - intros L. destruct (Qle_bool x y) eqn:E; [|reflexivity].
    apply Qle_bool_iff in E. lra.
Qed.

Lemma pace_interval_positive N :
  (1 <= N)%Z ->
  pace_interval N = (60 / inject_Z N)%Q /\ (0 < 60 / inject_Z N)%Q.
Proof.
  intros H. unfold pace_interval.
  replace (Z.ltb 0 N) with true by (symmetry; apply Z.ltb_lt; lia).
  split; [reflexivity|].
  apply Qlt_shift_div_l.
  - unfold Qlt, inject_Z. simpl. lia.
  - lra.
Qed.

(** With a rate of zero or less [_pace] does nothing. *)
Lemma pace_off i deadline st : (i <= 0)%Q -> _pace i deadline st = st.
Proof.
  intros H. unfold _pace.
  replace (Qle_bool i 0) with true by (symmetry; apply Qle_bool_iff, H).
  reflexivity.
Qed.

(** A call of [_pace] at the scheduled instant or after it returns at
    once. *)
Lemma pace_through i deadline st :
  (next_call_at st <= clock st)%Q ->
  clock (_pace i deadline st) = clock st /\
  trace (_pace i deadline st) = trace st.
Proof.
  intros H. unfold _pace. destruct (Qle_bool i 0); [auto|].
  replace (Qltb (clock st) (next_call_at st)) with false; [cbn; auto|].
  unfold Qltb. symmetry. apply negb_false_iff, Qle_bool_iff, H.
Qed.

(** A call of [_pace] before the scheduled instant is held, unless the
    deadline has passed. *)
Lemma pace_held i deadline st :
  (0 < i)%Q -> (clock st < next_call_at st)%Q ->
  match deadline with
  | None => True
  | Some d => (clock st < d)%Q
  end ->
  (clock st < clock (_pace i deadline st))%Q.
Proof.
  intros Hi Hn Hd. unfold _pace.
  replace (Qle_bool i 0) with false by (symmetry; apply Qle_bool_false, Hi).
  replace (Qltb (clock st) (next_call_at st)) with true.
  2:{ unfold Qltb. symmetry. apply negb_true_iff, Qle_bool_false. lra. }
  unfold _sleep_with_deadline.
  replace (Qle_bool (next_call_at st - clock st) 0) with false.
  2:{ symmetry. apply Qle_bool_false. lra. }
  destruct deadline as [d|]; [|cbn; lra].
  replace (Qle_bool (d - clock st) 0) with false.
  2:{ symmetry. apply Qle_bool_false. lra. }
  cbn.
  destruct (Q.min_spec (next_call_at st - clock st) (d - clock st))
    as [[_ M]|[_ M]]; rewrite M; lra.
Qed.

(** [_pace] does not wait once the deadline has passed. *)
Lemma pace_past_deadline i d st :
  (d <= clock st)%Q -> clock (_pace i (Some d) st) = clock st.
Proof.
  intros H. unfold _pace. destruct (Qle_bool i 0); [reflexivity|].
  destruct (Qltb _ _); [|reflexivity].
  unfold _sleep_with_deadline. destruct (Qle_bool _ 0); [reflexivity|].
  replace (Qle_bool (d - clock st) 0) with true; [reflexivity|].
  symmetry. apply Qle_bool_iff. lra.
Qed.

(** [_pace] never sets the clock back, and the instant it schedules is not
    before the moment it returns. *)
Lemma pace_forward i deadline st :
  (clock st <= clock (_pace i deadline st))%Q /\
  ((0 < i)%Q ->
   (clock (_pace i deadline st) <= next_call_at (_pace i deadline st))%Q).
Proof.
  unfold _pace. destruct (Qle_bool i 0) eqn:Ei.
  - split; [lra|]. intros Hi. apply Qle_bool_iff in Ei. lra.
  - apply Qle_bool_false in Ei.
    cbn [clock next_call_at with_next_call_at]. split; [|intros _; lra].
    destruct (Qltb _ _); [|lra].
    unfold _sleep_with_deadline. destruct (Qle_bool _ 0) eqn:E1; [lra|].
    apply Qle_bool_false in E1.
    destruct deadline as [d|]; [|cbn; lra].
    destruct (Qle_bool (d - clock st) 0) eqn:E2; [lra|].
    apply Qle_bool_false in E2. cbn.
    destruct (Q.min_spec (next_call_at st - clock st) (d - clock st))
      as [[_ M]|[_ M]]; rewrite M; lra.
Qed.

(** *** The commits *)

Lemma pending_le_max tr : pending_ok tr <= max_pending_ok tr.
Proof. destruct tr; simpl; lia. Qed.

Lemma max_pending_cons e tr :
  max_pending_ok (e :: tr) = Nat.max (pending_ok (e :: tr)) (max_pending_ok tr).
Proof. reflexivity. Qed.

(** A step that marks no record and keeps the count keeps the ledger. *)
Lemma ledger_quiet K st st' :
  analyzed (outcome st') = analyzed (outcome st) ->
  (trace st' = trace st \/
   exists e, trace st' = e :: trace st /\
             match e with EvOk _ | EvCommit => False | _ => True end) ->
  ledger K st -> ledger K st'.
Proof.
  unfold ledger. intros A [T|(e & T & He)] [L1 L2]; rewrite A, T; [auto|].
  rewrite max_pending_cons. pose proof (pending_le_max (trace st)).
  destruct e; try contradiction; simpl; lia.
Qed.

Lemma ledger_commit K st : ledger K st -> ledger K (commit st).
Proof.
  unfold ledger. intros [L1 L2]. cbn [commit trace outcome].
  rewrite max_pending_cons. simpl. lia.
Qed.

Lemma ledger_sleep K seconds deadline st :
  ledger K st -> ledger K (_sleep_with_deadline seconds deadline st).
Proof.
  apply ledger_quiet.
  - destruct (sleep_readings seconds deadline st) as (_ & _ & -> & _).
    reflexivity.
  - unfold _sleep_with_deadline.
    destruct (Qle_bool seconds 0); [auto|].
    destruct deadline as [d|].
    + destruct (Qle_bool _ 0); [auto|]. right. eexists. split; [reflexivity|exact I].
    + right. eexists. split; [reflexivity|exact I].
Qed.

Lemma ledger_pace K interval deadline st :
  ledger K st -> ledger K (_pace interval deadline st).
Proof.
  intros L. unfold _pace. destruct (Qle_bool interval 0); [exact L|].
  destruct (Qltb _ _).
  - apply (ledger_quiet K (_sleep_with_deadline (next_call_at st - clock st)%Q
                                                 deadline st));
      [reflexivity|left; reflexivity|apply ledger_sleep, L].
  - apply (ledger_quiet K st); [reflexivity|left; reflexivity|exact L].
Qed.

Lemma cleanup_max_pending env tag st :
  max_pending_ok (trace (_cleanup_invalid_tickers env tag st))
  = max_pending_ok (trace st).
Proof.
  destruct (cleanup_cases env tag st) as [E|(invalid & _ & E)]; rewrite E;
    [reflexivity|].
  cbn [commit with_work trace]. rewrite !max_pending_cons. simpl.
  pose proof (pending_le_max (trace st)). lia.
Qed.

(** The mark of a record as "ok", the count and the commit that may follow,
    when the commit is for the multiples of [m]. *)
Lemma ledger_ok K m env cfg cid st :
  (K = 50 /\ (m = 10 \/ m = 50)) \/ (K = 10 /\ m = 10) ->
  ledger K st ->
  ledger K
    (if Nat.eqb (analyzed (outcome (count_analyzed (mark_ok env cfg cid st)))
                 mod m) 0
     then commit (count_analyzed (mark_ok env cfg cid st))
     else count_analyzed (mark_ok env cfg cid st)).
Proof.
  intros HK [L1 L2].
  assert (P : pending_ok (trace (count_analyzed (mark_ok env cfg cid st)))
              = S (pending_ok (trace st))) by reflexivity.
  assert (A : analyzed (outcome (count_analyzed (mark_ok env cfg cid st)))
              = S (analyzed (outcome st))) by reflexivity.
  assert (M : max_pending_ok (trace (count_analyzed (mark_ok env cfg cid st)))
              = Nat.max (S (pending_ok (trace st))) (max_pending_ok (trace st)))
    by reflexivity.
  set (st1 := count_analyzed (mark_ok env cfg cid st)) in *.
  set (a := analyzed (outcome st)) in *.
  assert (B : pending_ok (trace st) < K).
  { destruct HK as [[-> _]|[-> _]];
      [pose proof (Nat.mod_upper_bound a 50)|pose proof (Nat.mod_upper_bound a 10)];
      lia. }
  destruct (Nat.eqb (analyzed (outcome st1) mod m) 0) eqn:E.
  - unfold ledger. cbn [commit trace outcome]. rewrite max_pending_cons, M.
    change (pending_ok (EvCommit :: trace st1)) with 0.
    split; [apply Nat.le_0_l|lia].
  - unfold ledger. rewrite P, A, M. apply Nat.eqb_neq in E. rewrite A in E.
    split; [|lia].
    destruct HK as [[-> [->| ->]]|[-> ->]].
    + pose proof (Nat.div_mod_eq a 50). pose proof (Nat.mod_upper_bound a 50).
      pose proof (Nat.div_mod_eq (S a) 50).
      pose proof (Nat.mod_upper_bound (S a) 50).
      pose proof (Nat.div_mod_eq (S a) 10).
      pose proof (Nat.mod_upper_bound (S a) 10). lia.
    + pose proof (Nat.div_mod_eq a 50). pose proof (Nat.mod_upper_bound a 50).
      pose proof (Nat.div_mod_eq (S a) 50).
      pose proof (Nat.mod_upper_bound (S a) 50). lia.
    + pose proof (Nat.div_mod_eq a 10). pose proof (Nat.mod_upper_bound a 10).
      pose proof (Nat.div_mod_eq (S a) 10).
      pose proof (Nat.mod_upper_bound (S a) 10). lia.
Qed.

Lemma ledger_call K env cid text st :
  ledger K st -> ledger K (snd (call_service env cid text st)).
Proof.
  unfold call_service. destruct (service env _ _) as [r seconds]. cbn [snd].
  apply ledger_quiet; [reflexivity|].
  right. eexists. split; [reflexivity|exact I].
Qed.

Lemma ledger_max K st : ledger K st -> max_pending_ok (trace st) <= K.
Proof. intros [_ L]. exact L. Qed.

Lemma settled_stop K env cfg st :
  durable st = work st -> max_pending_ok (trace st) <= K ->
  settled K (Returned (_cleanup_invalid_tickers env (analysis_tag cfg) st)).
Proof.
  intros D M. split; [apply cleanup_committed, D|].
  rewrite cleanup_max_pending. exact M.
Qed.

Lemma settled_timeout K env cfg st :
  ledger K st -> settled K (stop_timeout env cfg st).
Proof.
  intros L. apply settled_stop; [reflexivity|].
  apply (ledger_max K), ledger_commit.
  revert L. apply ledger_quiet; [reflexivity|left; reflexivity].
Qed.

Lemma settled_ctrl_c K env cfg st :
  ledger K st -> settled K (stop_ctrl_c env cfg st).
Proof.
  intros L. apply settled_stop; [reflexivity|].
  apply (ledger_max K). apply (ledger_quiet K (commit st));
    [reflexivity|left; reflexivity|apply ledger_commit, L].
Qed.

Lemma ledger_mark_error K env cfg cid e st :
  ledger K st -> ledger K (mark_error env cfg cid e st).
Proof.
  apply ledger_quiet; [reflexivity|].
  right. eexists. split; [reflexivity|exact I].
Qed.

Lemma settled_quota K env cfg cid e st :
  ledger K st -> settled K (stop_quota env cfg cid e st).
Proof.
  intros L. apply settled_stop; [reflexivity|].
  apply (ledger_max K).
  apply (ledger_quiet K (commit (mark_error env cfg cid e st)));
    [reflexivity|left; reflexivity|].
  apply ledger_commit, ledger_mark_error, L.
Qed.

Lemma settled_fatal K e st :
  ledger K st -> settled K (Propagated e (commit st)).
Proof.
  intros L. split; [intros _; reflexivity|].
  apply (ledger_max K), ledger_commit, L.
Qed.

Lemma ledger_poll K env st : ledger K st -> ledger K (snd (poll env st)).
Proof. apply ledger_quiet; [reflexivity|left; reflexivity]. Qed.

Lemma attempts_ledger K env cfg deadline interval fuel :
  K = 10 \/ K = 50 ->
  forall cid text attempt st,
    ledger K st ->
    item_invariant K (attempts env cfg deadline interval fuel cid text attempt st).
Proof.
  intros HK. induction fuel as [|fuel IH]; intros cid text attempt st L.
  - exact I.
  - cbn [attempts]. apply (ledger_poll K env) in L. unfold poll in *.
    cbn [snd] in L. destruct (should_abort env (polls st)).
    { apply settled_ctrl_c, L. }
    destruct (deadline_passed deadline _).
    { apply settled_timeout, L. }
    apply (ledger_pace K interval deadline) in L.
    apply (ledger_call K env cid text) in L.
    destruct (call_service env cid text _) as [r st2]. cbn [snd] in L.
    destruct r as [ms|e|].
    + apply (ledger_ok K 10 env cfg cid); [destruct HK as [->| ->]; auto|].
      revert L. apply ledger_quiet; [reflexivity|left; reflexivity].
    + destruct (classify e).
      * apply settled_fatal, L.
      * apply settled_quota, L.
      * destruct (_backoff_seconds attempt) as [wait_s|].
        -- apply IH, ledger_sleep, L.
        -- split; [intros H; discriminate H|apply (ledger_max K), L].
      * apply ledger_commit.
        apply (ledger_quiet K (mark_error env cfg cid e st2));
          [reflexivity|left; reflexivity|apply ledger_mark_error, L].
    + apply settled_ctrl_c, L.
Qed.

Lemma item_ledger K env cfg deadline interval fuel c st :
  K = 50 \/ (K = 10 /\ ENABLE_KEYWORD_SHORTCUT env = false) ->
  ledger K st ->
  item_invariant K (item env cfg deadline interval fuel c st).
Proof.
  intros HK L. destruct c as [cid body]. unfold item.
  apply (ledger_poll K env) in L. unfold poll in *. cbn [snd] in L.
  destruct (should_abort env (polls st)).
  { apply settled_ctrl_c, L. }
  destruct (deadline_passed deadline _).
  { apply settled_timeout, L. }
  destruct (negb (PyStr.truthy (PyStr.strip body))).
  { exact L. }
  destruct (ENABLE_KEYWORD_SHORTCUT env && _)%bool eqn:E.
  - apply (ledger_ok K 50 env cfg cid); [|exact L].
    destruct HK as [->|[-> H]]; [auto|].
    rewrite H in E. discriminate.
  - apply attempts_ledger; [|exact L]. destruct HK as [->|[-> _]]; auto.
Qed.

Lemma items_ledger K env cfg deadline interval fuel candidates :
  K = 50 \/ (K = 10 /\ ENABLE_KEYWORD_SHORTCUT env = false) ->
  forall st, ledger K st ->
             settled K (items env cfg deadline interval fuel candidates st).
Proof.
  intros HK. induction candidates as [|c rest IH]; intros st L.
  - cbn [items]. apply settled_stop; [reflexivity|].
    apply (ledger_max K), ledger_commit, L.
  - cbn [items].
    pose proof (item_ledger K env cfg deadline interval fuel c st HK L) as H.
    destruct (item env cfg deadline interval fuel c st) as [st'|r];
      [apply IH, H|exact H].
Qed.

Lemma ledger_start K tb committed now : ledger K (start tb committed now).
Proof. unfold ledger. cbn. split; apply Nat.le_0_l. Qed.

(** The loop of a candidate ends within 1025 attempts: the back-off of the
    1025th failure in a row cannot be computed. *)
Lemma attempts_end env cfg deadline interval fuel :
  forall cid text attempt st,
    1 <= fuel -> 1025 <= fuel + attempt ->
    attempts env cfg deadline interval fuel cid text attempt st
    <> Stop OutOfFuel.
Proof.
  induction fuel as [|fuel IH]; intros cid text attempt st F1 F2; [lia|].
  cbn [attempts]. unfold poll.
  destruct (should_abort env (polls st)); [discriminate|].
  destruct (deadline_passed deadline _); [discriminate|].
  destruct (call_service env cid text _) as [r st2].
  destruct r as [ms|e|]; try discriminate.
  destruct (classify e); try discriminate.
  destruct (Nat.lt_ge_cases attempt 1024) as [S|G].
  - rewrite (backoff_some attempt S). apply IH; lia.
  - rewrite (backoff_none attempt G). discriminate.
Qed.

Lemma items_end env cfg deadline interval fuel candidates :
  1025 <= fuel ->
  forall st, items env cfg deadline interval fuel candidates st <> OutOfFuel.
Proof.
  intros F. induction candidates as [|[cid body] rest IH]; intros st;
    cbn [items]; [discriminate|].
  destruct (item env cfg deadline interval fuel (cid, body) st)
    as [st'|r] eqn:E; [apply IH|].
  intros ->. unfold item, poll in E.
  destruct (should_abort env (polls st)); [discriminate|].
  destruct (deadline_passed deadline _); [discriminate|].
  destruct (negb _); [discriminate|].
  destruct (_ && _)%bool; [discriminate|].
  revert E. apply attempts_end; lia.
Qed.

Lemma Next_inj a b : Next a = Next b -> a = b.
Proof. congruence. Qed.

(** The commit that follows a record the service analyzed, or failed on
    for good. *)
Lemma attempts_commit env cfg deadline interval fuel :
  forall cid text attempt st st',
    attempts env cfg deadline interval fuel cid text attempt st = Next st' ->
    (analyzed (outcome st') = S (analyzed (outcome st)) /\
     errors (outcome st') = errors (outcome st) /\
     if Nat.eqb (analyzed (outcome st') mod 10) 0
     then durable st' = work st' else durable st' = durable st) \/
    (errors (outcome st') = S (errors (outcome st)) /\
     analyzed (outcome st') = analyzed (outcome st) /\
     durable st' = work st').
Proof.
  induction fuel as [|fuel IH]; intros cid text attempt st st';
    [discriminate|].
  cbn [attempts]. unfold poll.
  destruct (should_abort env (polls st)); [discriminate|].
  destruct (deadline_passed deadline _); [discriminate|].
  destruct (pace_readings interval deadline
              {| work := work st; durable := durable st;
                 outcome := outcome st; clock := clock st;
                 next_call_at := next_call_at st; polls := S (polls st);
                 calls := calls st; trace := trace st |})
    as (_ & Pd & Po & _).
  cbn [durable outcome] in Pd, Po.
  unfold call_service.
  destruct (service env _ _) as [r seconds].
  match goal with
  | |- context [_pace ?i ?d ?s] => set (s1 := _pace i d s) in *
  end.
  destruct r as [ms|e|]; [| |discriminate].
  - intros H. apply Next_inj in H. subst st'. left.
    match goal with
    | |- context [if Nat.eqb (analyzed (outcome ?s) mod 10) 0
                  then commit ?s else ?s] =>
        set (s2 := s);
        assert (A : analyzed (outcome s2) = S (analyzed (outcome st)))
          by (cbn; rewrite Po; reflexivity);
        assert (E : errors (outcome s2) = errors (outcome st))
          by (cbn; rewrite Po; reflexivity);
        assert (D : durable s2 = durable st) by (cbn; exact Pd)
    end.
    destruct (Nat.eqb (analyzed (outcome s2) mod 10) 0) eqn:M.
    + cbn [commit outcome durable work]. rewrite M. tauto.
    + rewrite M. tauto.
  - destruct (classify e); try discriminate.
    + destruct (_backoff_seconds attempt) as [wait_s|]; [|discriminate].
      intros H. apply IH in H.
      match type of H with
      | context [_sleep_with_deadline ?w ?d ?s] =>
          destruct (sleep_readings w d s) as (_ & Sd & So & _)
      end.
      cbv zeta in Sd, So. rewrite Sd, So in H.
      cbn [durable outcome] in H. rewrite Pd, Po in H. exact H.
    + intros H. apply Next_inj in H. subst st'. right.
      cbn [commit count_error mark_error with_work with_outcome outcome
           durable work errors analyzed].
      rewrite Po. tauto.
Qed.

(** C5, as the code has it. A run of [analyze] has committed its writes
    when it returns, on every path (all candidates done, timeout,
    cancellation, exhausted quota), and when a fatal authentication failure
    of the service leaves it. A record analyzed by the service is committed
    at once when the count of analyzed records is a multiple of 10, and is
    left to a later commit otherwise; a record handled by the keyword
    shortcut is marked "ok" without a call and committed at once when the
    count is a multiple of 50, and left to a later commit otherwise; a
    record the service fails on for good is committed at once. So the
    records marked "ok" and not yet committed are never more than 50, and
    never more than 10 when the keyword shortcut is off. Given 1025 attempts
    for a candidate, the run ends. *)
Theorem commit_policy
        (env : Env) (cfg : Config) (fuel : nat) (tb committed : Tables)
        (now : Q) :
  match analyze env cfg fuel tb committed now with
  | Returned st =>
      durable st = work st /\
      max_pending_ok (trace st) <= 50 /\
      (ENABLE_KEYWORD_SHORTCUT env = false -> max_pending_ok (trace st) <= 10)
  | Propagated e st =>
      (_is_fatal_auth e = true -> 0 < calls st -> durable st = work st) /\
      max_pending_ok (trace st) <= 50 /\
      (ENABLE_KEYWORD_SHORTCUT env = false -> max_pending_ok (trace st) <= 10)
  | OutOfFuel => fuel < 1025
  end /\
  (forall deadline interval fuel cid text attempt st st',
     attempts env cfg deadline interval fuel cid text attempt st = Next st' ->
     (analyzed (outcome st') = S (analyzed (outcome st)) /\
      errors (outcome st') = errors (outcome st) /\
      if Nat.eqb (analyzed (outcome st') mod 10) 0
      then durable st' = work st' else durable st' = durable st) \/
     (errors (outcome st') = S (errors (outcome st)) /\
      analyzed (outcome st') = analyzed (outcome st) /\
      durable st' = work st')) /\
  (forall deadline interval fuel cid body st,
     should_abort env (polls st) = false ->
     deadline_passed deadline st = false ->
     PyStr.truthy (PyStr.strip body) = true ->
     ENABLE_KEYWORD_SHORTCUT env = true ->
     Ticker.has_finance_hint (PyStr.strip body) = false ->
     exists st',
       item env cfg deadline interval fuel (cid, body) st = Next st' /\
       calls st' = calls st /\
       status_of (work st') (analysis_tag cfg) cid = Some ok /\
       analyzed (outcome st') = S (analyzed (outcome st)) /\
       errors (outcome st') = errors (outcome st) /\
       if Nat.eqb (analyzed (outcome st') mod 50) 0
       then durable st' = work st' else durable st' = durable st).
Proof.
  split; [|split].
  - unfold analyze.
    assert (Early : forall e,
              (_is_fatal_auth e = true ->
               0 < calls (start tb committed now) ->
               durable (start tb committed now)
               = work (start tb committed now)) /\
              max_pending_ok (trace (start tb committed now)) <= 50 /\
              (ENABLE_KEYWORD_SHORTCUT env = false ->
               max_pending_ok (trace (start tb committed now)) <= 10)).
    { intros e. cbn [calls start trace max_pending_ok].
      split; [intros _ H; inversion H|]. split; [lia|intros _; lia]. }
    destruct (deadline_overflows cfg); [apply Early|].
    destruct (get_secret env) as [[[|c k]|]|e0]; try apply Early.
    destruct (interval_overflows cfg); [apply Early|].
    cbv zeta.
    match goal with
    | |- context [items ?e ?c ?d ?i ?f ?l ?s] =>
        pose proof (items_ledger 50 e c d i f l (or_introl eq_refl) s
                      (ledger_start 50 tb committed now)) as S50;
        assert (S10 : ENABLE_KEYWORD_SHORTCUT env = false ->
                      settled 10 (items e c d i f l s))
          by (intros Off; apply items_ledger;
              [right; auto|apply ledger_start]);
        pose proof (fun F => items_end e c d i f l F s) as En;
        destruct (items e c d i f l s) as [st|e1 st|]
    end.
    + destruct S50 as [D M]. repeat split; auto. intros Off.
      apply (S10 Off).
    + destruct S50 as [D M]. repeat split; auto. intros Off.
      apply (S10 Off).
    + destruct (Nat.lt_ge_cases fuel 1025) as [L|G]; [exact L|].
      exfalso. apply (En G). reflexivity.
  - intros deadline interval f cid text attempt st st'.
    apply attempts_commit.
  - intros deadline interval f cid body st A D T Sh Hn.
    unfold item, poll. rewrite A.
    replace (deadline_passed deadline _) with false by (symmetry; exact D).
    rewrite T, Sh, Hn. cbn [negb andb].
    eexists. split; [reflexivity|].
    match goal with
    | |- context [if Nat.eqb (analyzed (outcome ?s) mod 50) 0
                  then commit ?s else ?s] =>
        set (s2 := s);
        assert (C : calls s2 = calls st) by reflexivity;
        assert (An : analyzed (outcome s2) = S (analyzed (outcome st)))
          by reflexivity;
        assert (E : errors (outcome s2) = errors (outcome st))
          by reflexivity;
        assert (Du : durable s2 = durable st) by reflexivity;
        assert (St : status_of (work s2) (analysis_tag cfg) cid = Some ok)
    end.
    { unfold status_of.
      match goal with
      | |- context [status_row ?w ?t ?c] =>
          assert (R : exists row, status_row w t c = Some row /\
                                  a_status row = ok)
      end; [|destruct R as (row & -> & R); cbn; rewrite R; reflexivity].
      eexists. split; [|shelve].
      unfold s2, status_row, count_analyzed, mark_ok, mark_analyzed_ok.
      cbn [work with_work with_outcome comment_analysis].
      apply find_of_rows.
      apply (replace_analysis_rows
               {| a_tag := analysis_tag cfg; a_comment_id := cid;
                  a_model := model cfg;
                  a_analyzed_at :=
                    wall_clock env
                      {| work := work st; durable := durable st;
                         outcome := outcome st; clock := clock st;
                         next_call_at := next_call_at st;
                         polls := S (polls st); calls := calls st;
                         trace := trace st |};
                  a_status := ok; a_error := None |}).
      Unshelve. reflexivity. }
    destruct (Nat.eqb (analyzed (outcome s2) mod 50) 0) eqn:M.
    + cbn [commit outcome durable work calls]. rewrite M. tauto.
    + rewrite M. tauto.
Qed.

(** *** The validator *)

Lemma find_invalid_rejected is_real tickers : forall seen x,
  In x (Ticker.find_invalid_loop is_real seen tickers) -> is_real x = false.
Proof.
  induction tickers as [|t rest IH]; intros seen x; simpl; [intros []|].
  destruct (_ || _)%bool; [apply IH|].
  destruct (is_real (Ticker.normalize_ticker t)) eqn:R; simpl.
  - apply IH.
  - intros [<-|I]; [exact R|eapply IH, I].
Qed.

(** C8. The deletion of the validator removes mention rows only, and only
    rows of the given tag whose symbol is among the rejected ones: the
    comments and the status rows are what they were, every row left was
    there before, every row of another tag or of a symbol not rejected is
    left, and the rows are removed by statements of at most 900 symbols
    each, which together name each rejected symbol. As the run calls it, the
    symbols it removes are symbols the validity oracle rejects. *)
Theorem validator_deletes_rejected_mentions_only
        (tag : string) (tickers : list string) (tb : Tables)
        (env : Env) (st : Run) :
  (let tb' := fst (delete_mentions_for_tickers tag tickers tb) in
   let deleted := snd (delete_mentions_for_tickers tag tickers tb) in
   let ticker_list := filter PyStr.truthy (dedup [] tickers) in
   comments tb' = comments tb /\
   comment_analysis tb' = comment_analysis tb /\
   (forall r, In r (mentions tb') -> In r (mentions tb)) /\
   (forall r, In r (mentions tb) -> ~ In r (mentions tb') ->
              m_tag r = tag /\ In (m_ticker r) tickers) /\
   (forall r, In r (mentions tb) ->
              m_tag r <> tag \/ ~ In (m_ticker r) tickers ->
              In r (mentions tb')) /\
   deleted + List.length (mentions tb') = List.length (mentions tb) /\
   Forall (fun chunk => List.length chunk <= 900) (chunks ticker_list) /\
   List.concat (chunks ticker_list) = ticker_list) /\
  (let st' := _cleanup_invalid_tickers env tag st in
   comments (work st') = comments (work st) /\
   comment_analysis (work st') = comment_analysis (work st) /\
   (forall r, In r (mentions (work st')) -> In r (mentions (work st))) /\
   (forall r, In r (mentions (work st)) -> ~ In r (mentions (work st')) ->
              m_tag r = tag /\ is_real_ticker_yf env (m_ticker r) = false) /\
   (forall r, In r (mentions (work st)) -> m_tag r <> tag ->
              In r (mentions (work st'))) /\
   (forall cs, In (EvDelete cs) (trace st') ->
               In (EvDelete cs) (trace st) \/
               Forall (fun chunk => List.length chunk <= 900) cs)).
Proof.
  assert (Removed : forall tk r,
            In r (mentions tb) ->
            ~ In r (mentions (fst (delete_mentions_for_tickers tag tk tb))) ->
            m_tag r = tag /\ In (m_ticker r) tk).
  { intros tk r I NI.
    destruct (ValidatorFacts.delete_mentions_frame tag tk tb)
      as (_ & _ & F & _).
    destruct (string_dec (m_tag r) tag) as [Et|Nt].
    - split; [exact Et|].
      destruct (in_dec string_dec (m_ticker r) tk) as [It|Nk]; [exact It|].
      exfalso. apply NI, F. tauto.
    - exfalso. apply NI, F. tauto. }
  split.
  - destruct (ValidatorFacts.delete_mentions_frame tag tickers tb)
      as (C & A & F & L).
    cbv zeta.
    refine (conj C (conj A (conj _ (conj _ (conj _ (conj L (conj _ _))))))).
    + intros r I. apply F in I. tauto.
    + apply (Removed tickers).
    + intros r I H. apply F. split; [exact I|]. tauto.
    + apply ValidatorFacts.chunks_bounded.
    + apply ValidatorFacts.chunks_concat.
  - cbv zeta.
    destruct (cleanup_cases env tag st) as [E|(invalid & Ei & E)]; rewrite E.
    + refine (conj eq_refl (conj eq_refl (conj _ (conj _ (conj _ _)))));
        tauto.
    + cbn [commit with_work work trace].
      destruct (ValidatorFacts.delete_mentions_frame
                  tag (Sort.sort String.leb invalid) (work st))
        as (C & A & F & L).
      assert (Rm : forall r,
                In r (mentions (work st)) ->
                ~ In r (mentions
                          (fst (delete_mentions_for_tickers
                                  tag (Sort.sort String.leb invalid) (work st)))) ->
                m_tag r = tag /\ In (m_ticker r) (Sort.sort String.leb invalid)).
      { intros r I NI.
        destruct (string_dec (m_tag r) tag) as [Et|Nt].
        - split; [exact Et|].
          destruct (in_dec string_dec (m_ticker r)
                           (Sort.sort String.leb invalid)) as [It|Nk];
            [exact It|].
          exfalso. apply NI, F. tauto.
        - exfalso. apply NI, F. tauto. }
      refine (conj C (conj A (conj _ (conj _ (conj _ _))))).
      * intros r I. apply F in I. tauto.
      * intros r I NI. destruct (Rm r I NI) as [Et Ir].
        split; [exact Et|].
        apply SortFacts.sort_in in Ir. subst invalid.
        unfold Ticker.find_invalid_tickers in Ir.
        destruct (negb _); [destruct Ir|].
        apply (find_invalid_rejected _ _ _ _ Ir).
      * intros r I Nt. apply F. split; [exact I|]. tauto.
      * intros cs [[=]|[[= <-]|I]]; [right|left; exact I].
        apply ValidatorFacts.chunks_bounded.
Qed.

End PipelineFacts.

(** ** The properties at work *)

Module Worked.
Import Analyzer Db Pipeline Demo.
Local Open Scope list_scope.

Example normalize_sigil : Ticker.normalize_ticker "$TSLA" = "TSLA".
Proof. reflexivity. Qed.

Example normalize_prefix : Ticker.normalize_ticker "NASDAQ:aapl" = "AAPL".
Proof. reflexivity. Qed.

Example normalize_hyphen : Ticker.normalize_ticker "BRK-B" = "BRK.B".
Proof. reflexivity. Qed.

Example normalize_slash : Ticker.normalize_ticker " brk/b " = "BRK.B".
Proof. reflexivity. Qed.

Example normalize_nothing : Ticker.normalize_ticker " $ " = "".
Proof. reflexivity. Qed.

Example merge_conflict :
  merge_mentions [ {| ticker := "TSLA"; sentiment := bullish |};
                   {| ticker := "$tsla"; sentiment := bearish |} ]
  = [("TSLA", neutral)].
Proof. reflexivity. Qed.

Example merge_agreement :
  merge_mentions [ {| ticker := "TSLA"; sentiment := bullish |};
                   {| ticker := "??"; sentiment := bearish |};
                   {| ticker := "TSLA"; sentiment := bullish |} ]
  = [("TSLA", bullish)].
Proof. reflexivity. Qed.

Example hint_found : Ticker.has_finance_hint "I'm buying calls" = true.
Proof. reflexivity. Qed.

Example hint_hyphenated : Ticker.has_finance_hint "what a SELL OFF." = true.
Proof. reflexivity. Qed.

Example hint_absent : Ticker.has_finance_hint "selloffs, uploads" = false.
Proof. reflexivity. Qed.

Example selection_default :
  fetch_candidates mixed_store "default" 5000 false None false
  = [("c3", "GME up")].
Proof. reflexivity. Qed.

Example selection_retry :
  fetch_candidates mixed_store "default" 5000 true None false
  = [("c3", "GME up"); ("c2", "sell AAPL")].
Proof. reflexivity. Qed.

Example quota_error_class : classify quota_error = QuotaExhausted.
Proof. reflexivity. Qed.

(** A blank body stays a candidate: after a whole run over a store whose
    only record is blank, no call was made, the record has no status, and
    the default selection returns it again. *)
Lemma blank_body_stays_candidate :
  exists st,
    analyze quiet_env cfg 1 blank_store blank_store 0 = Returned st /\
    calls st = 0 /\
    status_of (work st) "default" "c1" <> Some ok /\
    In ("c1", "   ")
       (fetch_candidates (work st) "default" 5000 false None false).
Proof.
  eexists. split; [vm_compute; reflexivity|].
  split; [reflexivity|]. split; [discriminate|]. left. reflexivity.
Qed.

Lemma blank_body_is_skipped_witness :
  PyStr.forallb PyStr.is_space "   " = true /\
  should_abort quiet_env (polls (start blank_store blank_store 0)) = false /\
  deadline_passed None (start blank_store blank_store 0) = false /\
  exists st',
    item quiet_env cfg None 0%Q 1 ("c1", "   ") (start blank_store blank_store 0)
    = Next st' /\
    calls st' = calls (start blank_store blank_store 0) /\
    outcome st' = outcome (start blank_store blank_store 0) /\
    work st' = work (start blank_store blank_store 0) /\
    durable st' = durable (start blank_store blank_store 0) /\
    trace st' = trace (start blank_store blank_store 0) /\
    status_of (work st') (analysis_tag cfg) "c1"
    = status_of (work (start blank_store blank_store 0)) (analysis_tag cfg) "c1" /\
    (forall limit retry subs incl,
       fetch_candidates (work st') (analysis_tag cfg) limit retry subs incl
       = fetch_candidates (work (start blank_store blank_store 0))
                          (analysis_tag cfg) limit retry subs incl).
Proof.
  split; [reflexivity|]. split; [reflexivity|]. split; [reflexivity|].
  apply PipelineFacts.blank_body_is_skipped; reflexivity.
Defined.

Lemma mixed_store_pk : pk_analysis (comment_analysis mixed_store).
Proof.
  unfold pk_analysis. cbn.
  constructor; [intros [H|[]]; discriminate H|].
  constructor; [intros []|constructor].
Defined.

Lemma fetch_candidates_selection_witness :
  pk_analysis (comment_analysis mixed_store) /\
  ~ In "c1" (map fst (fetch_candidates mixed_store "default" 10 true None false)) /\
  ~ In "c2" (map fst (fetch_candidates mixed_store "default" 10 false None false)) /\
  In ("c2", "sell AAPL")
     (fetch_candidates mixed_store "default" 10 true None false).
Proof.
  split; [exact mixed_store_pk|].
  destruct (SelectorFacts.fetch_candidates_selection
              mixed_store "default" "c1" 10 true false None mixed_store_pk)
    as (Ok & _).
  destruct (SelectorFacts.fetch_candidates_selection
              mixed_store "default" "c2" 10 true false None mixed_store_pk)
    as (_ & Err & Retry & _).
  split; [apply Ok; reflexivity|].
  split; [apply Err; reflexivity|].
  apply (Retry eq_refl (comment "c2" "sell AAPL" 200)).
  - right. left. reflexivity.
  - reflexivity.
  - reflexivity.
  - right. cbn. lia.
Defined.

Lemma classifier_order_witness :
  should_abort quota_env (polls (start mixed_store mixed_store 0)) = false /\
  deadline_passed None (start mixed_store mixed_store 0) = false /\
  service quota_env (calls (start mixed_store mixed_store 0))
          (submitted_text "GME up")
  = (Raises quota_error, 0%Q) /\
  _is_retryable quota_error = true /\
  exists st',
    attempts quota_env cfg None 0%Q 1 "c3" "GME up" 0
             (start mixed_store mixed_store 0)
    = Stop (Returned st') /\
    stopped_reason (outcome st') = Some "quota" /\
    (exists row,
       status_row (work st') "default" "c3" = Some row /\
       a_status row = error /\
       a_error row
       = Some "RateLimitError: You exceeded your current quota, please check your plan") /\
    durable st' = work st' /\
    calls st' = 1.
Proof.
  split; [reflexivity|]. split; [reflexivity|]. split; [reflexivity|].
  pose proof (PipelineFacts.classifier_order
                quota_env cfg None 0%Q 0 "c3" "GME up" 0
                (start mixed_store mixed_store 0) quota_error 0%Q
                eq_refl eq_refl eq_refl) as H.
  cbv zeta in H. destruct H as [_ H].
  change (exn_class quota_error) with RateLimitError in H. cbv iota in H.
  match type of H with
  | (if ?b then _ else _) => replace b with true in H by reflexivity
  end.
  cbv beta in H.
  destruct H as (R & st' & E & Rs & (row & Row & _ & Re & Rd) & D & C & _).
  split; [exact R|]. exists st'.
  split; [exact E|]. split; [exact Rs|].
  split; [|split; [exact D|exact C]].
  exists row. split; [exact Row|]. split; [exact Re|exact Rd].
Defined.


(** With the keyword shortcut on, eleven records marked "ok" wait for the
    commit at the end of the run. *)
Lemma shortcut_outruns_ten :
  exists st,
    analyze shortcut_env cfg 1 chatter_store chatter_store 0 = Returned st /\
    analyzed (outcome st) = 11 /\
    calls st = 0 /\
    ~ max_pending_ok (trace st) <= 10.
Proof.
  eexists. split; [vm_compute; reflexivity|].
  split; [reflexivity|]. split; [reflexivity|]. vm_compute. lia.
Qed.

End Worked.

(** ** More on symbols and hints *)

Module TickerMore.
Import PyStr PyStrFacts Ticker TickerFacts Hints.
Local Open Scope list_scope.

Lemma map_map (f g : ascii -> ascii) s : map f (map g s) = map (fun c => f (g c)) s.
Proof. induction s as [|c s IH]; simpl; [|rewrite IH]; reflexivity. Qed.

Lemma map_ext (f g : ascii -> ascii) s :
  (forall c, f c = g c) -> map f s = map g s.
Proof.
  intros H. induction s as [|c s IH]; simpl; [|rewrite H, IH]; reflexivity.
Qed.

Lemma map_app (f : ascii -> ascii) a b :
  map f (a ++ b)%string = (map f a ++ map f b)%string.
Proof. induction a as [|c a IH]; simpl; [|rewrite IH]; reflexivity. Qed.

Lemma forallb_app (p : ascii -> bool) a b :
  forallb p (a ++ b)%string = (forallb p a && forallb p b)%bool.
Proof.
  induction a as [|c a IH]; simpl; [reflexivity|].
  rewrite IH, andb_assoc. reflexivity.
Qed.

Section Mapped.
Variable f : ascii -> ascii.
Hypothesis f_space : forall c, is_space (f c) = is_space c.

Lemma lstrip_map s : lstrip (map f s) = map f (lstrip s).
Proof.
  induction s as [|c s IH]; simpl; [reflexivity|].
  rewrite f_space. destruct (is_space c); [exact IH|reflexivity].
Qed.

Lemma rstrip_map s : rstrip (map f s) = map f (rstrip s).
Proof.
  induction s as [|c s IH]; simpl; [reflexivity|].
  rewrite IH, f_space. destruct (rstrip s); simpl; [|reflexivity].
  destruct (is_space c); reflexivity.
Qed.

Lemma strip_map s : strip (map f s) = map f (strip s).
Proof. unfold strip. rewrite lstrip_map, rstrip_map. reflexivity. Qed.

End Mapped.

Lemma is_space_upper c : is_space (upper_char c) = is_space c.
Proof. by_cases_on_char c. Qed.

Lemma is_space_lower c : is_space (lower_char c) = is_space c.
Proof. by_cases_on_char c. Qed.

Lemma upper_upper c : upper_char (upper_char c) = upper_char c.
Proof. by_cases_on_char c. Qed.

Lemma upper_lower c : upper_char (lower_char c) = upper_char c.
Proof. by_cases_on_char c. Qed.

(** [normalize_ticker] reads its argument through [strip] and [upper]. *)
Lemma normalize_through s s' :
  upper (strip s) = upper (strip s') -> normalize_ticker s = normalize_ticker s'.
Proof. intros H. rewrite !normalize_ticker_unfold, H. reflexivity. Qed.

(** *** Whitespace around a string *)

Lemma lstrip_blank p : forallb is_space p = true -> lstrip p = "".
Proof.
  induction p as [|c p IH]; simpl; [reflexivity|].
  intros H. apply andb_true_iff in H as [H1 H2]. rewrite H1. auto.
Qed.

Lemma rstrip_blank p : forallb is_space p = true -> rstrip p = "".
Proof.
  induction p as [|c p IH]; simpl; [reflexivity|].
  intros H. apply andb_true_iff in H as [H1 H2]. rewrite (IH H2), H1.
  reflexivity.
Qed.

Lemma lstrip_app_blank p x :
  forallb is_space p = true -> lstrip (p ++ x)%string = lstrip x.
Proof.
  induction p as [|c p IH]; simpl; [reflexivity|].
  intros H. apply andb_true_iff in H as [H1 H2]. rewrite H1. auto.
Qed.

Lemma rstrip_app_blank x p :
  forallb is_space p = true -> rstrip (x ++ p)%string = rstrip x.
Proof.
  intros H. induction x as [|c x IH]; simpl; [apply rstrip_blank, H|].
  rewrite IH. reflexivity.
Qed.

Lemma strip_app_blank s p :
  forallb is_space p = true ->
  rstrip (lstrip (s ++ p)%string) = rstrip (lstrip s).
Proof.
  intros H. induction s as [|c s IH]; simpl.
  - rewrite (lstrip_blank p H). reflexivity.
  - destruct (is_space c); [exact IH|].
    apply (rstrip_app_blank (String c s) p H).
Qed.

Lemma strip_padding p1 s p2 :
  forallb is_space p1 = true -> forallb is_space p2 = true ->
  strip (p1 ++ s ++ p2)%string = strip s.
Proof.
  intros H1 H2. unfold strip.
  rewrite (lstrip_app_blank p1 _ H1). apply strip_app_blank, H2.
Qed.

(** For a symbol written in ASCII, normalization does not see the case of
    the letters nor the whitespace around the symbol. *)
Theorem normalize_ticker_ignores_case_and_padding (s p1 p2 : string) :
  is_ascii s = true ->
  forallb is_space p1 = true -> forallb is_space p2 = true ->
  normalize_ticker (upper s) = normalize_ticker s /\
  normalize_ticker (lower s) = normalize_ticker s /\
  normalize_ticker (p1 ++ s ++ p2)%string = normalize_ticker s.
Proof.
  intros _ H1 H2. split; [|split]; apply normalize_through.
  - unfold upper. rewrite (strip_map _ is_space_upper), map_map.
    apply map_ext, upper_upper.
  - unfold upper, lower. rewrite (strip_map _ is_space_lower), map_map.
    apply map_ext, upper_lower.
  - rewrite (strip_padding _ _ _ H1 H2). reflexivity.
Qed.

(** *** Sigil and market prefix *)

Lemma span_app (p : ascii -> bool) a b :
  forallb p a = true ->
  match b with EmptyString => True | String c _ => p c = false end ->
  span p (a ++ b)%string = (a, b).
Proof.
  intros Ha Hb. induction a as [|c a IH]; simpl in *.
  - destruct b as [|d b]; simpl; [reflexivity|]. rewrite Hb. reflexivity.
  - apply andb_true_iff in Ha as [H1 H2]. rewrite H1, (IH H2). reflexivity.
Qed.

Lemma symbol_tail_fixed t :
  forallb symbol_char t = true ->
  replace_char "/" "." (filter kept_char t) = t.
Proof.
  intros A. rewrite filter_fixed.
  - unfold replace_char. revert A. apply map_fixed, symbol_char_slash.
  - revert A. apply forallb_impl, symbol_char_kept.
Qed.

Lemma letter_not_space c : is_letter c = true -> negb (is_space c) = true.
Proof. by_cases_on_char c. Qed.

Lemma letter_upper c : is_letter c = true -> is_upper (upper_char c) = true.
Proof. by_cases_on_char c. Qed.

Lemma symbol_char_not_colon c :
  symbol_char c = true -> Ascii.eqb c ":" = false.
Proof. by_cases_on_char c. Qed.

(** A sigil, or a market prefix and its colon, in front of a normalized
    symbol is removed by the normalization. *)
Theorem normalize_ticker_strips_sigil_and_prefix (s market : string) :
  market <> "" -> forallb is_letter market = true ->
  normalize_ticker (String "$" (normalize_ticker s)) = normalize_ticker s /\
  normalize_ticker (market ++ String ":" (normalize_ticker s))%string
  = normalize_ticker s.
Proof.
  intros Hne Hm.
  pose proof (normalize_ticker_alphabet s) as A.
  pose proof (normalize_ticker_not_share_class s) as SC.
  set (t := normalize_ticker s) in *.
  assert (Nsp : forallb (fun c => negb (is_space c)) t = true).
  { revert A. apply forallb_impl, symbol_char_not_space. }
  assert (Up : upper t = t).
  { unfold upper. revert A. apply map_fixed, symbol_char_upper. }
  assert (Pre : strip_market_prefix t = t).
  { unfold strip_market_prefix.
    pose proof (span_rest is_upper _ t A) as R.
    destruct (span is_upper t) as [a b]; simpl in R.
    destruct a; [reflexivity|]. destruct b as [|d b]; [reflexivity|].
    simpl in R. apply andb_true_iff in R as [R _].
    apply symbol_char_not_colon in R.
    destruct d as [[] [] [] [] [] [] [] []]; try reflexivity; discriminate R. }
  split.
  - rewrite normalize_ticker_unfold.
    rewrite strip_fixed by (simpl; rewrite Nsp; reflexivity).
    change (upper (String "$" t)) with (String "$" (upper t)). rewrite Up.
    change (negb (truthy (String "$" t))) with false. cbv iota.
    assert (B : before_share_class (String "$" t) = t).
    { unfold before_share_class.
      replace (startswith "$" (String "$" t)) with true
        by (unfold startswith; simpl; destruct t; reflexivity).
      change (drop 1 (String "$" t)) with t.
      rewrite Pre. apply symbol_tail_fixed, A. }
    rewrite B, SC. reflexivity.
  - rewrite normalize_ticker_unfold.
    assert (Nm : forallb (fun c => negb (is_space c)) market = true).
    { revert Hm. apply forallb_impl, letter_not_space. }
    rewrite strip_fixed
      by (rewrite forallb_app; simpl; rewrite Nm, Nsp; reflexivity).
    assert (Um : forallb is_upper (map upper_char market) = true).
    { rewrite forallb_map. revert Hm. apply forallb_impl, letter_upper. }
    assert (EU : upper (market ++ String ":" t)%string
                 = (map upper_char market ++ String ":" t)%string).
    { unfold upper. rewrite map_app. simpl map. fold (upper t).
      rewrite Up. reflexivity. }
    rewrite EU. clear EU.
    set (M := map upper_char market) in *.
    assert (Mne : exists c r, M = String c r).
    { subst M. destruct market as [|c r]; [contradiction|].
      simpl. eauto. }
    destruct Mne as (c & r & EM).
    assert (T : truthy (M ++ String ":" t)%string = true)
      by (rewrite EM; reflexivity).
    rewrite T. cbv iota. simpl negb. cbv iota.
    assert (B : before_share_class (M ++ String ":" t)%string = t).
    { unfold before_share_class.
      assert (D : startswith "$" (M ++ String ":" t)%string = false).
      { rewrite EM in *. simpl in Um. apply andb_true_iff in Um as [U _].
        clear - U. simpl.
        destruct c as [[] [] [] [] [] [] [] []]; try reflexivity; discriminate U. }
      rewrite D. unfold strip_market_prefix.
      rewrite (span_app is_upper M (String ":" t) Um eq_refl).
      rewrite EM. apply symbol_tail_fixed, A. }
    rewrite B, SC. reflexivity.
Qed.

(** *** The validity check *)

Lemma existsb_in x l : existsb (String.eqb x) l = true <-> In x l.
Proof.
  rewrite existsb_exists. split.
  - intros (y & I & E). apply String.eqb_eq in E. congruence.
  - intros I. exists x. split; [exact I|apply String.eqb_refl].
Qed.

Lemma find_invalid_loop_in is_real tickers : forall seen x,
  In x (find_invalid_loop is_real seen tickers) <->
  x <> "" /\ is_real x = false /\ ~ In x seen /\
  exists t, In t tickers /\ normalize_ticker t = x.
Proof.
  induction tickers as [|t rest IH]; intros seen x; simpl.
  - split; [intros []|intros (_ & _ & _ & t & [] & _)].
  - destruct (truthy (normalize_ticker t)) eqn:T; simpl.
    + apply AnalyzerFacts.truthy_nonempty in T.
      destruct (existsb (String.eqb (normalize_ticker t)) seen) eqn:S.
      * apply existsb_in in S. rewrite IH. split.
        -- intros (A & B & C & u & I & E). repeat split; eauto.
        -- intros (A & B & C & u & [<-|I] & E); [subst x; contradiction|].
           repeat split; eauto.
      * assert (NS : ~ In (normalize_ticker t) seen)
          by (rewrite <- existsb_in; congruence).
        destruct (is_real (normalize_ticker t)) eqn:R; simpl; rewrite ?IH.
        -- split.
           ++ intros (A & B & C & u & I & E). simpl in C.
              repeat split; eauto.
           ++ intros (A & B & C & u & [<-|I] & E); [congruence|].
              repeat split; auto; [|eauto].
              simpl. intros [<-|H]; [congruence|contradiction].
        -- split.
           ++ intros [<-|(A & B & C & u & I & E)].
              ** repeat split; eauto.
              ** simpl in C. repeat split; eauto.
           ++ intros (A & B & C & u & [<-|I] & E); [left; exact E|].
              destruct (string_dec (normalize_ticker t) x) as [->|N];
                [left; reflexivity|right].
              repeat split; auto; [|eauto].
              simpl. intros [H|H]; [congruence|contradiction].
    + rewrite IH. split.
      * intros (A & B & C & u & I & E). repeat split; eauto.
      * intros (A & B & C & u & [<-|I] & E).
        -- subst x. apply AnalyzerFacts.truthy_nonempty in A. congruence.
        -- repeat split; eauto.
Qed.

Lemma find_invalid_loop_nodup is_real tickers : forall seen,
  NoDup (find_invalid_loop is_real seen tickers).
Proof.
  induction tickers as [|t rest IH]; intros seen; simpl; [constructor|].
  destruct (_ || _)%bool; [apply IH|].
  destruct (negb _); [|apply IH].
  constructor; [|apply IH].
  intros I. apply find_invalid_loop_in in I as (_ & _ & C & _).
  apply C. simpl; auto.
Qed.

(** [find_invalid_tickers] returns nothing when the validation is off; when
    it is on it returns, each once, the non-empty normalized forms of the
    given symbols that the oracle does not know. *)
Theorem find_invalid_tickers_exact
        (is_real : string -> bool) (tickers : list string) :
  find_invalid_tickers false is_real tickers = [] /\
  NoDup (find_invalid_tickers true is_real tickers) /\
  (forall x, In x (find_invalid_tickers true is_real tickers) <->
             x <> "" /\ is_real x = false /\
             exists t, In t tickers /\ normalize_ticker t = x).
Proof.
  split; [reflexivity|]. split.
  - apply find_invalid_loop_nodup.
  - intros x. unfold find_invalid_tickers. simpl.
    rewrite find_invalid_loop_in. simpl. tauto.
Qed.

End TickerMore.

(** ** More on the keyword shortcut *)

Module HintFacts.
Import PyStr PyStrFacts Ticker Hints.
Local Open Scope list_scope.

Section Mapped.
Variable f : ascii -> ascii.
Hypothesis f_lower : forall c, lower_char (f c) = lower_char c.
Hypothesis f_word : forall c, is_word_char (f c) = is_word_char c.
Hypothesis f_separator : forall c, is_separator (f c) = is_separator c.

Lemma head_map s : head (map f s) = option_map f (head s).
Proof. destruct s; reflexivity. Qed.

Lemma boundary_map p n :
  boundary (option_map f p) (option_map f n) = boundary p n.
Proof.
  unfold boundary. destruct p, n; simpl; rewrite ?f_word; reflexivity.
Qed.

Lemma match_literal_map w : forall prev s,
  match_literal w (option_map f prev) (map f s)
  = option_map (fun pr => (option_map f (fst pr), map f (snd pr)))
               (match_literal w prev s).
Proof.
  induction w as [|a w IH]; intros prev s; simpl; [reflexivity|].
  destruct s as [|c s]; simpl; [reflexivity|].
  rewrite f_lower. destruct (Ascii.eqb _ _); [|reflexivity].
  apply (IH (Some c) s).
Qed.

Lemma match_alternative_map parts : forall prev s,
  match_alternative parts (option_map f prev) (map f s)
  = match_alternative parts prev s.
Proof.
  induction parts as [|p rest IH]; intros prev s.
  - simpl. rewrite head_map. apply boundary_map.
  - cbn [match_alternative]. rewrite match_literal_map.
    destruct (match_literal p prev s) as [[prev' s']|]; [|reflexivity].
    cbn [option_map fst snd].
    destruct rest as [|q rest'].
    + rewrite head_map. apply boundary_map.
    + rewrite (IH prev' s'). f_equal.
      destruct s' as [|c s'']; [reflexivity|].
      cbn [map]. rewrite f_separator. f_equal. apply (IH (Some c) s'').
Qed.

Lemma alternatives_map alts prev s :
  existsb (fun parts => match_alternative parts (option_map f prev) (map f s))
          alts
  = existsb (fun parts => match_alternative parts prev s) alts.
Proof.
  induction alts as [|a alts IHa]; simpl; [reflexivity|].
  rewrite IHa, match_alternative_map. reflexivity.
Qed.

Lemma search_map alts s : forall prev,
  search alts (option_map f prev) (map f s) = search alts prev s.
Proof.
  induction s as [|c s IH]; intros prev.
  - cbn [search map head].
    pose proof (alternatives_map alts prev "") as E. cbn [map] in E.
    rewrite E, <- (boundary_map prev None). reflexivity.
  - cbn [search map head].
    pose proof (alternatives_map alts prev (String c s)) as E.
    cbn [map] in E.
    pose proof (IH (Some c)) as E2. cbn [option_map] in E2.
    rewrite E, E2, <- (boundary_map prev (Some c)). reflexivity.
Qed.

End Mapped.

Lemma lower_upper c : lower_char (upper_char c) = lower_char c.
Proof. by_cases_on_char c. Qed.

Lemma lower_lower c : lower_char (lower_char c) = lower_char c.
Proof. by_cases_on_char c. Qed.

Lemma word_upper c : is_word_char (upper_char c) = is_word_char c.
Proof. by_cases_on_char c. Qed.

Lemma word_lower c : is_word_char (lower_char c) = is_word_char c.
Proof. by_cases_on_char c. Qed.

Lemma separator_upper c : is_separator (upper_char c) = is_separator c.
Proof. by_cases_on_char c. Qed.

Lemma separator_lower c : is_separator (lower_char c) = is_separator c.
Proof. by_cases_on_char c. Qed.

Lemma truthy_map f s : truthy (map f s) = truthy s.
Proof. destruct s; reflexivity. Qed.

(** Whether a text written in ASCII holds a finance term does not depend on
    the case of its letters. *)
Theorem has_finance_hint_ignores_case (text : string) :
  is_ascii text = true ->
  has_finance_hint (upper text) = has_finance_hint text /\
  has_finance_hint (lower text) = has_finance_hint text.
Proof.
  intros _.
  unfold has_finance_hint, upper, lower. rewrite !truthy_map. split; f_equal.
  - apply (search_map upper_char lower_upper word_upper separator_upper
             _FINANCE_HINTS text None).
  - apply (search_map lower_char lower_lower word_lower separator_lower
             _FINANCE_HINTS text None).
Qed.

(** *** The order of the alternatives *)

Lemma existsb_same {A} (p : A -> bool) l1 l2 :
  (forall x, In x l1 <-> In x l2) -> existsb p l1 = existsb p l2.
Proof.
  intros H. apply eq_true_iff_eq. rewrite !existsb_exists.
  split; intros (x & I & P); exists x; split; auto; apply H, I.
Qed.

Lemma search_same alts1 alts2 s :
  (forall a, In a alts1 <-> In a alts2) ->
  forall prev, search alts1 prev s = search alts2 prev s.
Proof.
  intros H. induction s as [|c s IH]; intros prev; cbn [search].
  - rewrite (existsb_same _ alts1 alts2 H). reflexivity.
  - rewrite (existsb_same _ alts1 alts2 H), IH. reflexivity.
Qed.

Lemma ordered_same words a :
  In a (compile_hints_ordered words) <-> In a (_compile_hints words).
Proof.
  unfold compile_hints_ordered, _compile_hints, cleaned.
  rewrite !in_map_iff. split; intros (w & E & I); exists w; split; auto.
  - apply SortFacts.sort_in, ValidatorFacts.dedup_in in I. tauto.
  - apply SortFacts.sort_in, ValidatorFacts.dedup_in. simpl. tauto.
Qed.

(** The pattern [_compile_hints] builds, with the repeated words removed and
    the alternatives sorted by decreasing length, is found in the texts in
    which the plain list of the alternatives is found: the order and the
    repetitions of the vocabulary do not change what [has_finance_hint]
    answers. *)
Theorem compile_hints_order_is_immaterial (words : list string) (text : string) :
  search (compile_hints_ordered words) None text
  = search (_compile_hints words) None text /\
  has_finance_hint text
  = (truthy text && search (compile_hints_ordered _HINT_WORDS_RAW) None text)%bool.
Proof.
  split.
  - apply search_same, ordered_same.
  - unfold has_finance_hint, _FINANCE_HINTS. f_equal. symmetry.
    apply search_same, ordered_same.
Qed.

End HintFacts.

(** ** More on the merge *)

Module MergeFacts.
Import Analyzer AnalyzerFacts Db Remerge.
Local Open Scope list_scope.

Lemma dict_set_present k v d :
  In k (map fst d) -> map fst (dict_set k v d) = map fst d.
Proof.
  induction d as [|[k0 v0] d IH]; simpl; [intros []|].
  destruct (String.eqb k0 k) eqn:E; simpl; [reflexivity|].
  intros [H|H]; [apply String.eqb_neq in E; congruence|].
  rewrite (IH H). reflexivity.
Qed.

Lemma dict_set_absent k v d :
  ~ In k (map fst d) -> dict_set k v d = d ++ [(k, v)].
Proof.
  induction d as [|[k0 v0] d IH]; simpl; [reflexivity|].
  intros H. destruct (String.eqb k0 k) eqn:E.
  - apply String.eqb_eq in E. tauto.
  - rewrite IH by tauto. reflexivity.
Qed.

Lemma dedup_same l : forall s1 s2,
  (forall x, In x s1 <-> In x s2) -> dedup s1 l = dedup s2 l.
Proof.
  induction l as [|y l IH]; intros s1 s2 H; simpl; [reflexivity|].
  rewrite (HintFacts.existsb_same (String.eqb y) s1 s2 H).
  destruct (existsb _ s2); [apply IH, H|].
  f_equal. apply IH. intros x. simpl. rewrite H. reflexivity.
Qed.

Lemma merge_step_keys out m :
  map fst (merge_step out m)
  = map fst out ++ dedup (map fst out) (filter PyStr.truthy [norm m]).
Proof.
  unfold merge_step. fold (norm m). simpl.
  destruct (PyStr.truthy (norm m)) eqn:T; simpl; [|symmetry; apply app_nil_r].
  destruct (existsb (String.eqb (norm m)) (map fst out)) eqn:X.
  - apply ValidatorFacts.existsb_eqb_in in X. rewrite app_nil_r.
    destruct (dict_get (norm m) out) as [s0|];
      [destruct (negb _)|]; apply dict_set_present, X.
  - assert (N : ~ In (norm m) (map fst out))
      by (rewrite <- ValidatorFacts.existsb_eqb_in; congruence).
    destruct (dict_get (norm m) out) as [s0|] eqn:G.
    + exfalso. apply N, dict_get_keys. eauto.
    + rewrite (dict_set_absent _ _ _ N), map_app. reflexivity.
Qed.

Lemma merge_keys ms : forall out,
  map fst (fold_left merge_step ms out)
  = map fst out ++ dedup (map fst out) (filter PyStr.truthy (map norm ms)).
Proof.
  induction ms as [|m ms IH]; intros out; simpl; [symmetry; apply app_nil_r|].
  rewrite IH, merge_step_keys. simpl.
  destruct (PyStr.truthy (norm m)); simpl; [|rewrite app_nil_r; reflexivity].
  destruct (existsb (String.eqb (norm m)) (map fst out)) eqn:X.
  - rewrite app_nil_r. reflexivity.
  - rewrite <- app_assoc. simpl. f_equal. f_equal. apply dedup_same.
    intros x. rewrite in_app_iff. simpl. tauto.
Qed.

(** The merged mentions come in the order in which their symbols first occur
    in the answer of the service. *)
Theorem merge_mentions_first_occurrence_order (ms : list Mention) :
  map fst (merge_mentions ms)
  = dedup [] (filter PyStr.truthy
                     (map (fun m => Ticker.normalize_ticker (ticker m)) ms)).
Proof. unfold merge_mentions. rewrite merge_keys. reflexivity. Qed.

(** *** Merging what was merged *)

Lemma merge_fresh d2 : forall d1,
  NoDup (map fst (d1 ++ d2)) ->
  (forall k v, In (k, v) d2 -> Ticker.normalize_ticker k = k /\ k <> "") ->
  fold_left merge_step (map as_mention d2) d1 = d1 ++ d2.
Proof.
  induction d2 as [|[k v] d2 IH]; intros d1 N H; simpl.
  - symmetry. apply app_nil_r.
  - destruct (H k v (or_introl eq_refl)) as [Fx Ne].
    assert (Nk : ~ In k (map fst d1)).
    { rewrite map_app in N. simpl in N. apply NoDup_remove_2 in N.
      intros I. apply N, in_or_app. auto. }
    assert (St : merge_step d1 (as_mention (k, v)) = d1 ++ [(k, v)]).
    { unfold merge_step, as_mention. simpl. rewrite Fx.
      apply truthy_nonempty in Ne. rewrite Ne. simpl.
      destruct (dict_get k d1) as [s0|] eqn:G.
      - exfalso. apply Nk, dict_get_keys. eauto.
      - exact (dict_set_absent k v d1 Nk). }
    rewrite St, IH.
    + rewrite <- app_assoc. reflexivity.
    + rewrite <- app_assoc. exact N.
    + intros k' v' I. apply (H k' v'). simpl; auto.
Qed.

Lemma normalized_twice x :
  Ticker.normalize_ticker (Ticker.normalize_ticker x) = Ticker.normalize_ticker x.
Proof.
  apply TickerFacts.normalize_ticker_fixed.
  - apply TickerFacts.normalize_ticker_alphabet.
  - apply TickerFacts.normalize_ticker_not_share_class.
Qed.

Lemma merged_key ms t s :
  In (t, s) (merge_mentions ms) -> Ticker.normalize_ticker t = t /\ t <> "".
Proof.
  intros I. apply in_merge_resolve in I.
  assert (Ne : t <> "").
  { intros ->. rewrite resolve_empty_key in I. discriminate. }
  split; [|exact Ne].
  destruct (existsb (fun m => String.eqb (norm m) t) ms) eqn:X.
  - apply existsb_exists in X as (m & _ & E). apply String.eqb_eq in E.
    rewrite <- E. apply normalized_twice.
  - rewrite resolve_none in I; [discriminate|].
    intros m Im E. apply String.eqb_eq in E.
    assert (existsb (fun m => String.eqb (norm m) t) ms = true)
      by (apply existsb_exists; eauto).
    congruence.
Qed.

(** A merged result given back as the answer of the service is merged into
    itself: the merge adds nothing to what it has produced. *)
Theorem merge_mentions_of_merged (ms : list Mention) :
  merge_mentions (map as_mention (merge_mentions ms)) = merge_mentions ms.
Proof.
  unfold merge_mentions at 1.
  rewrite (merge_fresh (merge_mentions ms) []).
  - reflexivity.
  - simpl. unfold merge_mentions. apply merge_nodup. constructor.
  - intros k v I. apply (merged_key ms k v I).
Qed.

End MergeFacts.

(** ** More on the store *)

Module SortMore.
Local Open Scope list_scope.

Lemma insert_perm {A} (leb : A -> A -> bool) x l :
  Permutation (Sort.insert leb x l) (x :: l).
Proof.
  induction l as [|y l IH]; simpl; [reflexivity|].
  destruct (leb x y); [reflexivity|].
  rewrite IH. apply perm_swap.
Qed.

Lemma sort_perm {A} (leb : A -> A -> bool) l :
  Permutation (Sort.sort leb l) l.
Proof.
  induction l as [|x l IH]; simpl; [reflexivity|].
  rewrite insert_perm, IH. reflexivity.
Qed.

Lemma firstn_nodup {A} n (l : list A) : NoDup l -> NoDup (firstn n l).
Proof.
  revert l. induction n as [|n IH]; intros [|x l] N; simpl; try constructor.
  - inversion N; subst. intros I. apply SortFacts.firstn_in in I. contradiction.
  - inversion N; subst. auto.
Qed.

Lemma sql_limit_nodup {A} limit (l : list A) :
  NoDup l -> NoDup (Db.sql_limit limit l).
Proof.
  unfold Db.sql_limit. destruct (Z.ltb limit 0); [auto|apply firstn_nodup].
Qed.

Lemma list_sum_perm l1 l2 : Permutation l1 l2 -> list_sum l1 = list_sum l2.
Proof. induction 1; simpl; lia. Qed.

Lemma dedup_nodup l : forall seen, NoDup (Db.dedup seen l).
Proof.
  induction l as [|x l IH]; intros seen; simpl; [constructor|].
  destruct (existsb _ seen); [apply IH|].
  constructor; [|apply IH].
  intros I. apply ValidatorFacts.dedup_in in I as [_ N]. apply N. simpl; auto.
Qed.

Lemma find_app {A} (p : A -> bool) a b :
  find p (a ++ b) = match find p a with Some x => Some x | None => find p b end.
Proof.
  induction a as [|x a IH]; simpl; [reflexivity|].
  destruct (p x); [reflexivity|exact IH].
Qed.

Lemma find_filter_out {A} (p q : A -> bool) l :
  (forall x, p x = true -> q x = false) -> find p (filter q l) = None.
Proof.
  intros H. induction l as [|x l IH]; simpl; [reflexivity|].
  destruct (q x) eqn:Q; simpl; [|exact IH].
  destruct (p x) eqn:P; [|exact IH]. rewrite (H x P) in Q. discriminate.
Qed.

Lemma find_filter_keep {A} (p q : A -> bool) l :
  (forall x, p x = true -> q x = true) -> find p (filter q l) = find p l.
Proof.
  intros H. induction l as [|x l IH]; simpl; [reflexivity|].
  destruct (q x) eqn:Q; simpl.
  - destruct (p x); [reflexivity|exact IH].
  - destruct (p x) eqn:P; [|exact IH]. rewrite (H x P) in Q. discriminate.
Qed.

End SortMore.

Module AppStateFacts.
Import Db DbMore SortMore.
Local Open Scope list_scope.

(** The run-state table is read as it was last written: a value set for a
    key is the value got for it, except the empty string, which is got as
    no value; the other keys keep their values, the key has one row, and a
    value set over another leaves what the last alone would leave. *)
Theorem app_state_round_trip (key value value' key' : string) (t : AppState) :
  get_app_state key (set_app_state key value t)
  = (if PyStr.truthy value then Some value else None) /\
  (key' <> key ->
   get_app_state key' (set_app_state key value t) = get_app_state key' t) /\
  set_app_state key value' (set_app_state key value t)
  = set_app_state key value' t /\
  filter (fun r => String.eqb (fst r) key) (set_app_state key value t)
  = [(key, value)].
Proof.
  unfold get_app_state, set_app_state. split; [|split; [|split]].
  - rewrite find_app, find_filter_out.
    + simpl. rewrite String.eqb_refl. reflexivity.
    + intros x H. rewrite H. reflexivity.
  - intros N. rewrite find_app, find_filter_keep.
    + destruct (find _ t); [reflexivity|]. simpl.
      replace (String.eqb key key') with false; [reflexivity|].
      symmetry. apply String.eqb_neq. congruence.
    + intros x H. apply String.eqb_eq in H. apply negb_true_iff.
      apply String.eqb_neq. congruence.
  - rewrite filter_app, DbFacts.filter_filter. simpl.
    rewrite String.eqb_refl. simpl. rewrite app_nil_r. f_equal.
    apply filter_ext. intros x. destruct (String.eqb (fst x) key); reflexivity.
  - rewrite filter_app, DbFacts.filter_filter. simpl.
    rewrite String.eqb_refl. rewrite DbFacts.filter_nil; [reflexivity|].
    intros x _. destruct (String.eqb (fst x) key); reflexivity.
Qed.

End AppStateFacts.

Module CommentFacts.
Import Analyzer Db DbFacts SortMore.
Local Open Scope list_scope.

Lemma has_id_in id (t : list Comment) :
  existsb (fun x => String.eqb (comment_id x) id) t = true
  <-> In id (map comment_id t).
Proof.
  rewrite existsb_exists, in_map_iff. split.
  - intros (x & I & E). apply String.eqb_eq in E. eauto.
  - intros (x & E & I). exists x. split; [exact I|].
    rewrite E. apply String.eqb_refl.
Qed.

Lemma insert_or_ignore_spec c t :
  (In (comment_id c) (map comment_id t) /\ insert_or_ignore_comment c t = t) \/
  (~ In (comment_id c) (map comment_id t) /\
   insert_or_ignore_comment c t = t ++ [c]).
Proof.
  unfold insert_or_ignore_comment.
  destruct (existsb _ t) eqn:E.
  - left. split; [apply has_id_in, E|reflexivity].
  - right. split; [|reflexivity]. rewrite <- has_id_in. congruence.
Qed.

Lemma tables_eta tb : set_comments (comments tb) tb = tb.
Proof. destruct tb; reflexivity. Qed.

Lemma bulk_comments rows : forall tb,
  comments (save_comments_bulk rows tb)
  = fold_left (fun t c => insert_or_ignore_comment c t) rows (comments tb) /\
  comment_analysis (save_comments_bulk rows tb) = comment_analysis tb /\
  mentions (save_comments_bulk rows tb) = mentions tb.
Proof.
  unfold save_comments_bulk.
  induction rows as [|c rows IH]; intros tb; simpl; [auto|].
  destruct (IH (save_comment c tb)) as (C & A & M).
  rewrite C, A, M. auto.
Qed.

Lemma fold_ignore_spec rows : forall t,
  pk_comments t ->
  exists added,
    fold_left (fun t c => insert_or_ignore_comment c t) rows t = t ++ added /\
    incl added rows /\
    pk_comments (t ++ added) /\
    (forall c, In c rows -> In (comment_id c) (map comment_id (t ++ added))).
Proof.
  induction rows as [|c rows IH]; intros t N; simpl.
  - exists []. rewrite app_nil_r. repeat split; auto.
    + intros x [].
    + intros c [].
  - destruct (insert_or_ignore_spec c t) as [[I E]|[NI E]]; rewrite E.
    + destruct (IH t N) as (added & F & Inc & P & Cov).
      exists added. repeat split; auto.
      * intros x Hx. right. apply Inc, Hx.
      * intros c' [<-|Hc]; [|apply Cov, Hc].
        rewrite map_app. apply in_or_app. auto.
    + assert (N' : pk_comments (t ++ [c])).
      { unfold pk_comments in *. rewrite map_app. simpl.
        apply NoDup_app; [exact N|constructor; [intros []|constructor]|].
        intros x Hx [<-|[]]. contradiction. }
      destruct (IH (t ++ [c]) N') as (added & F & Inc & P & Cov).
      exists (c :: added). rewrite F, <- app_assoc. simpl.
      rewrite <- app_assoc in P, Cov. simpl in P, Cov.
      repeat split; auto.
      * intros x [<-|Hx]; [left; reflexivity|right; apply Inc, Hx].
      * intros c' [<-|Hc]; [|apply Cov, Hc].
        rewrite map_app. apply in_or_app. right. simpl. auto.
Qed.

Lemma fold_ignore_present rows : forall t,
  (forall c, In c rows -> In (comment_id c) (map comment_id t)) ->
  fold_left (fun t c => insert_or_ignore_comment c t) rows t = t.
Proof.
  induction rows as [|c rows IH]; intros t H; simpl; [reflexivity|].
  destruct (insert_or_ignore_spec c t) as [[I E]|[NI E]]; rewrite E.
  - apply IH. intros c' Hc. apply H. simpl; auto.
  - exfalso. apply NI, H. simpl; auto.
Qed.

(** [save_comments_bulk] only adds: the comments that were stored stay as
    they are and in their place, also when a row of the same id comes again;
    what is added comes from the given rows; the primary key is kept; every
    given id is stored afterwards; the other tables are not touched; and
    saving the same rows again changes nothing. *)
Theorem save_comments_bulk_only_adds (rows : list Comment) (tb : Tables) :
  pk_comments (comments tb) ->
  (exists added,
     comments (save_comments_bulk rows tb) = comments tb ++ added /\
     incl added rows) /\
  pk_comments (comments (save_comments_bulk rows tb)) /\
  (forall c, In c rows ->
             In (comment_id c)
                (map comment_id (comments (save_comments_bulk rows tb)))) /\
  (forall id c0,
     find (fun c => String.eqb (comment_id c) id) (comments tb) = Some c0 ->
     find (fun c => String.eqb (comment_id c) id)
          (comments (save_comments_bulk rows tb)) = Some c0) /\
  comment_analysis (save_comments_bulk rows tb) = comment_analysis tb /\
  mentions (save_comments_bulk rows tb) = mentions tb /\
  save_comments_bulk rows (save_comments_bulk rows tb)
  = save_comments_bulk rows tb.
Proof.
  intros N. destruct (bulk_comments rows tb) as (C & A & M).
  destruct (fold_ignore_spec rows (comments tb) N) as (added & F & Inc & P & Cov).
  rewrite <- C in F. split; [eauto|]. split; [rewrite F; exact P|].
  split; [rewrite F; exact Cov|]. split; [|split; [exact A|split; [exact M|]]].
  - intros id c0 H. rewrite F, find_app, H. reflexivity.
  - destruct (bulk_comments rows (save_comments_bulk rows tb)) as (C2 & A2 & M2).
    rewrite fold_ignore_present in C2 by (rewrite F; exact Cov).
    destruct (save_comments_bulk rows (save_comments_bulk rows tb)) as [c2 a2 m2].
    destruct (save_comments_bulk rows tb) as [c1 a1 m1].
    simpl in *. congruence.
Qed.

End CommentFacts.

Module WriterFacts.
Import Analyzer Db DbFacts SortMore.
Local Open Scope list_scope.

Lemma replace_mention_pk r t :
  pk_mentions t -> pk_mentions (insert_or_replace_mention r t).
Proof.
  unfold pk_mentions, insert_or_replace_mention. intros N.
  rewrite map_app. simpl.
  apply NoDup_app; [| constructor; [intros []|constructor] |].
  - induction t as [|x t IH]; simpl; [constructor|].
    inversion N as [|? ? N1 N2]; subst.
    destruct (negb _); simpl; [|auto].
    constructor; [|auto]. intros I. apply N1.
    apply in_map_iff in I as (y & E & I). apply filter_In in I as [I _].
    apply in_map_iff. eauto.
  - intros k I [<-|[]].
    apply in_map_iff in I as (y & E & I). apply filter_In in I as [_ I].
    injection E as E1 E2 E3. unfold mention_key in I.
    rewrite E1, E2, E3, !String.eqb_refl in I. discriminate.
Qed.

Lemma save_mentions_pk tag cid model rows now tb :
  pk_mentions (mentions tb) ->
  pk_mentions (mentions (save_mentions tag cid model rows now tb)).
Proof.
  unfold save_mentions. simpl. generalize (mentions tb).
  induction rows as [|r rows IH]; intros t N; simpl; [exact N|].
  apply IH. apply replace_mention_pk, N.
Qed.

Lemma mark_pk w tag cid model now tb :
  pk_analysis (comment_analysis tb) ->
  pk_analysis (comment_analysis (mark w tag cid model now tb)).
Proof.
  intros N. destruct w; simpl; apply replace_analysis_pk, N.
Qed.

(** The writers of the scheduler keep the primary keys: a status table with
    at most one row per (tag, record) and a mention table with at most one
    row per (tag, record, symbol) are such after a status is marked, after
    mentions are saved, and after both. *)
Theorem writers_keep_primary_keys
        (w : StatusWrite) (tag cid model : string)
        (rows : list (string * Sentiment)) (now : Z) (tb : Tables) :
  pk_analysis (comment_analysis tb) -> pk_mentions (mentions tb) ->
  pk_analysis (comment_analysis (mark w tag cid model now tb)) /\
  pk_mentions (mentions (mark w tag cid model now tb)) /\
  pk_analysis (comment_analysis (save_mentions tag cid model rows now tb)) /\
  pk_mentions (mentions (save_mentions tag cid model rows now tb)) /\
  pk_analysis (comment_analysis (persist_analysis tag cid model rows now tb)) /\
  pk_mentions (mentions (persist_analysis tag cid model rows now tb)).
Proof.
  intros Na Nm. split; [apply mark_pk, Na|].
  split; [destruct w; exact Nm|].
  split; [exact Na|].
  split; [apply save_mentions_pk, Nm|].
  split.
  - apply (mark_pk MarkOk tag cid model now
             (save_mentions tag cid model rows now tb)), Na.
  - apply (save_mentions_pk tag cid model rows now tb Nm).
Qed.

Lemma mark_analysis w tag cid model now tb :
  exists row,
    a_tag row = tag /\ a_comment_id row = cid /\
    a_status row = written_status w /\
    comment_analysis (mark w tag cid model now tb)
    = insert_or_replace_analysis row (comment_analysis tb).
Proof.
  destruct w; unfold mark, mark_analyzed_ok, mark_analyzed_skipped,
    mark_analyzed_error, set_analysis; simpl;
    match goal with
    | |- exists row, _ /\ _ /\ _ /\
                     insert_or_replace_analysis ?r _ = _ =>
        exists r; repeat split
    end.
Qed.

(** A writer touches the rows of its own key only: marking a status for a
    record under a tag leaves the status rows of every other (tag, record),
    the mentions and the comments as they are; saving the mentions of a
    record under a tag leaves the rows of other records, of other tags and
    of symbols that are not written as they are, and so the statuses and the
    comments. *)
Theorem writers_touch_their_key_only
        (w : StatusWrite) (tag cid model : string)
        (rows : list (string * Sentiment)) (now : Z) (tb : Tables) :
  (forall tag' cid', (tag', cid') <> (tag, cid) ->
     analysis_rows_of tag' cid' (comment_analysis (mark w tag cid model now tb))
     = analysis_rows_of tag' cid' (comment_analysis tb)) /\
  mentions (mark w tag cid model now tb) = mentions tb /\
  comments (mark w tag cid model now tb) = comments tb /\
  filter (fun r => negb (mention_among tag cid (map fst rows) r))
         (mentions (save_mentions tag cid model rows now tb))
  = filter (fun r => negb (mention_among tag cid (map fst rows) r))
           (mentions tb) /\
  comment_analysis (save_mentions tag cid model rows now tb)
  = comment_analysis tb /\
  comments (save_mentions tag cid model rows now tb) = comments tb.
Proof.
  split; [|split; [|split; [|split; [|split]]]].
  - intros tag' cid' N.
    destruct (mark_analysis w tag cid model now tb) as (row & Et & Ec & _ & E).
    rewrite E. unfold analysis_rows_of, insert_or_replace_analysis.
    rewrite filter_app, filter_filter, Et, Ec. simpl.
    assert (K : analysis_key tag' cid' row = false).
    { unfold analysis_key. rewrite Et, Ec.
      destruct (String.eqb tag tag') eqn:E1; [|reflexivity].
      destruct (String.eqb cid cid') eqn:E2; [|reflexivity].
      apply String.eqb_eq in E1, E2. subst. contradiction. }
    rewrite K, app_nil_r. apply filter_ext. intros x.
    destruct (analysis_key tag' cid' x) eqn:Kx; [|apply andb_false_r].
    rewrite andb_true_r. apply negb_true_iff.
    unfold analysis_key in *.
    destruct (String.eqb (a_tag x) tag) eqn:E1; [|reflexivity].
    destruct (String.eqb (a_comment_id x) cid) eqn:E2; [|reflexivity].
    apply String.eqb_eq in E1, E2. rewrite E1, E2 in Kx.
    apply andb_true_iff in Kx as [K1 K2]. apply String.eqb_eq in K1, K2.
    subst. contradiction.
  - destruct w; reflexivity.
  - destruct w; reflexivity.
  - unfold save_mentions. simpl.
    rewrite (save_fold tag cid model now rows (mentions tb)).
    rewrite filter_app, filter_filter.
    rewrite (filter_nil _ (fold_left _ rows [])).
    + rewrite app_nil_r. apply filter_ext. intros x.
      destruct (mention_among _ _ _ x); reflexivity.
    + intros x I.
      assert (K : mention_among tag cid (map fst rows) x = true).
      { apply (save_fold_keys tag cid model now rows (map fst rows) []);
          [intros y []|apply incl_refl|exact I]. }
      rewrite K. reflexivity.
  - reflexivity.
  - reflexivity.
Qed.

End WriterFacts.

Module SelectionMore.
Import Analyzer Db DbFacts DbMore SortMore SelectorFacts WriterFacts.
Local Open Scope list_scope.

(** Under the primary key, a comment is joined with its status row. *)
Lemma joined_row tag tb c a :
  pk_analysis (comment_analysis tb) ->
  In (c, a) (left_join tag tb) <->
  In c (comments tb) /\ a = status_row tb tag (comment_id c).
Proof.
  intros N. rewrite left_join_in. unfold status_row.
  destruct (find (analysis_key tag (comment_id c)) (comment_analysis tb))
    as [r|] eqn:F.
  - rewrite (pk_rows _ _ _ _ N F). destruct a as [r'|].
    + simpl. split; intros [I H]; split; auto.
      * destruct H as [->|[]]. reflexivity.
      * injection H as ->. auto.
    + split; intros [I H]; discriminate.
  - rewrite (pk_rows_none _ _ _ F). destruct a as [r'|].
    + split; intros [I H]; [destruct H|discriminate].
    + tauto.
Qed.

Lemma where_eligible retry incl subs c a :
  where_clause retry incl subs (c, a)
  = (eligible retry incl (option_map a_status a) && subreddit_filter subs c)%bool.
Proof.
  unfold where_clause. f_equal.
  destruct a as [r|]; simpl; [|destruct retry; reflexivity].
  destruct (a_status r), retry, incl; reflexivity.
Qed.

Lemma selection_sound tb tag limit retry subs incl c :
  pk_analysis (comment_analysis tb) ->
  In c (candidate_rows tb tag limit retry subs incl) ->
  In c (comments tb) /\ subreddit_filter subs c = true /\
  eligible retry incl (status_of tb tag (comment_id c)) = true.
Proof.
  intros N I. apply candidate_rows_in in I as (a & J & W).
  apply (joined_row tag tb c a N) in J as [Ic ->].
  rewrite where_eligible in W. apply andb_true_iff in W as [W1 W2].
  unfold status_of. auto.
Qed.

Lemma selection_complete tb tag limit retry subs incl c :
  pk_analysis (comment_analysis tb) -> (limit < 0)%Z ->
  In c (comments tb) -> subreddit_filter subs c = true ->
  eligible retry incl (status_of tb tag (comment_id c)) = true ->
  In c (candidate_rows tb tag limit retry subs incl).
Proof.
  intros N L I F E. unfold candidate_rows, sql_limit.
  replace (Z.ltb limit 0) with true by (symmetry; apply Z.ltb_lt, L).
  apply (in_map fst _ (c, status_row tb tag (comment_id c))).
  apply SortFacts.sort_in, filter_In. split.
  - apply joined_row; auto.
  - rewrite where_eligible. unfold status_of in E. rewrite E, F. reflexivity.
Qed.

(** The candidates are the comments that pass the source-group filter and
    whose status under the tag is none, or "error" in retry mode, or
    "skipped" when the skipped are asked for: every row returned is such a
    comment, whatever the limit, and without a limit every such comment is
    returned. The statuses under other tags play no part. *)
Theorem candidates_are_the_eligible_comments
        (tb : Tables) (tag : string) (limit : Z) (retry incl : bool)
        (subs : option (list string)) (c : Comment) :
  pk_analysis (comment_analysis tb) ->
  (In c (candidate_rows tb tag limit retry subs incl) ->
   In c (comments tb) /\ subreddit_filter subs c = true /\
   eligible retry incl (status_of tb tag (comment_id c)) = true) /\
  ((limit < 0)%Z ->
   In c (comments tb) -> subreddit_filter subs c = true ->
   eligible retry incl (status_of tb tag (comment_id c)) = true ->
   In c (candidate_rows tb tag limit retry subs incl)).
Proof.
  intros N. split.
  - apply selection_sound, N.
  - intros L. apply selection_complete; assumption.
Qed.

Lemma status_after_mark w tag cid model now tb :
  status_of (mark w tag cid model now tb) tag cid = Some (written_status w).
Proof.
  destruct (mark_rows w tag cid model now tb) as (row & R & S & _).
  unfold status_of, status_row. rewrite (find_of_rows _ _ _ _ R).
  simpl. congruence.
Qed.

Lemma status_elsewhere w tag cid model now tb tag' cid' :
  (tag', cid') <> (tag, cid) ->
  status_of (mark w tag cid model now tb) tag' cid' = status_of tb tag' cid'.
Proof.
  intros N. unfold status_of, status_row.
  destruct (mark_analysis w tag cid model now tb) as (row & Et & Ec & _ & E).
  rewrite E. unfold insert_or_replace_analysis. rewrite Et, Ec.
  rewrite find_app, find_filter_keep.
  - destruct (find _ (comment_analysis tb)); [reflexivity|]. simpl.
    replace (analysis_key tag' cid' row) with false; [reflexivity|].
    symmetry. unfold analysis_key. rewrite Et, Ec.
    destruct (String.eqb tag tag') eqn:E1; [|reflexivity].
    destruct (String.eqb cid cid') eqn:E2; [|reflexivity].
    apply String.eqb_eq in E1, E2. subst. contradiction.
  - intros x K. apply negb_true_iff.
    destruct (analysis_key tag cid x) eqn:K2; [|reflexivity].
    apply analysis_key_pair in K, K2. congruence.
Qed.

(** Marking a record under a tag sets the status the selector reads for it
    and no other: marked "ok" the record is not returned any more, in either
    mode and for every limit; marked "error" it is out of the default
    selection; and the other records, and the record under other tags, are
    selected as before. *)
Theorem marking_moves_one_record
        (w : StatusWrite) (tag cid model : string) (now : Z) (tb : Tables)
        (limit : Z) (retry incl : bool) (subs : option (list string)) :
  pk_analysis (comment_analysis tb) ->
  status_of (mark w tag cid model now tb) tag cid = Some (written_status w) /\
  (forall tag' cid', (tag', cid') <> (tag, cid) ->
     status_of (mark w tag cid model now tb) tag' cid'
     = status_of tb tag' cid') /\
  (eligible retry incl (Some (written_status w)) = false ->
   ~ In cid (map fst (fetch_candidates (mark w tag cid model now tb)
                                       tag limit retry subs incl))) /\
  (forall c, comment_id c <> cid ->
     (In c (candidate_rows (mark w tag cid model now tb) tag (-1) retry subs incl)
      <-> In c (candidate_rows tb tag (-1) retry subs incl))).
Proof.
  intros N.
  assert (N' : pk_analysis (comment_analysis (mark w tag cid model now tb)))
    by (apply mark_pk, N).
  assert (C : comments (mark w tag cid model now tb) = comments tb)
    by (destruct w; reflexivity).
  split; [apply status_after_mark|]. split; [apply status_elsewhere|]. split.
  - intros E I. apply fetch_candidates_in in I as (c & Ec & I).
    apply (selection_sound _ _ _ _ _ _ _ N') in I as (_ & _ & El).
    rewrite Ec, status_after_mark in El. congruence.
  - intros c Nc.
    assert (S : status_of (mark w tag cid model now tb) tag (comment_id c)
                = status_of tb tag (comment_id c)).
    { apply status_elsewhere. congruence. }
    split; intros I.
    + apply (selection_sound _ _ _ _ _ _ _ N') in I as (Ic & F & El).
      rewrite C in Ic. rewrite S in El.
      apply selection_complete; auto. lia.
    + apply (selection_sound _ _ _ _ _ _ _ N) in I as (Ic & F & El).
      apply selection_complete; auto; [lia|rewrite C; exact Ic|].
      rewrite S. exact El.
Qed.

End SelectionMore.

Module ReportFacts.
Import Analyzer Db DbFacts DbMore SortMore.
Local Open Scope list_scope.

Lemma three_sentiments (l : list MentionRow) :
  List.length l
  = count_where (has_sentiment bullish) l
    + count_where (has_sentiment bearish) l
    + count_where (has_sentiment neutral) l.
Proof.
  unfold count_where, has_sentiment.
  induction l as [|m l IH]; simpl; [reflexivity|].
  destruct (m_sentiment m); simpl; lia.
Qed.

(** The counts of the tickers of a list of distinct keys that covers the
    rows add up to the number of the rows. *)
Lemma count_partition keys : forall rows,
  NoDup keys ->
  (forall r, In r rows -> In (m_ticker r) keys) ->
  list_sum (map (fun k => List.length (filter (has_ticker k) rows)) keys)
  = List.length rows.
Proof.
  induction keys as [|k ks IH]; intros rows N H; simpl.
  - destruct rows as [|r rows]; [reflexivity|]. destruct (H r); simpl; auto.
  - inversion N as [|? ? N1 N2]; subst.
    rewrite <- (filter_split_length (has_ticker k) rows). f_equal.
    rewrite <- (IH (filter (fun r => negb (has_ticker k r)) rows) N2).
    + f_equal. apply map_ext_in. intros k' I.
      rewrite filter_filter. f_equal. apply filter_ext. intros r.
      unfold has_ticker.
      destruct (String.eqb (m_ticker r) k') eqn:E1;
        [|rewrite andb_false_r; reflexivity].
      destruct (String.eqb (m_ticker r) k) eqn:E2; [|reflexivity].
      apply String.eqb_eq in E1, E2. subst. contradiction.
    + intros r I. apply filter_In in I as [I Nk].
      destruct (H r I) as [E|Ik]; [|exact Ik].
      cbv beta in Nk. unfold has_ticker in Nk.
      rewrite <- E, String.eqb_refl in Nk. discriminate.
Qed.

Lemma keys_cover (rows : list MentionRow) r :
  In r rows -> In (m_ticker r) (dedup [] (map m_ticker rows)).
Proof.
  intros I. apply ValidatorFacts.dedup_in. split; [|intros []].
  apply in_map, I.
Qed.

Lemma score_order_total a b :
  score_then_mentions a b = true \/ score_then_mentions b a = true.
Proof.
  unfold score_then_mentions.
  rewrite !orb_true_iff, !andb_true_iff, !Z.ltb_lt, !Z.eqb_eq, !Nat.leb_le.
  lia.
Qed.

Lemma score_order_trans a b c :
  score_then_mentions a b = true -> score_then_mentions b c = true ->
  score_then_mentions a c = true.
Proof.
  unfold score_then_mentions.
  rewrite !orb_true_iff, !andb_true_iff, !Z.ltb_lt, !Z.eqb_eq, !Nat.leb_le.
  lia.
Qed.

Lemma sql_limit_sorted {A} (R : A -> A -> Prop) limit l :
  StronglySorted R l -> StronglySorted R (sql_limit limit l).
Proof.
  unfold sql_limit. destruct (Z.ltb limit 0); [auto|].
  apply SortFacts.firstn_sorted.
Qed.

Lemma sql_limit_map {A B} (f : A -> B) limit l :
  map f (sql_limit limit l) = sql_limit limit (map f l).
Proof.
  unfold sql_limit. destruct (Z.ltb limit 0); [reflexivity|].
  symmetry. apply firstn_map.
Qed.

(** The rows of [fetch_ticker_summary]: one per ticker; in each, the
    mentions are the bullish, bearish and neutral ones together and are at
    least one, and the score is the bullish less the bearish, between minus
    the mentions and the mentions; the rows come by decreasing score, then
    by decreasing mentions; they are at most as many as the limit, and
    without a limit their mentions add up to the rows read. *)
Theorem ticker_summary_adds_up
        (tb : Tables) (tag : string) (subs : option (list string)) (limit : Z) :
  (forall r, In r (fetch_ticker_summary tb tag subs limit) ->
     s_mentions r = s_bullish r + s_bearish r + s_neutral r /\
     1 <= s_mentions r /\
     s_mentions r
     = count_where (has_ticker (s_ticker r)) (report_rows tb tag subs) /\
     s_score r = (Z.of_nat (s_bullish r) - Z.of_nat (s_bearish r))%Z /\
     (- Z.of_nat (s_mentions r) <= s_score r <= Z.of_nat (s_mentions r))%Z) /\
  NoDup (map s_ticker (fetch_ticker_summary tb tag subs limit)) /\
  StronglySorted
    (fun a b => (s_score b < s_score a)%Z \/
                (s_score b = s_score a /\ s_mentions b <= s_mentions a))
    (fetch_ticker_summary tb tag subs limit) /\
  ((0 <= limit)%Z ->
   (Z.of_nat (List.length (fetch_ticker_summary tb tag subs limit)) <= limit)%Z) /\
  ((limit < 0)%Z ->
   list_sum (map s_mentions (fetch_ticker_summary tb tag subs limit))
   = List.length (report_rows tb tag subs)).
Proof.
  unfold fetch_ticker_summary.
  set (rows := report_rows tb tag subs).
  set (keys := dedup [] (map m_ticker rows)).
  split; [|split; [|split; [|split]]].
  - intros r I. apply SelectorFacts.sql_limit_in, SortFacts.sort_in in I.
    apply in_map_iff in I as (t & <- & It).
    apply ValidatorFacts.dedup_in in It as [It _].
    apply in_map_iff in It as (m & Em & Im).
    assert (P : 1 <= List.length (filter (has_ticker t) rows)).
    { assert (In m (filter (has_ticker t) rows)).
      { apply filter_In. split; [exact Im|].
        unfold has_ticker. rewrite Em. apply String.eqb_refl. }
      destruct (filter (has_ticker t) rows); [contradiction|simpl; lia]. }
    pose proof (three_sentiments (filter (has_ticker t) rows)) as T.
    simpl. unfold count_where at 4. repeat split; try lia.
  - rewrite sql_limit_map. apply sql_limit_nodup.
    apply (Permutation_NoDup (l := map s_ticker (map (summarize rows) keys))).
    + apply Permutation_map, Permutation_sym, sort_perm.
    + rewrite List.map_map. simpl. rewrite map_id. apply dedup_nodup.
  - apply sql_limit_sorted.
    apply SortFacts.sorted_impl
      with (R := fun a b => score_then_mentions a b = true).
    + intros a b. unfold score_then_mentions.
      rewrite orb_true_iff, andb_true_iff, Z.ltb_lt, Z.eqb_eq, Nat.leb_le.
      tauto.
    + apply SortFacts.sort_sorted;
        [apply score_order_total|apply score_order_trans].
  - intros L. unfold sql_limit.
    replace (Z.ltb limit 0) with false by (symmetry; apply Z.ltb_ge, L).
    pose proof (firstn_le_length (Z.to_nat limit)
                  (Sort.sort score_then_mentions (map (summarize rows) keys))).
    lia.
  - intros L. unfold sql_limit.
    replace (Z.ltb limit 0) with true by (symmetry; apply Z.ltb_lt, L).
    rewrite (list_sum_perm _ (map s_mentions (map (summarize rows) keys)))
      by (apply Permutation_map, sort_perm).
    rewrite List.map_map. simpl.
    apply count_partition; [apply dedup_nodup|apply keys_cover].
Qed.

Lemma list_sum_flat_map {A} (f : A -> list nat) l :
  list_sum (flat_map f l) = list_sum (map (fun x => list_sum (f x)) l).
Proof.
  induction l as [|x l IH]; simpl; [reflexivity|].
  rewrite list_sum_app, IH. reflexivity.
Qed.

Lemma map_flat_map {A B C} (g : B -> C) (f : A -> list B) l :
  map g (flat_map f l) = flat_map (fun x => map g (f x)) l.
Proof.
  induction l as [|x l IH]; simpl; [reflexivity|].
  rewrite map_app, IH. reflexivity.
Qed.

(** The groups of [fetch_sentiment_counts]: a (ticker, sentiment, n) is
    listed exactly when n rows, and at least one, have this ticker and this
    sentiment; the counts listed add up to the rows read. *)
Theorem sentiment_counts_add_up
        (tb : Tables) (tag : string) (subs : option (list string)) :
  (forall t s n,
     In (t, s, n) (fetch_sentiment_counts tb tag subs) <->
     n = count_where (fun m => has_ticker t m && has_sentiment s m)%bool
                     (report_rows tb tag subs) /\
     1 <= n) /\
  list_sum (map snd (fetch_sentiment_counts tb tag subs))
  = List.length (report_rows tb tag subs).
Proof.
  unfold fetch_sentiment_counts.
  set (rows := report_rows tb tag subs).
  set (keys := dedup [] (map m_ticker rows)).
  split.
  - intros t s n. rewrite in_flat_map. split.
    + intros (t' & It & I). apply in_flat_map in I as (s' & Is & I).
      destruct (count_where _ rows) as [|k] eqn:E; [destruct I|].
      destruct I as [[= <- <- <-]|[]]. split; [auto|lia].
    + intros [-> P]. exists t. split.
      * unfold count_where in P.
        destruct (filter _ rows) as [|m l] eqn:F; [simpl in P; lia|].
        assert (I : In m (filter (fun m => has_ticker t m && has_sentiment s m)%bool rows))
          by (rewrite F; simpl; auto).
        apply filter_In in I as [I K]. apply andb_true_iff in K as [K _].
        unfold has_ticker in K. apply String.eqb_eq in K. subst t.
        apply keys_cover, I.
      * apply in_flat_map. exists s. split; [destruct s; simpl; auto|].
        destruct (count_where _ rows); [lia|simpl; auto].
  - rewrite map_flat_map, list_sum_flat_map.
    rewrite <- (count_partition keys rows (dedup_nodup _ _) (keys_cover rows)).
    f_equal. apply map_ext. intros t.
    rewrite (three_sentiments (filter (has_ticker t) rows)).
    unfold count_where. rewrite !filter_filter. simpl.
    destruct (List.length (filter (fun x => (has_ticker t x && has_sentiment bullish x)%bool) rows));
    destruct (List.length (filter (fun x => (has_ticker t x && has_sentiment bearish x)%bool) rows));
    destruct (List.length (filter (fun x => (has_ticker t x && has_sentiment neutral x)%bool) rows));
    simpl; lia.
Qed.

End ReportFacts.

Module TagFacts.
Import Analyzer Db DbFacts DbMore SortMore.
Local Open Scope list_scope.

Lemma filter_sorted {A} (R : A -> A -> Prop) (p : A -> bool) l :
  StronglySorted R l -> StronglySorted R (filter p l).
Proof.
  induction 1 as [|x l S IH F]; simpl; [constructor|].
  destruct (p x); [|exact IH]. constructor; [exact IH|].
  rewrite Forall_forall in *. intros y I. apply filter_In in I as [I _]. auto.
Qed.

Lemma later_first_total t a b :
  later_first t a b = true \/ later_first t b a = true.
Proof. unfold later_first. rewrite !Z.leb_le. lia. Qed.

Lemma later_first_trans t a b c :
  later_first t a b = true -> later_first t b c = true ->
  later_first t a c = true.
Proof. unfold later_first. rewrite !Z.leb_le. lia. Qed.

Lemma list_analysis_tags_members tb t :
  In t (list_analysis_tags tb) <->
  t <> "" /\
  ((exists r, In r (comment_analysis tb) /\ a_tag r = t) \/
   (exists m, In m (mentions tb) /\ m_tag m = t)).
Proof.
  unfold list_analysis_tags.
  set (keys := dedup [] (map a_tag (comment_analysis tb))).
  set (tags := filter PyStr.truthy
                      (Sort.sort (later_first (comment_analysis tb)) keys)).
  set (mtags := filter PyStr.truthy (dedup [] (map m_tag (mentions tb)))).
  assert (Tin : In t tags <->
            t <> "" /\ exists r, In r (comment_analysis tb) /\ a_tag r = t).
  { unfold tags, keys.
    rewrite filter_In, SortFacts.sort_in, ValidatorFacts.dedup_in, in_map_iff,
      AnalyzerFacts.truthy_nonempty.
    split.
    - intros [[(r & E & I) _] Ne]. eauto.
    - intros [Ne (r & I & E)]. split; [split; [eauto|intros []]|exact Ne]. }
  assert (Min : In t mtags <->
            t <> "" /\ exists m, In m (mentions tb) /\ m_tag m = t).
  { unfold mtags.
    rewrite filter_In, ValidatorFacts.dedup_in, in_map_iff,
      AnalyzerFacts.truthy_nonempty.
    split.
    - intros [[(m & E & I) _] Ne]. eauto.
    - intros [Ne (m & I & E)]. split; [split; [eauto|intros []]|exact Ne]. }
  rewrite in_app_iff, ValidatorFacts.dedup_in.
  split.
  - intros [I|[I _]]; [apply Tin in I|apply Min in I];
      destruct I as [Ne H]; auto.
  - intros [Ne [H|H]]; [left; apply Tin; auto|].
    destruct (in_dec string_dec t tags) as [I|NI].
    + left. exact I.
    + right. split; [apply Min; auto|exact NI].
Qed.

(** [list_analysis_tags] lists each tag once, and lists the non-empty tags
    of the status table and of the mention table and no other; the tags of
    the status table come first, the one analyzed last before the others,
    and after them the tags that have mentions only. *)
Theorem list_analysis_tags_complete (tb : Tables) :
  NoDup (list_analysis_tags tb) /\
  (forall t, In t (list_analysis_tags tb) <->
             t <> "" /\
             ((exists r, In r (comment_analysis tb) /\ a_tag r = t) \/
              (exists m, In m (mentions tb) /\ m_tag m = t))) /\
  exists first rest,
    list_analysis_tags tb = first ++ rest /\
    StronglySorted
      (fun a b => (last_seen (comment_analysis tb) b
                   <= last_seen (comment_analysis tb) a)%Z) first /\
    (forall t, In t first <->
               t <> "" /\ exists r, In r (comment_analysis tb) /\ a_tag r = t) /\
    (forall t, In t rest ->
               ~ exists r, In r (comment_analysis tb) /\ a_tag r = t).
Proof.
  unfold list_analysis_tags.
  set (keys := dedup [] (map a_tag (comment_analysis tb))).
  set (tags := filter PyStr.truthy
                      (Sort.sort (later_first (comment_analysis tb)) keys)).
  set (mtags := filter PyStr.truthy (dedup [] (map m_tag (mentions tb)))).
  assert (Tin : forall t, In t tags <->
            t <> "" /\ exists r, In r (comment_analysis tb) /\ a_tag r = t).
  { intros t. unfold tags, keys.
    rewrite filter_In, SortFacts.sort_in, ValidatorFacts.dedup_in, in_map_iff,
      AnalyzerFacts.truthy_nonempty.
    split.
    - intros [[(r & E & I) _] Ne]. eauto.
    - intros [Ne (r & I & E)]. split; [split; [eauto|intros []]|exact Ne]. }
  assert (Min : forall t, In t mtags <->
            t <> "" /\ exists m, In m (mentions tb) /\ m_tag m = t).
  { intros t. unfold mtags.
    rewrite filter_In, ValidatorFacts.dedup_in, in_map_iff,
      AnalyzerFacts.truthy_nonempty.
    split.
    - intros [[(m & E & I) _] Ne]. eauto.
    - intros [Ne (m & I & E)]. split; [split; [eauto|intros []]|exact Ne]. }
  split; [|split].
  - apply NoDup_app.
    + unfold tags. apply NoDup_filter.
      apply (Permutation_NoDup (l := keys));
        [apply Permutation_sym, sort_perm|apply dedup_nodup].
    + apply dedup_nodup.
    + intros t I J. apply ValidatorFacts.dedup_in in J as [_ J]. contradiction.
  - intros t. rewrite in_app_iff, ValidatorFacts.dedup_in.
    split.
    + intros [I|[I _]]; [apply Tin in I|apply Min in I];
        destruct I as [Ne H]; auto.
    + intros [Ne [H|H]]; [left; apply Tin; auto|].
      destruct (in_dec string_dec t tags) as [I|NI].
      * left. exact I.
      * right. split; [apply Min; auto|exact NI].
  - exists tags, (dedup tags mtags). split; [reflexivity|]. split; [|split].
    + unfold tags. apply filter_sorted.
      apply SortFacts.sorted_impl
        with (R := fun a b => later_first (comment_analysis tb) a b = true).
      * intros a b H. apply Z.leb_le, H.
      * apply SortFacts.sort_sorted;
          [apply later_first_total|apply later_first_trans].
    + exact Tin.
    + intros t I (r & Ir & E).
      apply ValidatorFacts.dedup_in in I as [I NI].
      apply Min in I as [Ne _]. apply NI, Tin. eauto.
Qed.

(** *** The latest tag *)

Lemma sort_head {A} (leb : A -> A -> bool) l x rest :
  (forall a b, leb a b = true \/ leb b a = true) ->
  (forall a b c, leb a b = true -> leb b c = true -> leb a c = true) ->
  Sort.sort leb l = x :: rest ->
  In x l /\ forall y, In y l -> leb x y = true.
Proof.
  intros T Tr E.
  pose proof (SortFacts.sort_sorted leb T Tr l) as S. rewrite E in S.
  assert (Ix : In x l) by (apply (SortFacts.sort_in leb); rewrite E; simpl; auto).
  split; [exact Ix|]. intros y Iy.
  apply (SortFacts.sort_in leb) in Iy. rewrite E in Iy.
  destruct Iy as [<-|Iy].
  - destruct (T x x); assumption.
  - inversion S as [|? ? _ F]; subst. rewrite Forall_forall in F. auto.
Qed.

Lemma sort_nil {A} (leb : A -> A -> bool) l : Sort.sort leb l = [] -> l = [].
Proof.
  intros E. pose proof (SortFacts.sort_length leb l) as L.
  rewrite E in L. destruct l; [reflexivity|discriminate].
Qed.

Lemma latest_status_spec t :
  match latest_status_tag t with
  | None => t = []
  | Some tag =>
      exists r, In r t /\ a_tag r = tag /\
                forall r', In r' t -> (a_analyzed_at r' <= a_analyzed_at r)%Z
  end.
Proof.
  unfold latest_status_tag.
  destruct (Sort.sort _ t) as [|r rest] eqn:E; [apply (sort_nil _ _ E)|].
  apply sort_head in E as [I M].
  - exists r. repeat split; auto. intros r' I'. apply Z.leb_le, M, I'.
  - intros a b. rewrite !Z.leb_le. lia.
  - intros a b c. rewrite !Z.leb_le. lia.
Qed.

Lemma latest_mention_spec t :
  match latest_mention_tag t with
  | None => t = []
  | Some tag =>
      exists m, In m t /\ m_tag m = tag /\
                forall m', In m' t -> (m_analyzed_at m' <= m_analyzed_at m)%Z
  end.
Proof.
  unfold latest_mention_tag.
  destruct (Sort.sort _ t) as [|r rest] eqn:E; [apply (sort_nil _ _ E)|].
  apply sort_head in E as [I M].
  - exists r. repeat split; auto. intros r' I'. apply Z.leb_le, M, I'.
  - intros a b. rewrite !Z.leb_le. lia.
  - intros a b c. rewrite !Z.leb_le. lia.
Qed.

Lemma nonempty_some v t : nonempty v = Some t -> v = Some t /\ t <> "".
Proof.
  destruct v as [s|]; simpl; [|discriminate].
  destruct (PyStr.truthy s) eqn:T; [|discriminate].
  intros [= ->]. split; [reflexivity|apply AnalyzerFacts.truthy_nonempty, T].
Qed.

(** [get_latest_analysis_tag] answers with a non-empty tag: the tag of a
    status row analyzed last, or, when that tag is empty or there is no
    status row, the tag of a mention row analyzed last. It has no answer for
    a store with no status and no mention, and when the tags of the status
    table are not empty and there is a status row it answers with the tag
    of one analyzed last. *)
Theorem get_latest_analysis_tag_is_latest (tb : Tables) :
  (forall t, get_latest_analysis_tag tb = Some t ->
     t <> "" /\
     ((exists r, In r (comment_analysis tb) /\ a_tag r = t /\
                 forall r', In r' (comment_analysis tb) ->
                            (a_analyzed_at r' <= a_analyzed_at r)%Z) \/
      (exists m, In m (mentions tb) /\ m_tag m = t /\
                 forall m', In m' (mentions tb) ->
                            (m_analyzed_at m' <= m_analyzed_at m)%Z))) /\
  (comment_analysis tb = [] -> mentions tb = [] ->
   get_latest_analysis_tag tb = None) /\
  ((forall r, In r (comment_analysis tb) -> a_tag r <> "") ->
   comment_analysis tb <> [] ->
   exists r, In r (comment_analysis tb) /\
             get_latest_analysis_tag tb = Some (a_tag r) /\
             forall r', In r' (comment_analysis tb) ->
                        (a_analyzed_at r' <= a_analyzed_at r)%Z).
Proof.
  unfold get_latest_analysis_tag.
  pose proof (latest_status_spec (comment_analysis tb)) as Sa.
  pose proof (latest_mention_spec (mentions tb)) as Sm.
  split; [|split].
  - intros t H.
    destruct (nonempty (latest_status_tag (comment_analysis tb))) as [t1|] eqn:E1.
    + injection H as ->. apply nonempty_some in E1 as [E1 Ne].
      rewrite E1 in Sa. split; [exact Ne|left; exact Sa].
    + apply nonempty_some in H as [E2 Ne]. rewrite E2 in Sm.
      split; [exact Ne|right; exact Sm].
  - intros Ea Em. rewrite Ea, Em. reflexivity.
  - intros Ne Nn.
    destruct (latest_status_tag (comment_analysis tb)) as [tag|] eqn:E;
      [|contradiction].
    destruct Sa as (r & I & Et & M). exists r. split; [exact I|].
    split; [|exact M]. simpl.
    assert (T : PyStr.truthy tag = true).
    { apply AnalyzerFacts.truthy_nonempty. rewrite <- Et. apply Ne, I. }
    rewrite T, Et. reflexivity.
Qed.

End TagFacts.

Module DeleteFacts.
Import Analyzer Db DbFacts DbMore SortMore ValidatorFacts.
Local Open Scope list_scope.

Lemma distinct_in tb tag x :
  In x (fetch_distinct_mentioned_tickers tb tag) <->
  x <> "" /\ exists r, In r (mentions tb) /\ m_tag r = tag /\ m_ticker r = x.
Proof.
  unfold fetch_distinct_mentioned_tickers.
  rewrite filter_In, dedup_in, in_map_iff, AnalyzerFacts.truthy_nonempty.
  split.
  - intros [[(r & E & I) _] Ne]. apply filter_In in I as [I T].
    apply String.eqb_eq in T. eauto 6.
  - intros [Ne (r & I & T & E)]. split; [split; [|intros []]|exact Ne].
    exists r. split; [exact E|]. apply filter_In. split; [exact I|].
    apply String.eqb_eq, T.
Qed.

(** The symbols read by [fetch_distinct_mentioned_tickers] are the non-empty
    symbols mentioned under the tag, each once. After
    [delete_mentions_for_tickers] they are those that were not given to it.
    Deleting nothing changes nothing and counts nothing; deleting the same
    symbols again deletes no row. *)
Theorem deleted_tickers_are_gone
        (tag : string) (tickers : list string) (tb : Tables) :
  NoDup (fetch_distinct_mentioned_tickers tb tag) /\
  (forall x, In x (fetch_distinct_mentioned_tickers tb tag) <->
     x <> "" /\
     exists r, In r (mentions tb) /\ m_tag r = tag /\ m_ticker r = x) /\
  (forall x,
     In x (fetch_distinct_mentioned_tickers
             (fst (delete_mentions_for_tickers tag tickers tb)) tag) <->
     In x (fetch_distinct_mentioned_tickers tb tag) /\ ~ In x tickers) /\
  delete_mentions_for_tickers tag [] tb = (tb, 0) /\
  delete_mentions_for_tickers
    tag tickers (fst (delete_mentions_for_tickers tag tickers tb))
  = (fst (delete_mentions_for_tickers tag tickers tb), 0).
Proof.
  split; [|split; [|split; [|split]]].
  - unfold fetch_distinct_mentioned_tickers. apply NoDup_filter, dedup_nodup.
  - apply distinct_in.
  - intros x. rewrite !distinct_in.
    destruct (delete_mentions_frame tag tickers tb) as (_ & _ & F & _).
    split.
    + intros (Ne & r & I & T & E). apply F in I as [I D].
      split; [eauto 6|]. intros It. apply D. subst. auto.
    + intros [(Ne & r & I & T & E) NI]. split; [exact Ne|].
      exists r. split; [|auto]. apply F. split; [exact I|].
      intros (_ & It & _). apply NI. subst. exact It.
  - reflexivity.
  - rewrite (delete_mentions_unfold tag tickers
               (fst (delete_mentions_for_tickers tag tickers tb))).
    rewrite (delete_mentions_unfold tag tickers tb). cbv zeta. simpl.
    rewrite !filter_filter.
    rewrite (filter_nil
               (fun x => (negb (delete_matches tag _ x)
                          && delete_matches tag _ x)%bool)).
    + simpl. f_equal. unfold set_mentions. simpl. f_equal.
      apply filter_ext. intros r. destruct (delete_matches _ _ r); reflexivity.
    + intros r _. destruct (delete_matches _ _ r); reflexivity.
Qed.

End DeleteFacts.

Module PaceFacts.
Import Analyzer Db DbFacts Pipeline PipelineFacts.
Local Open Scope list_scope.

Lemma pow2_mono a b : (a <= b)%nat -> (2 ^ Z.of_nat a <= 2 ^ Z.of_nat b)%Z.
Proof. intros H. apply Z.pow_le_mono_r; lia. Qed.

Lemma backoff_cases attempt :
  let p := inject_Z (2 ^ Z.of_nat attempt) in
  let w := Qmin (1 * p) 20 in
  (1 <= p)%Q /\
  ((p < 20)%Q /\ (w == p)%Q \/ (20 <= p)%Q /\ (w == 20)%Q).
Proof.
  intros p w. split.
  - subst p. change 1%Q with (inject_Z (2 ^ Z.of_nat 0)).
    rewrite <- Zle_Qle. apply pow2_mono. lia.
  - subst w.
    destruct (Q.min_spec (1 * p) 20) as [[L E]|[L E]]; rewrite E.
    + left. split; lra.
    + right. split; [lra|reflexivity].
Qed.

(** [_backoff_seconds] waits one second after the first failure and twice
    as long after each further one, up to twenty seconds: 1, 2, 4, 8, 16,
    and 20 from the sixth failure on; it never decreases. That holds up to
    the 1024th failure in a row; from the 1025th on it raises instead, the
    power of two being too large for a float. *)
Theorem backoff_schedule (attempt : nat) :
  ((attempt < 1024)%nat ->
   exists w,
     _backoff_seconds attempt = Some w /\
     (1 <= w)%Q /\ (w <= 20)%Q /\
     ((attempt <= 4)%nat -> (w == inject_Z (2 ^ Z.of_nat attempt))%Q) /\
     ((5 <= attempt)%nat -> (w == 20)%Q) /\
     (forall w', _backoff_seconds (S attempt) = Some w' -> (w <= w')%Q)) /\
  ((1024 <= attempt)%nat -> _backoff_seconds attempt = None).
Proof.
  split; [|apply backoff_none].
  intros Small. rewrite (backoff_some attempt Small).
  eexists. split; [reflexivity|].
  destruct (backoff_cases attempt) as [P1 C].
  destruct (backoff_cases (S attempt)) as [_ C'].
  assert (M : (inject_Z (2 ^ Z.of_nat attempt)
               <= inject_Z (2 ^ Z.of_nat (S attempt)))%Q).
  { rewrite <- Zle_Qle. apply pow2_mono. lia. }
  assert (Lo : (attempt <= 4)%nat ->
               (inject_Z (2 ^ Z.of_nat attempt) <= 16)%Q).
  { intros H. change 16%Q with (inject_Z (2 ^ Z.of_nat 4)).
    rewrite <- Zle_Qle. apply pow2_mono, H. }
  assert (Hi : (5 <= attempt)%nat ->
               (32 <= inject_Z (2 ^ Z.of_nat attempt))%Q).
  { intros H. change 32%Q with (inject_Z (2 ^ Z.of_nat 5)).
    rewrite <- Zle_Qle. apply pow2_mono, H. }
  assert (Nx : forall w',
             _backoff_seconds (S attempt) = Some w' ->
             w' = Qmin (1 * inject_Z (2 ^ Z.of_nat (S attempt))) 20).
  { intros w'. unfold _backoff_seconds.
    destruct (float_overflows _); congruence. }
  revert P1 C C' M Lo Hi Nx.
  generalize (Qmin (1 * inject_Z (2 ^ Z.of_nat attempt)) 20).
  generalize (Qmin (1 * inject_Z (2 ^ Z.of_nat (S attempt))) 20).
  generalize (inject_Z (2 ^ Z.of_nat attempt)).
  generalize (inject_Z (2 ^ Z.of_nat (S attempt))).
  intros p' p b' b P1 C C' M Lo Hi Nx.
  split; [|split; [|split; [|split]]].
  - destruct C as [[? E]|[? E]]; rewrite E; lra.
  - destruct C as [[? E]|[? E]]; rewrite E; lra.
  - intros H. specialize (Lo H). destruct C as [[? E]|[? E]]; [exact E|lra].
  - intros H. specialize (Hi H). destruct C as [[? E]|[? E]]; [lra|exact E].
  - intros w' Hw. rewrite (Nx w' Hw).
    destruct C as [[? E]|[? E]], C' as [[? E']|[? E']]; rewrite E, E'; lra.
Qed.

(** [_sleep_with_deadline] never sets the clock back, never sleeps longer
    than asked, and never sleeps past the deadline: with a deadline that has
    not passed the clock ends at the deadline at the latest, and with one
    that has passed it does not sleep. With no deadline, or with a deadline
    that is far enough, it sleeps for what was asked. It touches nothing but
    the clock. *)
Theorem sleep_stops_at_the_deadline
        (seconds : Q) (deadline : option Q) (st : Run) :
  let st' := _sleep_with_deadline seconds deadline st in
  (clock st <= clock st')%Q /\
  (clock st' <= clock st + Qmax 0 seconds)%Q /\
  (deadline = None -> (0 < seconds)%Q ->
   (clock st' == clock st + seconds)%Q) /\
  (forall d, deadline = Some d ->
     (clock st' <= Qmax (clock st) d)%Q /\
     ((d <= clock st)%Q -> st' = st) /\
     ((0 < seconds)%Q -> (clock st + seconds <= d)%Q ->
      (clock st' == clock st + seconds)%Q)) /\
  work st' = work st /\ durable st' = durable st /\ outcome st' = outcome st.
Proof.
  intros st'.
  destruct (sleep_readings seconds deadline st) as (W & D & O & _).
  fold st' in W, D, O.
  split; [|split; [|split; [|split; [|auto]]]]; subst st';
    unfold _sleep_with_deadline.
  - destruct (Qle_bool seconds 0) eqn:E; [lra|].
    apply Qle_bool_false in E.
    destruct deadline as [d|]; [|cbn; lra].
    destruct (Qle_bool (d - clock st) 0) eqn:E2; [lra|].
    apply Qle_bool_false in E2. cbn.
    destruct (Q.min_spec seconds (d - clock st)) as [[? M]|[? M]];
      rewrite M; lra.
  - destruct (Q.max_spec 0 seconds) as [[? M]|[? M]]; rewrite M;
      (destruct (Qle_bool seconds 0) eqn:E;
       [apply Qle_bool_iff in E; lra|apply Qle_bool_false in E]);
      (destruct deadline as [d|]; [|cbn; lra]);
      (destruct (Qle_bool (d - clock st) 0) eqn:E2; [lra|]);
      cbn;
      destruct (Q.min_spec seconds (d - clock st)) as [[? M']|[? M']];
      rewrite M'; lra.
  - intros -> H.
    replace (Qle_bool seconds 0) with false
      by (symmetry; apply Qle_bool_false, H).
    cbn. reflexivity.
  - intros d ->. split; [|split].
    + destruct (Q.max_spec (clock st) d) as [[? M]|[? M]]; rewrite M;
        (destruct (Qle_bool seconds 0); [lra|]);
        (destruct (Qle_bool (d - clock st) 0) eqn:E2;
         [apply Qle_bool_iff in E2; lra|apply Qle_bool_false in E2]);
        cbn;
        destruct (Q.min_spec seconds (d - clock st)) as [[? M']|[? M']];
        rewrite M'; lra.
    + intros H. destruct (Qle_bool seconds 0); [reflexivity|].
      replace (Qle_bool (d - clock st) 0) with true; [reflexivity|].
      symmetry. apply Qle_bool_iff. lra.
    + intros H1 H2.
      replace (Qle_bool seconds 0) with false
        by (symmetry; apply Qle_bool_false, H1).
      replace (Qle_bool (d - clock st) 0) with false
        by (symmetry; apply Qle_bool_false; lra).
      cbn.
      destruct (Q.min_spec seconds (d - clock st)) as [[? M']|[? M']];
        rewrite M'; lra.
Qed.

(** With N zero or negative [_pace] does nothing. With N of 1 or more (and
    small enough for a float), [_pace] touches only the clock and the
    scheduled instant: it lets its caller through at once when the
    scheduled instant is reached or past, or when the deadline has passed,
    and holds it when the instant is still ahead and the deadline, if any,
    has not passed; it never sets the clock back, and the instant it
    schedules for the next call is not before the moment it returns. *)
Theorem pace_holds_until_the_scheduled_instant
        (N : Z) (deadline : option Q) (st : Run) :
  let i := pace_interval N in
  let st' := _pace i deadline st in
  ((N <= 0)%Z -> st' = st) /\
  ((1 <= N)%Z -> float_overflows N = false ->
   (clock st <= clock st')%Q /\
   (clock st' <= next_call_at st')%Q /\
   ((next_call_at st <= clock st)%Q -> clock st' = clock st) /\
   ((clock st < next_call_at st)%Q ->
    match deadline with
    | None => True
    | Some d => (clock st < d)%Q
    end ->
    (clock st < clock st')%Q) /\
   (forall d, deadline = Some d -> (d <= clock st)%Q ->
              clock st' = clock st) /\
   work st' = work st /\ durable st' = durable st /\
   outcome st' = outcome st /\ calls st' = calls st /\
   polls st' = polls st).
Proof.
  intros i st'. split.
  - intros H. subst st' i. apply pace_off. unfold pace_interval.
    replace (Z.ltb 0 N) with false by (symmetry; apply Z.ltb_ge, H). lra.
  - intros H _. destruct (pace_interval_positive N H) as [Ei Hi].
    fold i in Ei. rewrite <- Ei in Hi.
    destruct (pace_forward i deadline st) as [F1 F2].
    destruct (pace_readings i deadline st) as (W & D & O & C & P).
    split; [exact F1|]. split; [exact (F2 Hi)|].
    split; [intros L; apply (pace_through i deadline st L)|].
    split; [intros L Dl; apply (pace_held i deadline st Hi L Dl)|].
    split; [intros d -> L; apply (pace_past_deadline i d st L)|].
    subst st'. tauto.
Qed.

(** *** The quota test *)

Lemma prefix_app_l a b s :
  String.prefix (a ++ b)%string s = true -> String.prefix a s = true.
Proof.
  revert s. induction a as [|c a IH]; intros [|c' s]; simpl;
    try reflexivity; try discriminate.
  destruct (Ascii.ascii_dec c c'); [apply IH|discriminate].
Qed.

Lemma contains_prefix p s :
  String.prefix p s = true -> PyStr.contains p s = true.
Proof. intros H. destruct s; simpl in *; rewrite H; reflexivity. Qed.

Lemma contains_tail p c s :
  PyStr.contains p s = true -> PyStr.contains p (String c s) = true.
Proof.
  intros H. cbn [PyStr.contains]. rewrite H. apply orb_true_r.
Qed.

Lemma prefix_app_r a b s :
  String.prefix (a ++ b)%string s = true -> PyStr.contains b s = true.
Proof.
  revert s. induction a as [|c a IH]; intros s.
  - apply contains_prefix.
  - destruct s as [|c' s]; simpl; [discriminate|].
    destruct (Ascii.ascii_dec c c'); [|discriminate].
    intros H. apply (contains_tail b c' s), IH, H.
Qed.

Lemma contains_app a b s :
  PyStr.contains (a ++ b)%string s = true ->
  PyStr.contains a s = true /\ PyStr.contains b s = true.
Proof.
  induction s as [|c s IH]; intros H; cbn [PyStr.contains] in H.
  - rewrite orb_false_r in H. split.
    + apply contains_prefix, (prefix_app_l a b), H.
    + apply (prefix_app_r a b), H.
  - apply orb_true_iff in H as [H|H].
    + split.
      * apply contains_prefix, (prefix_app_l a b), H.
      * apply (prefix_app_r a b), H.
    + destruct (IH H) as [Ha Hb]. split; apply contains_tail; assumption.
Qed.

(** [_is_quota_exhausted] reads the message of the failure in lower case.
    Its test for "exceeded" adds nothing to the one for "exceed", and a
    message it accepts always holds "quota". *)
Theorem quota_test_reads_the_message (e : Exn) :
  let msg := PyStr.lower (exn_str e) in
  _is_quota_exhausted e
  = (PyStr.contains "insufficient_quota" msg
     || (PyStr.contains "quota" msg && PyStr.contains "exceed" msg))%bool /\
  (_is_quota_exhausted e = true -> PyStr.contains "quota" msg = true).
Proof.
  intros msg. split.
  - unfold _is_quota_exhausted. fold msg.
    destruct (PyStr.contains "exceeded" msg) eqn:E; [|rewrite orb_false_r; auto].
    destruct (contains_app "exceed" "ed" msg E) as [-> _]. reflexivity.
  - unfold _is_quota_exhausted. fold msg. intros H.
    apply orb_true_iff in H as [H|H].
    + apply (contains_app "insufficient_" "quota" msg H).
    + apply andb_true_iff in H as [H _]. exact H.
Qed.

End PaceFacts.

Module RunFacts.
Import Analyzer Db DbFacts Pipeline PipelineFacts Runs.
Local Open Scope list_scope.

Lemma deadline_poll env deadline st :
  deadline_passed deadline (snd (poll env st)) = deadline_passed deadline st.
Proof. destruct deadline; reflexivity. Qed.

(** *** What every step of a run preserves *)

Section Preserved.
Variables (env : Env) (cfg : Config) (deadline : option Q) (interval : Q).
Variable P : Tables -> Prop.
Hypothesis P_mark : forall w cid now tb,
  w <> MarkSkipped ->
  P tb -> P (mark w (analysis_tag cfg) cid (model cfg) now tb).
Hypothesis P_save : forall cid rows now tb,
  P tb -> P (save_mentions (analysis_tag cfg) cid (model cfg) rows now tb).
Hypothesis P_delete : forall tickers tb,
  P tb -> P (fst (delete_mentions_for_tickers (analysis_tag cfg) tickers tb)).

Lemma cleanup_preserved st :
  P (work st) -> P (work (_cleanup_invalid_tickers env (analysis_tag cfg) st)).
Proof.
  intros H.
  destruct (cleanup_cases env (analysis_tag cfg) st) as [E|(invalid & _ & E)];
    rewrite E; [exact H|]. cbn. apply P_delete, H.
Qed.

Lemma attempts_preserved fuel : forall cid text attempt st,
  P (work st) ->
  after_item (fun st' => P (work st'))
             (attempts env cfg deadline interval fuel cid text attempt st).
Proof.
  induction fuel as [|fuel IH]; intros cid text attempt st H; [exact I|].
  cbn [attempts]. unfold poll.
  destruct (should_abort env (polls st)).
  { apply cleanup_preserved, H. }
  destruct (deadline_passed deadline _).
  { apply cleanup_preserved, H. }
  match goal with
  | |- context [_pace interval deadline ?s] =>
      destruct (pace_readings interval deadline s) as (W & _);
      change (work s) with (work st) in W;
      rewrite <- W in H; revert H; generalize (_pace interval deadline s)
  end.
  clear W. intros st1 H. unfold call_service.
  destruct (service env (calls st1) (submitted_text text)) as [r seconds].
  destruct r as [ms|e|].
  - assert (Q : P (mark MarkOk (analysis_tag cfg) cid (model cfg)
                     (wall_clock env
                        (store_mentions env cfg cid (merge_mentions ms)
                           (count_model_call
                              {| work := work st1; durable := durable st1;
                                 outcome := outcome st1;
                                 clock := (clock st1 + seconds)%Q;
                                 next_call_at := next_call_at st1;
                                 polls := polls st1; calls := S (calls st1);
                                 trace := EvCall cid :: trace st1 |})))
                     (save_mentions (analysis_tag cfg) cid (model cfg)
                        (merge_mentions ms)
                        (wall_clock env
                           (count_model_call
                              {| work := work st1; durable := durable st1;
                                 outcome := outcome st1;
                                 clock := (clock st1 + seconds)%Q;
                                 next_call_at := next_call_at st1;
                                 polls := polls st1; calls := S (calls st1);
                                 trace := EvCall cid :: trace st1 |}))
                        (work st1)))).
    { apply P_mark; [discriminate|]. apply P_save, H. }
    cbv zeta. destruct (Nat.eqb _ 0); exact Q.
  - destruct (classify e).
    + exact H.
    + apply cleanup_preserved.
      apply (P_mark (MarkError (error_detail e))); [discriminate|exact H].
    + destruct (_backoff_seconds attempt) as [wait_s|]; [|exact H].
      apply IH.
      match goal with
      | |- P (work (_sleep_with_deadline ?s ?d ?x)) =>
          destruct (sleep_readings s d x) as (W & _); rewrite W
      end. exact H.
    + apply (P_mark (MarkError (error_detail e))); [discriminate|exact H].
  - apply cleanup_preserved, H.
Qed.

Lemma item_preserved fuel c st :
  P (work st) ->
  after_item (fun st' => P (work st'))
             (item env cfg deadline interval fuel c st).
Proof.
  intros H. destruct c as [cid body]. unfold item, poll.
  destruct (should_abort env (polls st)).
  { apply cleanup_preserved, H. }
  destruct (deadline_passed deadline _).
  { apply cleanup_preserved, H. }
  destruct (negb (PyStr.truthy (PyStr.strip body))); [exact H|].
  destruct (_ && _)%bool.
  - cbv zeta.
    destruct (Nat.eqb _ 0); (apply (P_mark MarkOk); [discriminate|exact H]).
  - apply attempts_preserved, H.
Qed.

Lemma items_preserved fuel candidates : forall st,
  P (work st) ->
  at_end (fun st' => P (work st'))
         (items env cfg deadline interval fuel candidates st).
Proof.
  induction candidates as [|c rest IH]; intros st H; cbn [items].
  - apply cleanup_preserved, H.
  - pose proof (item_preserved fuel c st H) as Hc.
    destruct (item env cfg deadline interval fuel c st) as [st'|r];
      [apply IH, Hc|exact Hc].
Qed.

End Preserved.

Lemma analyze_preserved (P : Tables -> Prop) env cfg fuel tb committed now :
  (forall w cid t tb', w <> MarkSkipped -> P tb' ->
     P (mark w (analysis_tag cfg) cid (model cfg) t tb')) ->
  (forall cid rows t tb', P tb' ->
     P (save_mentions (analysis_tag cfg) cid (model cfg) rows t tb')) ->
  (forall tickers tb', P tb' ->
     P (fst (delete_mentions_for_tickers (analysis_tag cfg) tickers tb'))) ->
  P tb ->
  at_end (fun st' => P (work st')) (analyze env cfg fuel tb committed now).
Proof.
  intros Hm Hs Hd H. unfold analyze.
  destruct (deadline_overflows cfg); [exact H|].
  destruct (get_secret env) as [[[|c k]|]|e]; try exact H.
  destruct (interval_overflows cfg); [exact H|].
  apply items_preserved; assumption.
Qed.

(** *** The rows of other tags *)

Lemma other_status_mark w tag cid model now tb :
  other_status tag (comment_analysis (mark w tag cid model now tb))
  = other_status tag (comment_analysis tb).
Proof.
  destruct (WriterFacts.mark_analysis w tag cid model now tb)
    as (row & Et & Ec & _ & E).
  rewrite E. unfold other_status, insert_or_replace_analysis.
  rewrite filter_app, filter_filter. simpl.
  rewrite Et, String.eqb_refl. simpl. rewrite app_nil_r.
  apply filter_ext. intros x. rewrite Ec. unfold analysis_key.
  destruct (String.eqb (a_tag x) tag); simpl; [apply andb_false_r|].
  reflexivity.
Qed.

Lemma other_mentions_save tag cid model rows now tb :
  other_mentions tag (mentions (save_mentions tag cid model rows now tb))
  = other_mentions tag (mentions tb).
Proof.
  unfold save_mentions, other_mentions. simpl.
  rewrite (save_fold tag cid model now rows (mentions tb)).
  rewrite filter_app, filter_filter.
  rewrite (filter_nil _ (fold_left _ rows [])).
  - rewrite app_nil_r. apply filter_ext. intros x. unfold mention_among.
    destruct (String.eqb (m_tag x) tag); simpl; [apply andb_false_r|].
    reflexivity.
  - intros x I.
    assert (K : mention_among tag cid (map fst rows) x = true).
    { apply (save_fold_keys tag cid model now rows (map fst rows) []);
        [intros y []|apply incl_refl|exact I]. }
    unfold mention_among in K.
    destruct (String.eqb (m_tag x) tag); [reflexivity|discriminate].
Qed.

Lemma other_mentions_delete tag tickers tb :
  other_mentions tag (mentions (fst (delete_mentions_for_tickers tag tickers tb)))
  = other_mentions tag (mentions tb).
Proof.
  rewrite ValidatorFacts.delete_mentions_unfold. cbv zeta. simpl.
  unfold other_mentions. rewrite filter_filter. apply filter_ext.
  intros x. unfold delete_matches.
  destruct (String.eqb (m_tag x) tag); simpl; [apply andb_false_r|].
  reflexivity.
Qed.

(** A run of [analyze] writes under its own tag only: however it ends, the
    comments are as they were, and so are, in their order, the status rows
    and the mention rows of every other tag. *)
Theorem run_writes_under_its_tag_only
        (env : Env) (cfg : Config) (fuel : nat) (tb committed : Tables)
        (now : Q) :
  at_end (fun st' =>
            comments (work st') = comments tb /\
            other_status (analysis_tag cfg) (comment_analysis (work st'))
            = other_status (analysis_tag cfg) (comment_analysis tb) /\
            other_mentions (analysis_tag cfg) (mentions (work st'))
            = other_mentions (analysis_tag cfg) (mentions tb))
         (analyze env cfg fuel tb committed now).
Proof.
  apply (analyze_preserved
           (fun tb' =>
              comments tb' = comments tb /\
              other_status (analysis_tag cfg) (comment_analysis tb')
              = other_status (analysis_tag cfg) (comment_analysis tb) /\
              other_mentions (analysis_tag cfg) (mentions tb')
              = other_mentions (analysis_tag cfg) (mentions tb))).
  - intros w cid t tb' _ (C & A & M). rewrite other_status_mark.
    destruct w; auto.
  - intros cid rows t tb' (C & A & M). rewrite other_mentions_save. auto.
  - intros tickers tb' (C & A & M). rewrite other_mentions_delete.
    destruct (ValidatorFacts.delete_mentions_frame
                (analysis_tag cfg) tickers tb') as (-> & -> & _). auto.
  - auto.
Qed.

Lemma delete_pk tag tickers tb :
  pk_mentions (mentions tb) ->
  pk_mentions (mentions (fst (delete_mentions_for_tickers tag tickers tb))).
Proof.
  rewrite ValidatorFacts.delete_mentions_unfold. cbv zeta. simpl.
  unfold pk_mentions. generalize (mentions tb). intros t N.
  induction t as [|x t IH]; simpl; [constructor|].
  inversion N as [|? ? N1 N2]; subst.
  destruct (negb _); simpl; [|auto].
  constructor; [|auto]. intros I. apply N1.
  apply in_map_iff in I as (y & E & I). apply filter_In in I as [I _].
  apply in_map_iff. eauto.
Qed.

(** A run of [analyze] keeps the primary keys: started on a store with at
    most one status row per (tag, record) and one mention row per (tag,
    record, symbol), it ends on such a store, however it ends. *)
Theorem run_keeps_primary_keys
        (env : Env) (cfg : Config) (fuel : nat) (tb committed : Tables)
        (now : Q) :
  pk_analysis (comment_analysis tb) -> pk_mentions (mentions tb) ->
  at_end (fun st' =>
            pk_analysis (comment_analysis (work st')) /\
            pk_mentions (mentions (work st')))
         (analyze env cfg fuel tb committed now).
Proof.
  intros Na Nm.
  apply (analyze_preserved
           (fun tb' => pk_analysis (comment_analysis tb') /\
                       pk_mentions (mentions tb'))).
  - intros w cid t tb' _ [A M]. split; [apply WriterFacts.mark_pk, A|].
    destruct w; exact M.
  - intros cid rows t tb' [A M].
    split; [exact A|apply WriterFacts.save_mentions_pk, M].
  - intros tickers tb' [A M]. split; [|apply delete_pk, M].
    destruct (ValidatorFacts.delete_mentions_frame
                (analysis_tag cfg) tickers tb') as (_ & -> & _). exact A.
  - auto.
Qed.

End RunFacts.

Module ItemFacts.
Import Analyzer Db DbFacts Pipeline PipelineFacts Runs RunFacts.
Local Open Scope list_scope.

Lemma among_row tag cid model now r syms :
  mention_among tag cid syms (mention_row tag cid model now r)
  = existsb (String.eqb (fst r)) syms.
Proof. unfold mention_among. simpl. rewrite !String.eqb_refl. reflexivity. Qed.

Lemma save_fresh tag cid model now rows :
  NoDup (map fst rows) ->
  fold_left (write_mention tag cid model now) rows []
  = map (mention_row tag cid model now) rows.
Proof.
  induction rows as [|r rows IH]; intros N; simpl; [reflexivity|].
  inversion N as [|? ? N1 N2]; subst.
  rewrite (save_fold tag cid model now rows), (IH N2).
  unfold write_mention, insert_or_replace_mention. simpl.
  rewrite among_row.
  replace (existsb (String.eqb (fst r)) (map fst rows)) with false;
    [reflexivity|].
  symmetry. destruct (existsb _ _) eqn:E; [|reflexivity].
  apply ValidatorFacts.existsb_eqb_in in E. contradiction.
Qed.

(** With the keyword shortcut on, a record whose text holds no finance term
    is marked "ok" with no call of the service and no wait: the count of
    analyzed records grows by one, the count of model calls does not, and
    no mention is written. *)
Theorem shortcut_marks_ok_without_a_call
        (env : Env) (cfg : Config) (deadline : option Q) (interval : Q)
        (fuel : nat) (cid body : string) (st : Run) :
  should_abort env (polls st) = false ->
  deadline_passed deadline st = false ->
  ENABLE_KEYWORD_SHORTCUT env = true ->
  PyStr.truthy (PyStr.strip body) = true ->
  Ticker.has_finance_hint (PyStr.strip body) = false ->
  exists st',
    item env cfg deadline interval fuel (cid, body) st = Next st' /\
    calls st' = calls st /\ clock st' = clock st /\
    status_row (work st') (analysis_tag cfg) cid
    = Some {| a_tag := analysis_tag cfg; a_comment_id := cid;
              a_model := model cfg; a_analyzed_at := wall_clock env st;
              a_status := ok; a_error := None |} /\
    mentions (work st') = mentions (work st) /\
    comments (work st') = comments (work st) /\
    outcome st'
    = {| analyzed := S (analyzed (outcome st));
         errors := errors (outcome st);
         analyzed_model_calls := analyzed_model_calls (outcome st);
         stopped_reason := stopped_reason (outcome st) |}.
Proof.
  intros Ha Hd Hk Ht Hh.
  pose proof (deadline_poll env deadline st) as Dp. rewrite Hd in Dp.
  unfold item. unfold poll in *. cbn [snd] in Dp. rewrite Ha, Dp, Ht, Hk, Hh.
  cbn [negb andb]. cbv zeta.
  assert (R : status_row
                (mark_analyzed_ok (analysis_tag cfg) cid (model cfg)
                                  (wall_clock env st) (work st))
                (analysis_tag cfg) cid
              = Some {| a_tag := analysis_tag cfg; a_comment_id := cid;
                        a_model := model cfg;
                        a_analyzed_at := wall_clock env st;
                        a_status := ok; a_error := None |}).
  { unfold status_row, mark_analyzed_ok. simpl. apply find_of_rows.
    apply (replace_analysis_rows
             {| a_tag := analysis_tag cfg; a_comment_id := cid;
                a_model := model cfg; a_analyzed_at := wall_clock env st;
                a_status := ok; a_error := None |}). }
  destruct (Nat.eqb _ 0); eexists; (split; [reflexivity|]);
    repeat split; exact R.
Qed.

(** A record the service answers for is stored whole: its status is "ok",
    and its mentions under the tag are, one row per symbol of the merged
    answer and in its order, stamped with the tag, the record, the model and
    the time of the answer; the rows the record had for other symbols, and
    all rows of other records, stay. One call is made and both counts grow
    by one. *)
Theorem model_answer_is_stored
        (env : Env) (cfg : Config) (deadline : option Q) (interval : Q)
        (fuel : nat) (cid body : string) (ms : list Mention) (seconds : Q)
        (st : Run) :
  should_abort env (polls st) = false ->
  should_abort env (S (polls st)) = false ->
  deadline_passed deadline st = false ->
  PyStr.truthy (PyStr.strip body) = true ->
  (ENABLE_KEYWORD_SHORTCUT env
   && negb (Ticker.has_finance_hint (PyStr.strip body)))%bool = false ->
  service env (calls st) (submitted_text (PyStr.strip body))
  = (Parsed ms, seconds) ->
  exists st',
    item env cfg deadline interval (S fuel) (cid, body) st = Next st' /\
    calls st' = S (calls st) /\
    status_row (work st') (analysis_tag cfg) cid
    = Some {| a_tag := analysis_tag cfg; a_comment_id := cid;
              a_model := model cfg; a_analyzed_at := wall_clock env st';
              a_status := ok; a_error := None |} /\
    mentions (work st')
    = filter (fun r => negb (mention_among (analysis_tag cfg) cid
                                           (map fst (merge_mentions ms)) r))
             (mentions (work st))
      ++ map (mention_row (analysis_tag cfg) cid (model cfg)
                          (wall_clock env st'))
             (merge_mentions ms) /\
    comments (work st') = comments (work st) /\
    outcome st'
    = {| analyzed := S (analyzed (outcome st));
         errors := errors (outcome st);
         analyzed_model_calls := S (analyzed_model_calls (outcome st));
         stopped_reason := stopped_reason (outcome st) |}.
Proof.
  intros Ha1 Ha2 Hd Ht Hk Hs.
  pose proof (deadline_poll env deadline st) as Dp. rewrite Hd in Dp.
  unfold item. unfold poll in *. cbn [snd] in Dp. rewrite Ha1, Dp, Ht, Hk.
  cbn [negb]. cbn [attempts]. unfold poll. cbn [polls]. rewrite Ha2.
  assert (Dp2 : forall p,
            deadline_passed deadline
              {| work := work st; durable := durable st;
                 outcome := outcome st; clock := clock st;
                 next_call_at := next_call_at st; polls := p;
                 calls := calls st; trace := trace st |} = false).
  { intros p. rewrite <- Hd. destruct deadline; reflexivity. }
  rewrite Dp2.
  match goal with
  | |- context [_pace interval deadline ?s] => set (s1 := s)
  end.
  destruct (pace_readings interval deadline s1) as (W & _ & O & C & _).
  change (work s1) with (work st) in W.
  change (outcome s1) with (outcome st) in O.
  change (calls s1) with (calls st) in C.
  revert W O C. generalize (_pace interval deadline s1).
  intros st1 W O C. unfold call_service. rewrite C, Hs. cbv zeta.
  assert (F : forall now,
            fold_left (write_mention (analysis_tag cfg) cid (model cfg) now)
                      (merge_mentions ms) (mentions (work st))
            = filter (fun r => negb (mention_among (analysis_tag cfg) cid
                                       (map fst (merge_mentions ms)) r))
                     (mentions (work st))
              ++ map (mention_row (analysis_tag cfg) cid (model cfg) now)
                     (merge_mentions ms)).
  { intros t. rewrite save_fold, save_fresh; [reflexivity|].
    apply AnalyzerFacts.merge_nodup. constructor. }
  assert (R : forall now t,
            find (analysis_key (analysis_tag cfg) cid)
                 (insert_or_replace_analysis
                    {| a_tag := analysis_tag cfg; a_comment_id := cid;
                       a_model := model cfg; a_analyzed_at := now;
                       a_status := ok; a_error := None |} t)
            = Some {| a_tag := analysis_tag cfg; a_comment_id := cid;
                      a_model := model cfg; a_analyzed_at := now;
                      a_status := ok; a_error := None |}).
  { intros t l. apply find_of_rows.
    apply (replace_analysis_rows
             {| a_tag := analysis_tag cfg; a_comment_id := cid;
                a_model := model cfg; a_analyzed_at := t;
                a_status := ok; a_error := None |}). }
  destruct (Nat.eqb _ 0); eexists; (split; [reflexivity|]);
    unfold status_row; cbn; rewrite W, O;
    (split; [reflexivity|]); (split; [apply R|]);
    (split; [apply F|]); split; reflexivity.
Qed.

End ItemFacts.

Module EndingFacts.
Import Analyzer Db DbFacts Pipeline PipelineFacts Runs RunFacts.
Local Open Scope list_scope.

Lemma classify_fatal e : classify e = FatalAuth -> _is_fatal_auth e = true.
Proof.
  unfold classify. destruct (_is_fatal_auth e); [reflexivity|].
  destruct (_ && _)%bool; [discriminate|].
  destruct (_is_retryable e); discriminate.
Qed.

Lemma classify_quota e :
  classify e = QuotaExhausted ->
  is_rate_limit_error e = true /\ _is_quota_exhausted e = true.
Proof.
  unfold classify. destruct (_is_fatal_auth e); [discriminate|].
  destruct (is_rate_limit_error e && _is_quota_exhausted e)%bool eqn:E.
  - intros _. apply andb_true_iff, E.
  - destruct (_is_retryable e); discriminate.
Qed.

Section Endings.
Variables (env : Env) (cfg : Config) (deadline : option Q) (interval : Q).

Lemma stops_from_outcome a b r :
  outcome a = outcome b ->
  stops_from env deadline a r -> stops_from env deadline b r.
Proof. intros E. destruct r; simpl; rewrite ?E; auto. Qed.

Lemma stop_ctrl_c_from st0 st :
  outcome st = outcome st0 ->
  ((exists n, should_abort env n = true) \/
   exists n t s, service env n t = (Interrupted, s)) ->
  stops_from env deadline st0 (stop_ctrl_c env cfg st).
Proof.
  intros O C. unfold stop_ctrl_c, stops_from, stop_cause.
  pose proof (cleanup_readings env (analysis_tag cfg)
                (set_reason "ctrl_c" (commit st))) as R.
  cbv zeta in R. destruct R as (Oc & _). rewrite Oc. cbn. rewrite O.
  split; [discriminate|]. split; [right; left; auto|].
  repeat split.
Qed.

Lemma stop_timeout_from st0 st :
  outcome st = outcome st0 ->
  deadline_passed deadline st = true ->
  stops_from env deadline st0 (stop_timeout env cfg st).
Proof.
  intros O D. unfold stop_timeout, stops_from, stop_cause.
  pose proof (cleanup_readings env (analysis_tag cfg)
                (commit (set_reason "timeout" st))) as R.
  cbv zeta in R. destruct R as (Oc & Cc & _). rewrite Oc, Cc. cbn. rewrite O.
  split; [discriminate|]. split; [|repeat split].
  left. split; [reflexivity|].
  destruct deadline as [d|]; [|discriminate].
  exists d. split; [reflexivity|]. apply Qle_bool_iff, D.
Qed.

Lemma stop_quota_from st0 st cid e n t s :
  outcome st = outcome st0 ->
  service env n t = (Raises e, s) -> classify e = QuotaExhausted ->
  stops_from env deadline st0 (stop_quota env cfg cid e st).
Proof.
  intros O Sv C. unfold stop_quota, stops_from, stop_cause.
  pose proof (cleanup_readings env (analysis_tag cfg)
                (set_reason "quota" (commit (mark_error env cfg cid e st))))
    as R.
  cbv zeta in R. destruct R as (Oc & _). rewrite Oc. cbn. rewrite O.
  split; [discriminate|]. split; [|repeat split].
  right. right. split; [reflexivity|].
  exists n, t, e, s. split; [exact Sv|apply classify_quota, C].
Qed.

Lemma backoff_none_inv attempt :
  _backoff_seconds attempt = None -> 1024 <= attempt.
Proof.
  intros H. destruct (Nat.lt_ge_cases attempt 1024) as [S|G]; [|exact G].
  rewrite (backoff_some attempt S) in H. discriminate.
Qed.

Lemma retried_next text first attempt e s :
  retried env text first attempt ->
  service env (first + attempt) (submitted_text text) = (Raises e, s) ->
  classify e = Transient ->
  retried env text first (S attempt).
Proof.
  intros R Sv C k Hk.
  destruct (Nat.eq_dec k attempt) as [->|Nk]; [eauto|apply R; lia].
Qed.

Lemma attempts_ending fuel : forall cid text attempt first st,
  calls st = first + attempt ->
  retried env text first attempt ->
  match attempts env cfg deadline interval fuel cid text attempt st with
  | Next st' =>
      stopped_reason (outcome st') = stopped_reason (outcome st) /\
      analyzed (outcome st') + errors (outcome st')
      = S (analyzed (outcome st) + errors (outcome st)) /\
      analyzed_model_calls (outcome st') + analyzed (outcome st)
      <= analyzed_model_calls (outcome st) + analyzed (outcome st') /\
      done_with (work st') (analysis_tag cfg) cid
  | Stop r => stops_from env deadline st r
  end.
Proof.
  induction fuel as [|fuel IH]; intros cid text attempt first st Cs Rt;
    [exact I|].
  cbn [attempts]. unfold poll.
  destruct (should_abort env (polls st)) eqn:A.
  { apply stop_ctrl_c_from; [reflexivity|left; eauto]. }
  destruct (deadline_passed deadline _) eqn:D.
  { apply stop_timeout_from; [reflexivity|exact D]. }
  match goal with
  | |- context [_pace interval deadline ?s] => set (s1 := s)
  end.
  destruct (pace_readings interval deadline s1) as (_ & _ & O & Ca & _).
  change (outcome s1) with (outcome st) in O.
  change (calls s1) with (calls st) in Ca. rewrite Cs in Ca.
  revert O Ca. generalize (_pace interval deadline s1). intros st1 O Ca.
  unfold call_service.
  destruct (service env (calls st1) (submitted_text text)) as [r seconds] eqn:Sv.
  destruct r as [ms|e|].
  - cbv zeta.
    assert (K : done_with
                  (mark MarkOk (analysis_tag cfg) cid (model cfg)
                     (wall_clock env
                        (store_mentions env cfg cid (merge_mentions ms)
                           (count_model_call
                              {| work := work st1; durable := durable st1;
                                 outcome := outcome st1;
                                 clock := (clock st1 + seconds)%Q;
                                 next_call_at := next_call_at st1;
                                 polls := polls st1; calls := S (calls st1);
                                 trace := EvCall cid :: trace st1 |})))
                     (save_mentions (analysis_tag cfg) cid (model cfg)
                        (merge_mentions ms)
                        (wall_clock env
                           (count_model_call
                              {| work := work st1; durable := durable st1;
                                 outcome := outcome st1;
                                 clock := (clock st1 + seconds)%Q;
                                 next_call_at := next_call_at st1;
                                 polls := polls st1; calls := S (calls st1);
                                 trace := EvCall cid :: trace st1 |}))
                        (work st1)))
                  (analysis_tag cfg) cid).
    { left. apply (SelectionMore.status_after_mark MarkOk). }
    destruct (Nat.eqb _ 0); cbn; rewrite O;
      (split; [reflexivity|]); (split; [lia|]); (split; [lia|exact K]).
  - destruct (classify e) eqn:C.
    + cbn. split; [|exact O]. left. split; [apply classify_fatal, C|eauto].
    + refine (stop_quota_from st _ cid e _ _ _ _ Sv C). exact O.
    + rewrite Ca in Sv.
      pose proof (retried_next text first attempt e seconds Rt Sv C) as Rn.
      destruct (_backoff_seconds attempt) as [wait_s|] eqn:B.
      2:{ cbn. split; [|exact O]. right. split; [reflexivity|].
          apply backoff_none_inv in B. exists first, text.
          intros k Hk. apply Rn. lia. }
      match goal with
      | |- context [attempts _ _ _ _ _ _ _ _ ?s] =>
          pose proof (IH cid text (S attempt) first s) as H;
          assert (Os : outcome s = outcome st);
          [|assert (Cn : calls s = first + S attempt)]
      end.
      { match goal with
        | |- outcome (_sleep_with_deadline ?w ?d ?x) = _ =>
            destruct (sleep_readings w d x) as (_ & _ & Ox & _); rewrite Ox
        end. exact O. }
      { match goal with
        | |- calls (_sleep_with_deadline ?w ?d ?x) = _ =>
            destruct (sleep_readings w d x) as (_ & _ & _ & Cx & _);
            rewrite Cx
        end. cbn [calls]. rewrite Ca. lia. }
      specialize (H Cn Rn).
      destruct (attempts _ _ _ _ _ _ _ _ _) as [st'|r].
      * rewrite Os in H. exact H.
      * apply (stops_from_outcome _ _ _ Os H).
    + cbn. rewrite O. split; [reflexivity|]. split; [lia|]. split; [lia|].
      right. apply (SelectionMore.status_after_mark (MarkError (error_detail e))).
  - apply stop_ctrl_c_from; [exact O|right; eauto].
Qed.

Lemma item_ending fuel c st :
  match item env cfg deadline interval fuel c st with
  | Next st' =>
      stopped_reason (outcome st') = stopped_reason (outcome st) /\
      analyzed (outcome st') + errors (outcome st')
      = analyzed (outcome st) + errors (outcome st)
        + (if nonblank c then 1 else 0) /\
      analyzed_model_calls (outcome st') + analyzed (outcome st)
      <= analyzed_model_calls (outcome st) + analyzed (outcome st') /\
      (nonblank c = true -> done_with (work st') (analysis_tag cfg) (fst c))
  | Stop r => stops_from env deadline st r
  end.
Proof.
  destruct c as [cid body]. unfold item, poll, nonblank. cbn [fst snd].
  destruct (should_abort env (polls st)) eqn:A.
  { apply stop_ctrl_c_from; [reflexivity|left; eauto]. }
  destruct (deadline_passed deadline _) eqn:D.
  { apply stop_timeout_from; [reflexivity|exact D]. }
  destruct (PyStr.truthy (PyStr.strip body)) eqn:T; cbn [negb].
  2:{ cbn. split; [reflexivity|]. split; [lia|]. split; [lia|discriminate]. }
  destruct (_ && _)%bool.
  - cbv zeta.
    assert (K : done_with
                  (mark MarkOk (analysis_tag cfg) cid (model cfg)
                     (wall_clock env
                        {| work := work st; durable := durable st;
                           outcome := outcome st; clock := clock st;
                           next_call_at := next_call_at st;
                           polls := S (polls st); calls := calls st;
                           trace := trace st |})
                     (work st))
                  (analysis_tag cfg) cid).
    { left. apply (SelectionMore.status_after_mark MarkOk). }
    destruct (Nat.eqb _ 0); cbn;
      (split; [reflexivity|]); (split; [lia|]); (split; [lia|intros _; exact K]).
  - match goal with
    | |- context [attempts _ _ _ _ ?f ?c ?t ?a ?s] =>
        pose proof (attempts_ending f c t a (calls s) s
                      (eq_sym (Nat.add_0_r _))
                      (fun k (Hk : k < 0) =>
                         False_ind _ (Nat.nlt_0_r k Hk))) as H;
        destruct (attempts env cfg deadline interval f c t a s) as [st'|r]
    end.
    + cbn [outcome] in H. destruct H as (H1 & H2 & H3 & H4).
      split; [exact H1|]. split; [lia|]. split; [exact H3|intros _; exact H4].
    + revert H. apply stops_from_outcome. reflexivity.
Qed.

Lemma done_with_preserved fuel cid candidates st :
  done_with (work st) (analysis_tag cfg) cid ->
  at_end (fun st' => done_with (work st') (analysis_tag cfg) cid)
         (items env cfg deadline interval fuel candidates st).
Proof.
  apply (items_preserved env cfg deadline interval
           (fun tb => done_with tb (analysis_tag cfg) cid)).
  - intros w cid' t tb Nw H.
    destruct (string_dec cid' cid) as [->|Nc].
    + unfold done_with. rewrite SelectionMore.status_after_mark.
      destruct w; [left|contradiction|right]; reflexivity.
    + unfold done_with. rewrite SelectionMore.status_elsewhere; [exact H|].
      congruence.
  - intros cid' rows t tb H. exact H.
  - intros tickers tb H. unfold done_with, status_of, status_row in *.
    destruct (ValidatorFacts.delete_mentions_frame
                (analysis_tag cfg) tickers tb) as (_ & -> & _). exact H.
Qed.

Lemma items_ending fuel candidates : forall st,
  stopped_reason (outcome st) = None ->
  match items env cfg deadline interval fuel candidates st with
  | Returned st' =>
      stop_cause env deadline st' /\
      analyzed_model_calls (outcome st') + analyzed (outcome st)
      <= analyzed_model_calls (outcome st) + analyzed (outcome st') /\
      analyzed (outcome st') + errors (outcome st')
      <= analyzed (outcome st) + errors (outcome st)
         + List.length (filter nonblank candidates) /\
      (stopped_reason (outcome st') = None ->
       analyzed (outcome st') + errors (outcome st')
       = analyzed (outcome st) + errors (outcome st)
         + List.length (filter nonblank candidates) /\
       forall c, In c candidates -> nonblank c = true ->
                 done_with (work st') (analysis_tag cfg) (fst c))
  | Propagated e st' => raise_cause env e
  | OutOfFuel => True
  end.
Proof.
  induction candidates as [|c rest IH]; intros st N; cbn [items].
  - pose proof (cleanup_readings env (analysis_tag cfg) (commit st)) as R.
    cbv zeta in R. destruct R as (Oc & _).
    unfold stop_cause. rewrite Oc. cbn. rewrite N.
    split; [exact I|]. split; [lia|]. split; [lia|].
    intros _. split; [lia|]. intros c [].
  - pose proof (item_ending fuel c st) as Hc.
    pose proof (done_with_preserved fuel (fst c) rest) as Hp.
    destruct (item env cfg deadline interval fuel c st) as [st1|r].
    + destruct Hc as (H1 & H2 & H3 & H4).
      specialize (IH st1). rewrite H1 in IH. specialize (IH N).
      specialize (Hp st1).
      destruct (items env cfg deadline interval fuel rest st1) as [st'|e st'|];
        [|exact IH|exact I].
      destruct IH as (I1 & I2 & I3 & I4).
      assert (L : List.length (filter nonblank (c :: rest))
                  = (if nonblank c then 1 else 0)
                    + List.length (filter nonblank rest)).
      { simpl. destruct (nonblank c); reflexivity. }
      rewrite L. split; [exact I1|]. split; [lia|]. split; [lia|].
      intros Nn. destruct (I4 Nn) as [I5 I6]. split; [lia|].
      intros c' [<-|Ic] Tc; [apply Hp, H4, Tc|apply I6; assumption].
    + destruct r as [st'|e st'|];
        [|destruct Hc as (H1 & _); exact H1|exact I].
      destruct Hc as (Hn & Hcause & Ha & He & Hm).
      split; [exact Hcause|]. split; [lia|]. split; [lia|].
      intros Nn. contradiction.
Qed.

End Endings.

(** A call of [analyze] that returns with a reason has its cause in the
    surroundings: "timeout" with a timeout that was set, "ctrl_c" with an
    abort seen at the keyboard or an interrupt of a call, "quota" with a
    rate-limit failure of the service whose message tells of the quota. A
    call that raises does so before it touched anything (the timeout or
    the rate is too large for a float, the look-up of the key raises, or
    there is no key), or lets through a failure of authentication or of
    permission raised by the service, or raises [OverflowError] after 1025
    failures in a row of the calls for one candidate, each of a kind that
    is retried; every other failure of the service is absorbed. Given 1025
    attempts for a candidate, the call ends. *)
Theorem run_stops_for_a_cause
        (env : Env) (cfg : Config) (fuel : nat) (tb committed : Tables)
        (now : Q) :
  match analyze env cfg fuel tb committed now with
  | Returned st' =>
      match stopped_reason (outcome st') with
      | None => True
      | Some r =>
          (r = "timeout" /\
           exists t, timeout_seconds cfg = Some t /\ t <> 0%Z) \/
          (r = "ctrl_c" /\
           ((exists n, should_abort env n = true) \/
            exists n t s, service env n t = (Interrupted, s))) \/
          (r = "quota" /\
           exists n t e s,
             service env n t = (Raises e, s) /\
             exn_class e = RateLimitError /\ _is_quota_exhausted e = true)
      end
  | Propagated e st' =>
      (st' = start tb committed now /\
       ((e = overflow_error /\
         (deadline_overflows cfg = true \/ interval_overflows cfg = true)) \/
        get_secret env = Secret_raises e \/
        ((get_secret env = Secret_value None \/
          get_secret env = Secret_value (Some "")) /\
         e = runtime_error
               "Missing OpenAI API key. Use Setup to enter it."))) \/
      (_is_fatal_auth e = true /\
       exists n t s, service env n t = (Raises e, s)) \/
      (e = overflow_error /\
       exists first text,
         forall k, k < 1025 ->
           exists e' s,
             service env (first + k) (submitted_text text) = (Raises e', s) /\
             _is_fatal_auth e' = false /\
             _is_retryable e' = true /\
             (exn_class e' = RateLimitError ->
              _is_quota_exhausted e' = false))
  | OutOfFuel => fuel < 1025
  end.
Proof.
  unfold analyze.
  destruct (deadline_overflows cfg) eqn:Dov; [left; auto|].
  destruct (get_secret env) as [[[|c0 k0]|]|e0] eqn:G;
    try (left; split; [reflexivity|]; auto).
  destruct (interval_overflows cfg) eqn:Iov; [left; auto|].
  cbv zeta.
  match goal with
  | |- context [items ?e ?c ?d ?i ?f ?l ?s] =>
      pose proof (items_ending e c d i f l s eq_refl) as H;
      pose proof (fun F => items_end e c d i f l F s) as En;
      destruct (items e c d i f l s) as [st'|x st'|]
  end.
  - destruct H as [H _]. unfold stop_cause in H.
    destruct (stopped_reason (outcome st')) as [r|]; [|exact I].
    destruct H as [[E (d & Hd & _)]|[H|[E (n & t & e & s & Sv & Rl & Qe)]]].
    + left. split; [exact E|]. unfold run_deadline in Hd.
      destruct (timeout_seconds cfg) as [t|]; [|discriminate].
      exists t. split; [reflexivity|]. intros ->. discriminate.
    + right. left. exact H.
    + right. right. split; [exact E|]. exists n, t, e, s.
      split; [exact Sv|]. split; [|exact Qe].
      unfold is_rate_limit_error in Rl.
      destruct (exn_class e); try discriminate. reflexivity.
  - right. destruct H as [H|[E (first & text & R)]]; [left; exact H|right].
    split; [exact E|]. exists first, text. intros k Hk.
    destruct (R k Hk) as (e' & s & Sv & C). exists e', s.
    split; [exact Sv|]. unfold classify, is_rate_limit_error in C.
    destruct (_is_fatal_auth e'); [discriminate|]. split; [reflexivity|].
    destruct (exn_class e') eqn:Ec; cbn [andb] in C;
      try (destruct (_is_retryable e');
           [split; [reflexivity|discriminate]|discriminate]).
    destruct (_is_quota_exhausted e'); [discriminate|].
    destruct (_is_retryable e'); [split; reflexivity|discriminate].
  - destruct (Nat.lt_ge_cases fuel 1025) as [L|Ge]; [exact L|].
    exfalso. apply (En Ge). reflexivity.
Qed.

(** A call of [analyze] that returns with no reason has gone through all
    its candidates: those with a body that is not blank are each counted
    once, as analyzed or as an error, and each has the status "ok" or
    "error" under the tag. A call that returns early has counted no more
    than that; the calls of the model it counts are never more than the
    records it analyzed. *)
Theorem run_accounts_for_every_candidate
        (env : Env) (cfg : Config) (fuel : nat) (tb committed : Tables)
        (now : Q) :
  match analyze env cfg fuel tb committed now with
  | Returned st' =>
      analyzed_model_calls (outcome st') <= analyzed (outcome st') /\
      analyzed (outcome st') + errors (outcome st')
      <= List.length (filter nonblank (candidates_of cfg tb)) /\
      (stopped_reason (outcome st') = None ->
       analyzed (outcome st') + errors (outcome st')
       = List.length (filter nonblank (candidates_of cfg tb)) /\
       forall c, In c (candidates_of cfg tb) -> nonblank c = true ->
                 done_with (work st') (analysis_tag cfg) (fst c))
  | Propagated _ _ | OutOfFuel => True
  end.
Proof.
  unfold analyze, candidates_of.
  destruct (deadline_overflows cfg); [exact I|].
  destruct (get_secret env) as [[[|c k]|]|e0]; try exact I.
  destruct (interval_overflows cfg); [exact I|].
  cbv zeta.
  match goal with
  | |- context [items ?e ?c ?d ?i ?f ?l ?s] =>
      pose proof (items_ending e c d i f l s eq_refl) as H;
      destruct (items e c d i f l s) as [st'|x st'|]
  end; try exact I.
  cbn [outcome start analyzed errors analyzed_model_calls work] in H.
  destruct H as (_ & H1 & H2 & H3).
  split; [lia|]. split; [lia|]. intros Nn. destruct (H3 Nn) as [H4 H5].
  split; [lia|exact H5].
Qed.

End EndingFacts.

Module LimiterFacts.
Import OpenaiClient.
Local Open Scope list_scope.

Lemma old_iff now t : negb (Qle_bool (now - t) 60) = true <-> (60 < now - t)%Q.
Proof.
  rewrite negb_true_iff. apply PipelineFacts.Qle_bool_false.
Qed.

Lemma evict_suffix now ts :
  exists old, ts = old ++ evict now ts /\
              Forall (fun x => (60 < now - x)%Q) old.
Proof.
  induction ts as [|t ts (old & E & F)]; simpl.
  - exists []. split; [reflexivity|constructor].
  - destruct (negb (Qle_bool (now - t) 60)) eqn:O.
    + exists (t :: old). split; [simpl; rewrite <- E; reflexivity|].
      constructor; [apply old_iff, O|exact F].
    + exists []. split; [reflexivity|constructor].
Qed.

Lemma evict_length now ts : List.length (evict now ts) <= List.length ts.
Proof.
  destruct (evict_suffix now ts) as (old & E & _).
  rewrite E at 2. rewrite length_app. lia.
Qed.

Lemma evict_head now ts t0 r : evict now ts = t0 :: r -> (now - t0 <= 60)%Q.
Proof.
  induction ts as [|t ts IH]; simpl; [discriminate|].
  destruct (negb (Qle_bool (now - t) 60)) eqn:O; [exact IH|].
  intros [= -> _]. apply negb_false_iff, Qle_bool_iff in O. exact O.
Qed.

Lemma evict_fresh now ts :
  Forall (fun t => (now - t <= 60)%Q) ts -> evict now ts = ts.
Proof.
  destruct 1 as [|t ts H _]; simpl; [reflexivity|].
  replace (negb (Qle_bool (now - t) 60)) with false; [reflexivity|].
  symmetry. apply negb_false_iff, Qle_bool_iff, H.
Qed.

Lemma evict_all now ts :
  Forall (fun t => (60 < now - t)%Q) ts -> evict now ts = [].
Proof.
  induction 1 as [|t ts H _ IH]; simpl; [reflexivity|].
  replace (negb (Qle_bool (now - t) 60)) with true; [exact IH|].
  symmetry. apply old_iff, H.
Qed.

Lemma forall_older (a b : Q) l :
  (a <= b)%Q -> Forall (fun x => (60 < a - x)%Q) l ->
  Forall (fun x => (60 < b - x)%Q) l.
Proof.
  intros L F. eapply Forall_impl; [|exact F]. cbv beta. intros x H. lra.
Qed.

(** One call of [wait] on a limiter within its bound. *)
Lemma wait_spec rl now :
  (1 <= max_per_minute rl)%Z ->
  (Z.of_nat (List.length (times rl)) <= max_per_minute rl)%Z ->
  exists rl' g old,
    wait rl now = Some (rl', g) /\ (now <= g)%Q /\
    max_per_minute rl' = max_per_minute rl /\
    (Z.of_nat (List.length (times rl')) <= max_per_minute rl)%Z /\
    times rl ++ [g] = old ++ times rl' /\
    Forall (fun x => (60 < g - x)%Q) old.
Proof.
  intros M1 L. unfold wait.
  destruct (evict_suffix now (times rl)) as (old1 & E1 & F1).
  pose proof (evict_length now (times rl)) as L1.
  destruct (Z.leb _ _) eqn:Full.
  - apply Z.leb_le in Full.
    destruct (evict now (times rl)) as [|t0 r] eqn:Ev; [simpl in Full; lia|].
    pose proof (evict_head _ _ _ _ Ev) as H0. cbv zeta.
    set (g := (now + Qmax 0 (60 - (now - t0) + (1 # 4)))%Q).
    assert (G : (g == t0 + 60 + (1 # 4))%Q).
    { unfold g. rewrite Q.max_r; lra. }
    assert (O : negb (Qle_bool (g - t0) 60) = true) by (apply old_iff; lra).
    cbn [evict]. rewrite O.
    destruct (evict_suffix g r) as (old2 & E2 & F2).
    pose proof (evict_length g r) as L2.
    exists {| max_per_minute := max_per_minute rl;
              times := evict g r ++ [g] |}, g, (old1 ++ t0 :: old2).
    split; [reflexivity|]. split; [lra|]. split; [reflexivity|].
    cbn [times max_per_minute]. split; [|split].
    + rewrite length_app. simpl in L1 |- *. lia.
    + rewrite E1 at 1. rewrite E2 at 1.
      rewrite <- !app_assoc. simpl. rewrite <- app_assoc. reflexivity.
    + apply Forall_app. split; [apply (forall_older now g); [lra|exact F1]|].
      constructor; [lra|exact F2].
  - apply Z.leb_gt in Full.
    exists {| max_per_minute := max_per_minute rl;
              times := evict now (times rl) ++ [now] |}, now, old1.
    split; [reflexivity|]. split; [lra|]. split; [reflexivity|].
    cbn [times max_per_minute]. split; [|split].
    + rewrite length_app. simpl. lia.
    + rewrite E1 at 1. rewrite <- app_assoc. reflexivity.
    + exact F1.
Qed.

Lemma window_of_suffix g old ts :
  Forall (fun x => (60 < g - x)%Q) old ->
  List.length (in_window g (old ++ ts)) <= List.length ts.
Proof.
  intros F. unfold in_window. rewrite filter_app.
  rewrite (DbFacts.filter_nil _ old).
  - simpl. apply filter_length_le.
  - intros x I. rewrite Forall_forall in F.
    apply PipelineFacts.Qle_bool_false, F, I.
Qed.

Lemma waits_window M : forall gaps rl clock pre old,
  Forall (fun g => (0 <= g)%Q) gaps ->
  (1 <= M)%Z -> max_per_minute rl = M ->
  (Z.of_nat (List.length (times rl)) <= M)%Z ->
  pre = old ++ times rl ->
  Forall (fun x => (60 < clock - x)%Q) old ->
  Forall (fun x => (x <= clock)%Q) pre ->
  exists log rl',
    waits gaps rl clock = Some (log, rl') /\
    List.length log = List.length gaps /\
    forall before g after,
      log = before ++ g :: after ->
      (Z.of_nat (List.length (in_window g (pre ++ before ++ [g]))) <= M)%Z /\
      Forall (fun x => (x <= g)%Q) (pre ++ before).
Proof.
  induction gaps as [|gap gaps IH];
    intros rl clock pre old Hg M1 Em Lt Ep Fo Fp.
  - exists [], rl. split; [reflexivity|]. split; [reflexivity|].
    intros [|? ?] g after E; discriminate.
  - inversion Hg as [|? ? G0 Hg']; subst gap l.
    cbn [waits].
    destruct (wait_spec rl (clock + x)%Q) as (rl1 & g1 & old1 & W & Ng & Em1 & L1 & E1 & F1);
      [rewrite Em; exact M1|rewrite Em; exact Lt|].
    rewrite W. rewrite Em in L1.
    assert (Cg : (clock <= g1)%Q) by lra.
    destruct (IH rl1 g1 (pre ++ [g1]) (old ++ old1) Hg' M1) as (log & rl2 & Wr & Ll & Hw).
    + congruence.
    + exact L1.
    + rewrite Ep, <- !app_assoc. f_equal. exact E1.
    + apply Forall_app. split; [apply (forall_older clock g1); assumption|exact F1].
    + apply Forall_app. split.
      * eapply Forall_impl; [|exact Fp]. cbv beta. intros y Hy. lra.
      * constructor; [lra|constructor].
    + rewrite Wr. exists (g1 :: log), rl2.
      split; [reflexivity|]. split; [simpl; congruence|].
      intros before g after E. destruct before as [|b before].
      * injection E as <- _. split.
        -- simpl app. rewrite Ep, <- app_assoc, E1, app_assoc.
           pose proof (window_of_suffix g1 (old ++ old1) (times rl1)) as Hl.
           assert (Fa : Forall (fun x0 => (60 < g1 - x0)%Q) (old ++ old1)).
           { apply Forall_app. split;
               [apply (forall_older clock g1); assumption|exact F1]. }
           specialize (Hl Fa). lia.
        -- rewrite app_nil_r. eapply Forall_impl; [|exact Fp].
           cbv beta. intros y Hy. lra.
      * injection E as <- E.
        destruct (Hw before g after E) as [H1 H2].
        rewrite <- !app_assoc in H1, H2. simpl in H1, H2. split; assumption.
Qed.

(** [RateLimiter] is a sliding window over the times of the calls it let
    through. Called again and again, however long its caller takes between
    the calls, [wait] always returns, and of the calls it let through up to
    and including any one, at most N (at least 1) fall in the 60 seconds
    that end at that call; the calls are let through in their order. *)
Theorem rate_limiter_is_a_sliding_window (n : Z) (gaps : list Q) (clock : Q) :
  Forall (fun g => (0 <= g)%Q) gaps ->
  exists log rl,
    waits gaps (init n) clock = Some (log, rl) /\
    List.length log = List.length gaps /\
    forall before g after,
      log = before ++ g :: after ->
      (Z.of_nat (List.length (in_window g (before ++ [g]))) <= Z.max 1 n)%Z /\
      Forall (fun x => (x <= g)%Q) before.
Proof.
  intros Hg.
  destruct (waits_window (Z.max 1 n) gaps (init n) clock [] [] Hg)
    as (log & rl & W & L & H); try reflexivity; try constructor; try lia.
  - simpl. lia.
  - exists log, rl. split; [exact W|]. split; [exact L|]. exact H.
Qed.

Lemma waits_free M : forall gaps rl clock,
  max_per_minute rl = M ->
  (Z.of_nat (List.length (times rl) + List.length gaps) <= M)%Z ->
  exists rl',
    waits gaps rl clock = Some (call_times gaps clock, rl') /\
    max_per_minute rl' = M /\
    List.length (times rl') <= List.length (times rl) + List.length gaps.
Proof.
  induction gaps as [|g gaps IH]; intros rl clock Em L.
  - exists rl. split; [reflexivity|]. split; [exact Em|lia].
  - cbn [waits call_times]. unfold wait.
    pose proof (evict_length (clock + g) (times rl)) as Le.
    replace (Z.leb _ _) with false.
    2:{ symmetry. apply Z.leb_gt. simpl in L. lia. }
    destruct (IH {| max_per_minute := max_per_minute rl;
                    times := evict (clock + g) (times rl) ++ [(clock + g)%Q] |}
                 (clock + g)%Q Em) as (rl' & W & Em' & L').
    + cbn [times]. rewrite length_app. simpl in L |- *. lia.
    + rewrite W. exists rl'. split; [reflexivity|]. split; [exact Em'|].
      cbn [times] in L'. rewrite length_app in L'. simpl in L' |- *. lia.
Qed.

Lemma last_default {A} (l : list A) x d d' :
  last (x :: l) d = last (x :: l) d'.
Proof.
  revert x. induction l as [|y l IH]; intros x; [reflexivity|].
  change (last (y :: l) d = last (y :: l) d'). apply IH.
Qed.

Lemma burst_state M c : forall k rl clock,
  max_per_minute rl = M ->
  Forall (fun t => (t == c)%Q) (times rl) -> (clock == c)%Q ->
  (Z.of_nat (List.length (times rl) + k) <= M)%Z ->
  exists log rl',
    waits (repeat 0%Q k) rl clock = Some (log, rl') /\
    max_per_minute rl' = M /\
    Forall (fun t => (t == c)%Q) (times rl') /\
    List.length (times rl') = List.length (times rl) + k /\
    (last log clock == c)%Q.
Proof.
  induction k as [|k IH]; intros rl clock Em F C L.
  - exists [], rl. simpl. repeat split; auto.
  - cbn [repeat waits]. unfold wait.
    assert (Ev : evict (clock + 0) (times rl) = times rl).
    { apply evict_fresh. eapply Forall_impl; [|exact F].
      cbv beta. intros t Ht. rewrite Ht, C. lra. }
    rewrite Ev.
    replace (Z.leb _ _) with false.
    2:{ symmetry. apply Z.leb_gt. lia. }
    destruct (IH {| max_per_minute := max_per_minute rl;
                    times := times rl ++ [(clock + 0)%Q] |}
                 (clock + 0)%Q Em) as (log & rl' & W & Em' & F' & L' & La).
    + cbn [times]. apply Forall_app. split; [exact F|].
      constructor; [rewrite C; lra|constructor].
    + rewrite C. lra.
    + cbn [times]. rewrite length_app. simpl. lia.
    + rewrite W. exists ((clock + 0)%Q :: log), rl'.
      split; [reflexivity|]. split; [exact Em'|]. split; [exact F'|].
      cbn [times] in L'. rewrite length_app in L'. simpl in L'.
      split; [lia|].
      destruct log as [|x log]; [simpl; rewrite C; lra|].
      change (last (x :: log) clock == c)%Q.
      rewrite (last_default log x clock (clock + 0)%Q). exact La.
Qed.

(** On a new limiter the first N calls of [wait] return at the moment they
    are made, whenever that is. When N calls are made at one instant, the
    call that follows them at once is held for 60.25 seconds, the time for
    the oldest of them to be more than 60 seconds old, and the window then
    holds that call alone. *)
Theorem rate_limiter_holds_the_call_over_capacity
        (n : Z) (gaps : list Q) (clock : Q) :
  (Z.of_nat (List.length gaps) <= Z.max 1 n)%Z ->
  (exists rl,
     waits gaps (init n) clock = Some (call_times gaps clock, rl)) /\
  exists log rl rl' g,
    waits (repeat 0%Q (Z.to_nat (Z.max 1 n))) (init n) clock = Some (log, rl) /\
    wait rl (last log clock) = Some (rl', g) /\
    (g == clock + 60 + (1 # 4))%Q /\ times rl' = [g].
Proof.
  intros L. split.
  - destruct (waits_free (Z.max 1 n) gaps (init n) clock eq_refl)
      as (rl & W & _); [simpl; lia|]. exists rl. exact W.
  - destruct (burst_state (Z.max 1 n) clock (Z.to_nat (Z.max 1 n))
                          (init n) clock eq_refl)
      as (log & rl & W & Em & F & Ll & La);
      [constructor|reflexivity|simpl; lia|].
    simpl in Ll.
    exists log, rl. unfold wait.
    assert (Ev : evict (last log clock) (times rl) = times rl).
    { apply evict_fresh. eapply Forall_impl; [|exact F].
      cbv beta. intros t Ht. rewrite Ht, La. lra. }
    rewrite Ev.
    replace (Z.leb _ _) with true.
    2:{ symmetry. apply Z.leb_le. lia. }
    destruct (times rl) as [|t0 r] eqn:Et; [simpl in Ll; lia|].
    cbv zeta.
    set (g := (last log clock + Qmax 0 (60 - (last log clock - t0) + (1 # 4)))%Q).
    assert (T0 : (t0 == clock)%Q) by (inversion F; assumption).
    assert (G : (g == clock + 60 + (1 # 4))%Q).
    { unfold g. rewrite Q.max_r; rewrite ?La, ?T0; lra. }
    assert (Ea : evict g (t0 :: r) = []).
    { apply evict_all. eapply Forall_impl; [|exact F].
      cbv beta. intros t Ht. rewrite Ht, G. lra. }
    rewrite Ea. eexists _, g. split; [exact W|]. split; [reflexivity|].
    split; [exact G|reflexivity].
Qed.


End LimiterFacts.

Module ScraperFacts.
Import Db Scraper.
Local Open Scope list_scope.

(** *** [strip] twice *)

Lemma lstrip_head s c r : PyStr.lstrip s = String c r -> PyStr.is_space c = false.
Proof.
  induction s as [|d s IH]; simpl; [discriminate|].
  destruct (PyStr.is_space d) eqn:E; [exact IH|].
  intros [= <- _]. exact E.
Qed.

Lemma rstrip_twice s : PyStr.rstrip (PyStr.rstrip s) = PyStr.rstrip s.
Proof.
  induction s as [|c s IH]; simpl; [reflexivity|].
  destruct (PyStr.rstrip s) as [|d r] eqn:E.
  - destruct (PyStr.is_space c) eqn:Sp; simpl; [reflexivity|].
    rewrite Sp. reflexivity.
  - simpl in IH |- *. rewrite IH. reflexivity.
Qed.

Lemma strip_twice s : PyStr.strip (PyStr.strip s) = PyStr.strip s.
Proof.
  unfold PyStr.strip.
  assert (H : PyStr.lstrip (PyStr.rstrip (PyStr.lstrip s))
              = PyStr.rstrip (PyStr.lstrip s)).
  { destruct (PyStr.lstrip s) as [|c r] eqn:E; [reflexivity|].
    apply lstrip_head in E. simpl.
    destruct (PyStr.rstrip r); rewrite ?E; simpl; rewrite ?E; reflexivity. }
  rewrite H. apply rstrip_twice.
Qed.

(** *** The batches *)

Lemma bulk_app a b tb :
  save_comments_bulk (a ++ b) tb
  = save_comments_bulk b (save_comments_bulk a tb).
Proof. unfold save_comments_bulk. apply fold_left_app. Qed.

(** What holds of the state of the scraper all along. *)
Lemma one_comment_inv env bots sub p c tb committed st :
  (exists done,
     appended st = done ++ batch st /\
     work st = save_comments_bulk done tb /\
     (durable st = work st \/ (done = [] /\ durable st = committed))) ->
  saved st = List.length (appended st) ->
  List.length (batch st) < 200 ->
  saved st mod 200 = List.length (batch st) ->
  Forall (accepted bots) (appended st) ->
  let st' := one_comment env bots sub p c st in
  (exists done,
     appended st' = done ++ batch st' /\
     work st' = save_comments_bulk done tb /\
     (durable st' = work st' \/ (done = [] /\ durable st' = committed))) /\
  saved st' = List.length (appended st') /\
  List.length (batch st') < 200 /\
  saved st' mod 200 = List.length (batch st') /\
  Forall (accepted bots) (appended st') /\
  polls st' = polls st.
Proof.
  intros (done & Ea & Ew & Ed) Es Lb Em Fa. unfold one_comment.
  destruct (rc_raises c); [cbv zeta; eauto 10|].
  destruct (in_bots bots (rc_author c)) eqn:Bots; [cbv zeta; eauto 10|].
  destruct (PyStr.truthy (PyStr.strip (rc_body c))) eqn:T;
    [|cbv zeta; cbn [negb]; eauto 10].
  cbn [negb]. cbv zeta.
  set (row := row_of sub p c (time_at env (saved st))).
  assert (Ar : accepted bots row).
  { unfold accepted, row. cbn [body author row_of]. split; [apply strip_twice|].
    split; [|exact Bots]. intros E. rewrite E in T. discriminate. }
  assert (Fa' : Forall (accepted bots) (appended st ++ [row])).
  { apply Forall_app. split; [exact Fa|constructor; [exact Ar|constructor]]. }
  pose proof (Nat.div_mod_eq (saved st) 200) as D1.
  pose proof (Nat.div_mod_eq (S (saved st)) 200) as D2.
  pose proof (Nat.mod_upper_bound (S (saved st)) 200) as U2.
  cbn [batch append]. rewrite length_app. cbn [List.length].
  unfold batch_size.
  destruct (Nat.leb 200 (List.length (batch st) + 1)) eqn:Full.
  - apply Nat.leb_le in Full.
    cbn [saved save_batch append].
    replace (Nat.eqb (S (saved st) mod 200) 0) with true.
    2:{ symmetry. apply Nat.eqb_eq. lia. }
    cbn [work durable batch saved polls appended commit save_batch append
         List.length].
    split; [|split; [|split; [|split; [|split]]]].
    + exists (done ++ batch st ++ [row]). split; [|split].
      * rewrite app_nil_r, Ea, app_assoc. reflexivity.
      * rewrite Ew, <- bulk_app. reflexivity.
      * left. reflexivity.
    + rewrite length_app. cbn [List.length]. lia.
    + lia.
    + lia.
    + exact Fa'.
    + reflexivity.
  - apply Nat.leb_gt in Full.
    cbn [work durable batch saved polls appended commit save_batch append
         List.length].
    split; [|split; [|split; [|split; [|split]]]].
    + exists done. split; [|split].
      * rewrite Ea, app_assoc. reflexivity.
      * exact Ew.
      * exact Ed.
    + rewrite length_app. cbn [List.length]. lia.
    + rewrite length_app. cbn [List.length]. lia.
    + rewrite length_app. cbn [List.length]. lia.
    + exact Fa'.
    + reflexivity.
Qed.

Section Loops.
Variables (env : Env) (bots : list string) (tb committed : Tables).

(** The invariant, as one statement. *)
Lemma comments_loop_inv sub p take : forall st,
  (exists done,
     appended st = done ++ batch st /\
     work st = save_comments_bulk done tb /\
     (durable st = work st \/ (done = [] /\ durable st = committed))) /\
  saved st = List.length (appended st) /\
  List.length (batch st) < 200 /\
  saved st mod 200 = List.length (batch st) /\
  Forall (accepted bots) (appended st) ->
  let st' := state_of (comments_loop env bots sub p take st) in
  (exists done,
     appended st' = done ++ batch st' /\
     work st' = save_comments_bulk done tb /\
     (durable st' = work st' \/ (done = [] /\ durable st' = committed))) /\
  saved st' = List.length (appended st') /\
  List.length (batch st') < 200 /\
  saved st' mod 200 = List.length (batch st') /\
  Forall (accepted bots) (appended st').
Proof.
  induction take as [|c rest IH]; intros st H; [exact H|].
  cbn [comments_loop]. unfold poll.
  destruct (should_abort env (polls st)); [exact H|].
  apply IH. destruct H as (H1 & H2 & H3 & H4 & H5).
  match goal with
  | |- context [one_comment env bots sub p c ?s] =>
      destruct (one_comment_inv env bots sub p c tb committed s H1 H2 H3 H4 H5)
        as (K1 & K2 & K3 & K4 & K5 & _)
  end.
  auto.
Qed.

Lemma feed_loop_inv sub max posts ending : forall st,
  (exists done,
     appended st = done ++ batch st /\
     work st = save_comments_bulk done tb /\
     (durable st = work st \/ (done = [] /\ durable st = committed))) /\
  saved st = List.length (appended st) /\
  List.length (batch st) < 200 /\
  saved st mod 200 = List.length (batch st) /\
  Forall (accepted bots) (appended st) ->
  let st' := state_of (feed_loop env bots sub max posts ending st) in
  (exists done,
     appended st' = done ++ batch st' /\
     work st' = save_comments_bulk done tb /\
     (durable st' = work st' \/ (done = [] /\ durable st' = committed))) /\
  saved st' = List.length (appended st') /\
  List.length (batch st') < 200 /\
  saved st' mod 200 = List.length (batch st') /\
  Forall (accepted bots) (appended st').
Proof.
  induction posts as [|p rest IH]; intros st H.
  - cbn [feed_loop]. destruct ending; exact H.
  - cbn [feed_loop]. unfold poll.
    destruct (should_abort env (polls st)); [exact H|].
    match goal with
    | |- context [comments_loop env bots sub p ?t ?s] =>
        pose proof (comments_loop_inv sub p t s H) as K;
        destruct (comments_loop env bots sub p t s) as [s1|s1|s1|s1]
    end; try exact K.
    apply IH, K.
Qed.

Lemma subreddits_loop_inv listing post_limit max subreddits : forall st,
  (exists done,
     appended st = done ++ batch st /\
     work st = save_comments_bulk done tb /\
     (durable st = work st \/ (done = [] /\ durable st = committed))) /\
  saved st = List.length (appended st) /\
  List.length (batch st) < 200 /\
  saved st mod 200 = List.length (batch st) /\
  Forall (accepted bots) (appended st) ->
  let st' :=
    state_of (subreddits_loop env bots listing post_limit max subreddits st) in
  (exists done,
     appended st' = done ++ batch st' /\
     work st' = save_comments_bulk done tb /\
     (durable st' = work st' \/ (done = [] /\ durable st' = committed))) /\
  saved st' = List.length (appended st') /\
  List.length (batch st') < 200 /\
  saved st' mod 200 = List.length (batch st') /\
  Forall (accepted bots) (appended st').
Proof.
  induction subreddits as [|sub rest IH]; intros st H; [exact H|].
  cbn [subreddits_loop]. unfold poll.
  destruct (should_abort env (polls st)); [exact H|].
  destruct (feed env sub (choose_listing listing) post_limit)
    as [posts ending].
  match goal with
  | |- context [feed_loop env bots sub max posts ending ?s] =>
      pose proof (feed_loop_inv sub max posts ending s H) as K;
      destruct (feed_loop env bots sub max posts ending s) as [s1|s1|s1|s1]
  end; try exact K.
  apply IH, K.
Qed.

End Loops.

Lemma start_inv bots tb committed :
  (exists done,
     appended (start tb committed) = done ++ batch (start tb committed) /\
     work (start tb committed) = save_comments_bulk done tb /\
     (durable (start tb committed) = work (start tb committed) \/
      (done = [] /\ durable (start tb committed) = committed))) /\
  saved (start tb committed) = List.length (appended (start tb committed)) /\
  List.length (batch (start tb committed)) < 200 /\
  saved (start tb committed) mod 200
  = List.length (batch (start tb committed)) /\
  Forall (accepted bots) (appended (start tb committed)).
Proof.
  cbn [start work durable batch saved polls appended List.length].
  split; [exists []; auto|]. split; [reflexivity|]. split; [lia|].
  split; [reflexivity|constructor].
Qed.

Lemma flush_readings st done tb :
  appended st = done ++ batch st ->
  work st = save_comments_bulk done tb ->
  batch (flush st) = [] /\ durable (flush st) = work (flush st) /\
  work (flush st) = save_comments_bulk (appended st) tb /\
  saved (flush st) = saved st /\ appended (flush st) = appended st.
Proof.
  intros Ea Ew. unfold flush. destruct (batch st) as [|x l] eqn:E; cbn.
  - rewrite Ea, app_nil_r. auto.
  - rewrite Ea, Ew, E, <- bulk_app. auto.
Qed.

(** [scrape] saves what it accepts, and nothing else: the rows it builds
    have a body that is stripped and not empty and an author that is not
    among the bots, and [saved] counts them. When it returns, at the end of
    the feeds or on an abort, and when it lets through one of the
    [prawcore] exceptions, the store is the one the rows give when they are
    saved in their order, the batch is empty and all is committed. With no
    credentials it raises before it touches anything. Another exception of
    a feed leaves it with the rows of the pending batch, fewer than 200,
    not saved; what it saved before is committed. *)
Theorem scrape_saves_what_it_accepts
        (env : Env) (subreddits : list string) (listing : string)
        (post_limit max_comments_per_post : Z) (bots : list string)
        (tb committed : Tables) :
  let r := scrape env subreddits listing post_limit max_comments_per_post
                  bots tb committed in
  saved (final r) = List.length (appended (final r)) /\
  Forall (accepted bots) (appended (final r)) /\
  match r with
  | Returns n st =>
      n = saved st /\ batch st = [] /\ durable st = work st /\
      work st = save_comments_bulk (appended st) tb
  | Raises FromPraw st =>
      batch st = [] /\ durable st = work st /\
      work st = save_comments_bulk (appended st) tb
  | Raises MissingCredentials st =>
      credentials env = false /\ st = start tb committed
  | Raises FromElsewhere st =>
      List.length (batch st) < 200 /\
      exists done,
        appended st = done ++ batch st /\
        work st = save_comments_bulk done tb /\
        (durable st = work st \/ (done = [] /\ durable st = committed))
  end.
Proof.
  intros r. subst r. unfold scrape.
  destruct (credentials env) eqn:Cr; cbn [negb].
  2:{ cbn. split; [reflexivity|]. split; [constructor|auto]. }
  pose proof (subreddits_loop_inv env bots tb committed listing post_limit
                max_comments_per_post subreddits (start tb committed)
                (start_inv bots tb committed)) as K.
  destruct (subreddits_loop _ _ _ _ _ _ _) as [st|st|st|st];
    cbn [state_of] in K; cbv zeta in K;
    destruct K as ((done & Ea & Ew & Ed) & Es & Lb & Em & Fa);
    cbn [final];
    try (destruct (flush_readings st done tb Ea Ew) as (F1 & F2 & F3 & F4 & F5);
         rewrite ?F4, ?F5;
         split; [exact Es|]; split; [exact Fa|]; auto).
  split; [exact Lb|]. eauto.
Qed.

Lemma fold_ignore_in rows : forall t c,
  In c (fold_left (fun t c => insert_or_ignore_comment c t) rows t) ->
  In c t \/ In c rows.
Proof.
  induction rows as [|r rows IH]; intros t c; simpl; [auto|].
  intros H. apply IH in H as [H|H]; [|auto].
  unfold insert_or_ignore_comment in H. destruct (existsb _ t); [auto|].
  apply in_app_or in H as [H|[<-|[]]]; auto.
Qed.

Lemma fold_ignore_length rows : forall t,
  List.length (fold_left (fun t c => insert_or_ignore_comment c t) rows t)
  <= List.length t + List.length rows.
Proof.
  induction rows as [|r rows IH]; intros t; simpl; [lia|].
  specialize (IH (insert_or_ignore_comment r t)).
  unfold insert_or_ignore_comment in *. destruct (existsb _ t); [lia|].
  rewrite length_app in IH. simpl in IH. lia.
Qed.

Lemma saved_prefix_store bots tb done :
  Forall (accepted bots) done ->
  (forall c, In c (comments (save_comments_bulk done tb)) ->
             In c (comments tb) \/ accepted bots c) /\
  comment_analysis (save_comments_bulk done tb) = comment_analysis tb /\
  mentions (save_comments_bulk done tb) = mentions tb /\
  List.length (comments (save_comments_bulk done tb))
  <= List.length (comments tb) + List.length done /\
  (pk_comments (comments tb) ->
   pk_comments (comments (save_comments_bulk done tb)) /\
   exists added, comments (save_comments_bulk done tb) = comments tb ++ added).
Proof.
  intros Fa. destruct (CommentFacts.bulk_comments done tb) as (C & A & M).
  rewrite C, A, M. split; [|split; [|split; [|split]]]; auto.
  - intros c I. apply fold_ignore_in in I as [I|I]; [auto|].
    right. rewrite Forall_forall in Fa. apply Fa, I.
  - apply fold_ignore_length.
  - intros N. destruct (CommentFacts.fold_ignore_spec done (comments tb) N)
      as (added & E & _ & N' & _).
    rewrite E. split; [exact N'|eauto].
Qed.

(** However [scrape] ends, a comment of the store is one that was there or
    one it accepted, with a body that is stripped and not empty and an
    author that is not among the bots; the statuses and the mentions are as
    they were; the comments are at most [saved] more, and fewer when a row
    met its key in the store; and a store with one comment per key is left
    such, the comments it had in their places. *)
Theorem scrape_never_stores_a_blank_body
        (env : Env) (subreddits : list string) (listing : string)
        (post_limit max_comments_per_post : Z) (bots : list string)
        (tb committed : Tables) :
  let st := final (scrape env subreddits listing post_limit
                          max_comments_per_post bots tb committed) in
  (forall c, In c (comments (work st)) ->
             In c (comments tb) \/ accepted bots c) /\
  comment_analysis (work st) = comment_analysis tb /\
  mentions (work st) = mentions tb /\
  List.length (comments (work st)) <= List.length (comments tb) + saved st /\
  (pk_comments (comments tb) ->
   pk_comments (comments (work st)) /\
   exists added, comments (work st) = comments tb ++ added).
Proof.
  intros st. subst st. unfold scrape.
  destruct (credentials env); cbn [negb].
  2:{ cbn. split; [auto|]. split; [reflexivity|]. split; [reflexivity|].
      split; [lia|]. intros N. split; [exact N|].
      exists []. symmetry. apply app_nil_r. }
  pose proof (subreddits_loop_inv env bots tb committed listing post_limit
                max_comments_per_post subreddits (start tb committed)
                (start_inv bots tb committed)) as K.
  destruct (subreddits_loop _ _ _ _ _ _ _) as [st|st|st|st];
    cbn [state_of] in K; cbv zeta in K;
    destruct K as ((done & Ea & Ew & Ed) & Es & Lb & Em & Fa);
    cbn [final];
    try (destruct (flush_readings st done tb Ea Ew) as (_ & _ & F3 & F4 & _);
         rewrite F3, F4, Es; apply (saved_prefix_store bots), Fa).
  rewrite Ew.
  assert (Fd : Forall (accepted bots) done).
  { rewrite Ea in Fa. apply Forall_app in Fa. tauto. }
  destruct (saved_prefix_store bots tb done Fd) as (S1 & S2 & S3 & S4 & S5).
  split; [exact S1|]. split; [exact S2|]. split; [exact S3|].
  split; [|exact S5].
  rewrite Es, Ea, length_app. lia.
Qed.

End ScraperFacts.

Module ClearFacts.
Import Analyzer Db DbFacts DbMore Pipeline Runs RunFacts Cli.
Local Open Scope list_scope.

Lemma tables_eq a b :
  comments a = comments b -> comment_analysis a = comment_analysis b ->
  mentions a = mentions b -> a = b.
Proof. destruct a, b. simpl. intros -> -> ->. reflexivity. Qed.

Lemma other_status_twice tag t :
  other_status tag (other_status tag t) = other_status tag t.
Proof.
  unfold other_status. rewrite filter_filter. apply filter_ext.
  intros r. destruct (negb _); reflexivity.
Qed.

Lemma other_mentions_twice tag t :
  other_mentions tag (other_mentions tag t) = other_mentions tag t.
Proof.
  unfold other_mentions. rewrite filter_filter. apply filter_ext.
  intros r. destruct (negb _); reflexivity.
Qed.

(** [_clear_analysis] removes the rows of its tag and no other: the
    comments and the rows of the other tags stay, in their order; the two
    counts it returns are the numbers of mention rows and of status rows it
    removed; no record has a status under the tag any more and the tag is
    no longer listed; clearing again removes nothing. *)
Theorem clear_analysis_removes_the_tag (tag : string) (tb : Tables) :
  let tb' := fst (_clear_analysis tag tb) in
  let counts := snd (_clear_analysis tag tb) in
  comments tb' = comments tb /\
  comment_analysis tb' = other_status tag (comment_analysis tb) /\
  mentions tb' = other_mentions tag (mentions tb) /\
  fst counts + List.length (mentions tb') = List.length (mentions tb) /\
  snd counts + List.length (comment_analysis tb')
  = List.length (comment_analysis tb) /\
  (forall cid, status_of tb' tag cid = None) /\
  fetch_distinct_mentioned_tickers tb' tag = [] /\
  (tag <> "" -> ~ In tag (list_analysis_tags tb')) /\
  _clear_analysis tag tb' = (tb', (0, 0)).
Proof.
  cbn [fst snd _clear_analysis set_mentions set_analysis comments
       comment_analysis mentions].
  split; [reflexivity|]. split; [reflexivity|]. split; [reflexivity|].
  split; [apply filter_split_length|]. split; [apply filter_split_length|].
  assert (Na : forall r, In r (other_status tag (comment_analysis tb)) ->
                         String.eqb (a_tag r) tag = false).
  { intros r I. apply filter_In in I as [_ I]. apply negb_true_iff, I. }
  assert (Nm : forall r, In r (other_mentions tag (mentions tb)) ->
                         String.eqb (m_tag r) tag = false).
  { intros r I. apply filter_In in I as [_ I]. apply negb_true_iff, I. }
  split; [|split; [|split]].
  - intros cid. unfold status_of, status_row.
    destruct (find _ _) as [r|] eqn:F; [|reflexivity].
    apply find_some in F as [I K]. cbn [comment_analysis] in I.
    unfold analysis_key in K. rewrite (Na r I) in K. discriminate.
  - unfold fetch_distinct_mentioned_tickers. cbn [mentions].
    rewrite (filter_nil _ (other_mentions tag (mentions tb))); [reflexivity|].
    exact Nm.
  - intros Ne I.
    apply TagFacts.list_analysis_tags_members in I.
    cbn [comment_analysis mentions] in I.
    destruct I as [_ [(r & I & E)|(m & I & E)]].
    + apply Na in I. rewrite E, String.eqb_refl in I. discriminate.
    + apply Nm in I. rewrite E, String.eqb_refl in I. discriminate.
  - unfold _clear_analysis.
    cbn [set_mentions set_analysis comments comment_analysis mentions].
    rewrite other_status_twice, other_mentions_twice.
    rewrite (filter_nil _ (other_mentions tag (mentions tb))) by exact Nm.
    rewrite (filter_nil _ (other_status tag (comment_analysis tb))) by exact Na.
    reflexivity.
Qed.

(** [_clear_analysis] undoes a run: when the store holds no row of the tag,
    a call of [analyze] under that tag followed by [_clear_analysis] leaves
    the store as it was before the run, however the run ended. And
    [_clear_dataset] leaves the empty store. *)
Theorem clear_analysis_undoes_a_run
        (env : Env) (cfg : Config) (fuel : nat) (tb committed : Tables)
        (now : Q) :
  other_status (analysis_tag cfg) (comment_analysis tb) = comment_analysis tb ->
  other_mentions (analysis_tag cfg) (mentions tb) = mentions tb ->
  at_end (fun st' =>
            fst (_clear_analysis (analysis_tag cfg) (work st')) = tb /\
            fst (_clear_dataset (work st')) = init_db)
         (analyze env cfg fuel tb committed now).
Proof.
  intros Ha Hm.
  apply (analyze_preserved
           (fun tb' =>
              fst (_clear_analysis (analysis_tag cfg) tb') = tb /\
              fst (_clear_dataset tb') = init_db)).
  - intros w cid t tb' _ [E _]. split; [|reflexivity].
    transitivity (fst (_clear_analysis (analysis_tag cfg) tb')); [|exact E].
    apply tables_eq;
      cbn [fst _clear_analysis set_mentions set_analysis comments
           comment_analysis mentions].
    + destruct w; reflexivity.
    + apply other_status_mark.
    + destruct w; reflexivity.
  - intros cid rows t tb' [E _]. split; [|reflexivity].
    transitivity (fst (_clear_analysis (analysis_tag cfg) tb')); [|exact E].
    apply tables_eq;
      cbn [fst _clear_analysis set_mentions set_analysis comments
           comment_analysis mentions]; try reflexivity.
    apply other_mentions_save.
  - intros tickers tb' [E _]. split; [|reflexivity].
    transitivity (fst (_clear_analysis (analysis_tag cfg) tb')); [|exact E].
    destruct (ValidatorFacts.delete_mentions_frame
                (analysis_tag cfg) tickers tb') as (C & A & _).
    apply tables_eq;
      cbn [fst _clear_analysis set_mentions set_analysis comments
           comment_analysis mentions].
    + exact C.
    + rewrite A. reflexivity.
    + apply other_mentions_delete.
  - split; [|reflexivity]. apply tables_eq;
      cbn [fst _clear_analysis set_mentions set_analysis comments
           comment_analysis mentions]; auto.
Qed.

End ClearFacts.

(* ================================================================= *)
(** ** More worked cases *)

Module WorkedMore.
Import Analyzer Db DbMore Pipeline Runs Demo Samples.
Local Open Scope list_scope.

Ltac distinct_keys :=
  repeat (constructor; [simpl; intuition discriminate|]); constructor.

Lemma mixed_comments_pk : pk_comments (comments mixed_store).
Proof. unfold pk_comments. cbn. distinct_keys. Defined.

Lemma mixed_status_pk : pk_analysis (comment_analysis mixed_store).
Proof. unfold pk_analysis. cbn. distinct_keys. Defined.

Lemma mixed_mentions_pk : pk_mentions (mentions mixed_store).
Proof. unfold pk_mentions. cbn. distinct_keys. Defined.

Lemma normalize_ticker_ignores_case_and_padding_witness :
  PyStr.is_ascii "brk/b" = true /\
  PyStr.forallb PyStr.is_space " " = true /\
  PyStr.forallb PyStr.is_space "  " = true /\
  Ticker.normalize_ticker (PyStr.lower "brk/b") = "BRK.B" /\
  Ticker.normalize_ticker (" " ++ "brk/b" ++ "  ")%string = "BRK.B".
Proof.
  split; [reflexivity|]. split; [reflexivity|]. split; [reflexivity|].
  destruct (TickerMore.normalize_ticker_ignores_case_and_padding
              "brk/b" " " "  " eq_refl eq_refl eq_refl) as (_ & L & P).
  split; [rewrite L|rewrite P]; reflexivity.
Defined.

Lemma normalize_ticker_strips_sigil_and_prefix_witness :
  "NASDAQ" <> "" /\
  PyStr.forallb Hints.is_letter "NASDAQ" = true /\
  Ticker.normalize_ticker
    ("NASDAQ" ++ String ":" (Ticker.normalize_ticker "aapl"))%string
  = Ticker.normalize_ticker "aapl".
Proof.
  assert (N : "NASDAQ" <> "") by discriminate.
  split; [exact N|]. split; [reflexivity|].
  exact (proj2 (TickerMore.normalize_ticker_strips_sigil_and_prefix
                  "aapl" "NASDAQ" N eq_refl)).
Defined.

Lemma save_comments_bulk_only_adds_witness :
  pk_comments (comments mixed_store) /\
  pk_comments (comments (save_comments_bulk fresh_comments mixed_store)) /\
  save_comments_bulk fresh_comments
                     (save_comments_bulk fresh_comments mixed_store)
  = save_comments_bulk fresh_comments mixed_store.
Proof.
  split; [exact mixed_comments_pk|].
  destruct (CommentFacts.save_comments_bulk_only_adds
              fresh_comments mixed_store mixed_comments_pk)
    as (_ & P & _ & _ & _ & _ & I).
  split; [exact P|exact I].
Defined.

Lemma candidates_are_the_eligible_comments_witness :
  pk_analysis (comment_analysis mixed_store) /\
  In (comment "c3" "GME up" 300)
     (candidate_rows mixed_store "default" (-1) false None false).
Proof.
  split; [exact mixed_status_pk|].
  destruct (SelectionMore.candidates_are_the_eligible_comments
              mixed_store "default" (-1) false false None
              (comment "c3" "GME up" 300) mixed_status_pk) as [_ H].
  apply H; [lia| |reflexivity|reflexivity].
  right. right. left. reflexivity.
Defined.

Lemma marking_moves_one_record_witness :
  pk_analysis (comment_analysis mixed_store) /\
  status_of (mark MarkOk "default" "c3" "gpt-5-nano" 7 mixed_store)
            "default" "c3" = Some ok /\
  ~ In "c3"
       (map fst
            (fetch_candidates
               (mark MarkOk "default" "c3" "gpt-5-nano" 7 mixed_store)
               "default" 10 true None false)).
Proof.
  split; [exact mixed_status_pk|].
  destruct (SelectionMore.marking_moves_one_record
              MarkOk "default" "c3" "gpt-5-nano" 7 mixed_store 10 true false
              None mixed_status_pk) as (S1 & _ & S3 & _).
  split; [exact S1|]. apply S3. reflexivity.
Defined.

Lemma run_keeps_primary_keys_witness :
  pk_analysis (comment_analysis mixed_store) /\
  pk_mentions (mentions mixed_store) /\
  at_end (fun st' =>
            pk_analysis (comment_analysis (work st')) /\
            pk_mentions (mentions (work st')))
         (analyze answering_env cfg 1 mixed_store mixed_store 0).
Proof.
  split; [exact mixed_status_pk|]. split; [exact mixed_mentions_pk|].
  exact (RunFacts.run_keeps_primary_keys answering_env cfg 1 mixed_store
           mixed_store 0 mixed_status_pk mixed_mentions_pk).
Defined.

Lemma shortcut_marks_ok_without_a_call_witness :
  Ticker.has_finance_hint (PyStr.strip "hello there ") = false /\
  exists st',
    item shortcut_env cfg None 0%Q 1 ("c01", "hello there ")
         (start chatter_store chatter_store 0) = Next st' /\
    calls st' = 0 /\
    status_of (work st') "default" "c01" = Some ok.
Proof.
  assert (H : Ticker.has_finance_hint (PyStr.strip "hello there ") = false)
    by (vm_compute; reflexivity).
  split; [exact H|].
  destruct (ItemFacts.shortcut_marks_ok_without_a_call
              shortcut_env cfg None 0%Q 1 "c01" "hello there "
              (start chatter_store chatter_store 0)
              eq_refl eq_refl eq_refl eq_refl H)
    as (st' & E & C & _ & R & _).
  exists st'. split; [exact E|]. split; [exact C|].
  unfold status_of. cbn [analysis_tag cfg] in R. rewrite R. reflexivity.
Defined.

Lemma model_answer_is_stored_witness :
  exists st',
    item answering_env cfg None 0%Q 1 ("c3", "I am buying calls")
         (start mixed_store mixed_store 0) = Next st' /\
    calls st' = 1 /\
    mentions (work st')
    = [mention_row "default" "c3" "gpt-5-nano" 1700000002 ("TSLA", neutral)].
Proof.
  destruct (ItemFacts.model_answer_is_stored
              answering_env cfg None 0%Q 0 "c3" "I am buying calls"
              [ {| ticker := "$tsla"; sentiment := bullish |};
                {| ticker := "TSLA"; sentiment := bearish |} ] 2%Q
              (start mixed_store mixed_store 0)
              eq_refl eq_refl eq_refl eq_refl)
    as (st' & E & C & _ & M & _).
  - vm_compute. reflexivity.
  - reflexivity.
  - exists st'. split; [exact E|]. split; [exact C|].
    rewrite M. injection E as <-. vm_compute. reflexivity.
Defined.

Lemma rate_limiter_is_a_sliding_window_witness :
  Forall (fun g => (0 <= g)%Q) [0%Q; 0%Q; 30%Q] /\
  exists log rl,
    OpenaiClient.waits [0%Q; 0%Q; 30%Q] (OpenaiClient.init 2) 0%Q
    = Some (log, rl) /\
    List.length log = 3.
Proof.
  assert (H : Forall (fun g => (0 <= g)%Q) [0%Q; 0%Q; 30%Q]).
  { repeat constructor; unfold Qle; simpl; lia. }
  split; [exact H|].
  destruct (LimiterFacts.rate_limiter_is_a_sliding_window
              2 [0%Q; 0%Q; 30%Q] 0%Q H) as (log & rl & W & L & _).
  exists log, rl. split; [exact W|exact L].
Defined.

Lemma rate_limiter_holds_the_call_over_capacity_witness :
  (Z.of_nat (List.length [5%Q; 70%Q]) <= Z.max 1 2)%Z /\
  exists rl,
    OpenaiClient.waits [5%Q; 70%Q] (OpenaiClient.init 2) 0%Q
    = Some (OpenaiClient.call_times [5%Q; 70%Q] 0%Q, rl).
Proof.
  assert (H : (Z.of_nat (List.length [5%Q; 70%Q]) <= Z.max 1 2)%Z)
    by (simpl; lia).
  split; [exact H|].
  exact (proj1 (LimiterFacts.rate_limiter_holds_the_call_over_capacity
                  2 [5%Q; 70%Q] 0%Q H)).
Defined.


Lemma clear_analysis_undoes_a_run_witness :
  other_status "default" (comment_analysis chatter_store)
  = comment_analysis chatter_store /\
  other_mentions "default" (mentions chatter_store) = mentions chatter_store /\
  at_end (fun st' =>
            fst (Cli._clear_analysis "default" (work st')) = chatter_store /\
            fst (Cli._clear_dataset (work st')) = init_db)
         (analyze shortcut_env cfg 1 chatter_store chatter_store 0).
Proof.
  split; [reflexivity|]. split; [reflexivity|].
  exact (ClearFacts.clear_analysis_undoes_a_run
           shortcut_env cfg 1 chatter_store chatter_store 0 eq_refl eq_refl).
Defined.

End WorkedMore.
